(** * seedphrase9: the balance-resolution subsystem, embedded and verified

    The development follows the three source files of the repository:

    - [src/lib/providerRotation.js]: the provider registry with its
      round-robin index and cooldown clock ([Module ProviderRotation]);
    - the main script (express server, [deriveAddress],
      [updateAllExchangeRates], [getExchangeRate], [getBalance],
      [startBot]): [Module Bot];
    - the JavaScript values and built-ins both rely on: [Module Js].

    JavaScript numbers are IEEE-754 binary64 values and are modelled by the
    kernel's primitive floats; BigInt values are modelled by [Z]. *)

From Stdlib Require Import ZArith String Ascii List Bool Lia.
From Stdlib Require Import Floats.PrimFloat Floats.FloatOps Floats.SpecFloat.
From Stdlib Require Import Uint63.
From stdpp Require Import gmap strings pretty.

Open Scope string_scope.
Set Warnings "-register-all".

(** ** JavaScript values and built-ins *)

Module Js.

(** What an evaluation completes with: a value, or a thrown exception. *)
Inductive exn :=
| Error (message : string)   (* [new Error(message)], and rejections of fetch and of the SDK clients *)
| TypeError                  (* property read on [undefined] or [null], BigInt(undefined), ... *)
| RangeError                 (* BigInt of a number that is not an integer *)
| SyntaxError.               (* BigInt of a string that is not an integer literal *)

Inductive completion (A : Type) :=
| Normal (a : A)
| Throw (e : exn).
Arguments Normal {A} a.
Arguments Throw {A} e.

Definition is_normal {A} (c : completion A) : bool :=
  match c with Normal _ => true | Throw _ => false end.

(** The values [response.json()] produces.  [undefined] is not one of them:
    a possibly undefined value is an [option json], [None] being
    [undefined].  Objects keep their keys in insertion order; a key occurs
    once ([JSON.parse] keeps the last of several).  What a value inherits
    from its prototype (a method, [constructor]) is a function, not a
    JSON value: see [get_prop]. *)
Inductive json :=
| JNull
| JBool (b : bool)
| JNum (f : float)
| JStr (s : string)
| JArr (items : list json)
| JObj (fields : list (string * json)).

(** The two conversions between numbers and their decimal notation are the
    engine's ([StringToNumber], [Number::toString]); the program only
    relies on them when a balance arrives as a string where a number is
    expected, or as an array.  They are left abstract. *)
Class NumberNotation := {
  StringToNumber : string -> float;
  NumberToString : float -> string
}.

(** *** Characters and strings *)

Definition is_digit (c : ascii) : bool :=
  let n := nat_of_ascii c in (48 <=? n)%nat && (n <=? 57)%nat.

(** [\w] of a regular expression without the unicode flag: [A-Za-z0-9_]. *)
Definition is_word_char (c : ascii) : bool :=
  let n := nat_of_ascii c in
  ((48 <=? n)%nat && (n <=? 57)%nat) || ((65 <=? n)%nat && (n <=? 90)%nat)
  || ((97 <=? n)%nat && (n <=? 122)%nat) || (n =? 95)%nat.

(** White space and line terminators of the ASCII range (tab, LF, VT, FF,
    CR, space). *)
Definition is_space (c : ascii) : bool :=
  let n := nat_of_ascii c in ((9 <=? n)%nat && (n <=? 13)%nat) || (n =? 32)%nat.

Fixpoint string_rev_onto (s acc : string) : string :=
  match s with
  | EmptyString => acc
  | String c s' => string_rev_onto s' (String c acc)
  end.
Definition string_rev (s : string) : string := string_rev_onto s "".

Fixpoint trim_start (s : string) : string :=
  match s with
  | String c s' => if is_space c then trim_start s' else s
  | EmptyString => s
  end.
Definition trim (s : string) : string :=
  string_rev (trim_start (string_rev (trim_start s))).

Fixpoint string_forall (p : ascii -> bool) (s : string) : bool :=
  match s with
  | EmptyString => true
  | String c s' => p c && string_forall p s'
  end.

(** The longest prefix of [s] made of characters satisfying [p], and the
    rest of [s]. *)
Fixpoint span (p : ascii -> bool) (s : string) : string * string :=
  match s with
  | String c s' =>
      if p c then let '(a, b) := span p s' in (String c a, b) else ("", s)
  | EmptyString => ("", "")
  end.

(** [s.split(sep)] for a separator of one character. *)
Fixpoint split (sep : ascii) (s : string) : list string :=
  match s with
  | EmptyString => [""]
  | String c s' =>
      if Ascii.eqb c sep then "" :: split sep s'
      else match split sep s' with
           | seg :: segs => String c seg :: segs
           | [] => [String c ""]
           end
  end.

Fixpoint string_drop (n : nat) (s : string) : string :=
  match n, s with
  | S n', String _ s' => string_drop n' s'
  | _, _ => s
  end.

(** [s.replace(pat, rep)] for a string pattern: the first occurrence only.
    (The [$]-patterns of a replacement string are not modelled: the
    addresses substituted are base58 or hexadecimal.) *)
Fixpoint replace (pat rep s : string) : string :=
  if String.prefix pat s then rep ++ string_drop (String.length pat) s
  else match s with
       | EmptyString => ""
       | String c s' => String c (replace pat rep s')
       end.

(** *** Integer literals *)

Definition hex_value (c : ascii) : option Z :=
  let n := Z.of_nat (nat_of_ascii c) in
  if (48 <=? n)%Z && (n <=? 57)%Z then Some (n - 48)%Z
  else if (65 <=? n)%Z && (n <=? 70)%Z then Some (n - 55)%Z
  else if (97 <=? n)%Z && (n <=? 102)%Z then Some (n - 87)%Z
  else None.

(** The value of a string of digits in a radix, read from the left;
    [None] when a character is no digit of that radix. *)
Fixpoint digits_value (radix : Z) (s : string) (acc : Z) : option Z :=
  match s with
  | EmptyString => Some acc
  | String c s' =>
      match hex_value c with
      | Some d => if (d <? radix)%Z then digits_value radix s' (acc * radix + d)%Z else None
      | None => None
      end
  end.

Definition nonempty_digits (radix : Z) (s : string) : option Z :=
  match s with
  | EmptyString => None
  | _ => digits_value radix s 0%Z
  end.

(** [parseInt(s)] for a string matched by [\d+].  The value is kept exact:
    it is used as an index, and the engine's number is the same below
    2^53, far above the length of any array or string. *)
Definition parseInt (s : string) : N :=
  match digits_value 10 s 0%Z with
  | Some z => Z.to_N z
  | None => 0%N
  end.

(** StringToBigInt: white space trimmed; the empty string is 0; a decimal
    literal may carry a sign, a literal with prefix 0x, 0o or 0b may not. *)
Definition StringToBigInt (s : string) : option Z :=
  match trim s with
  | EmptyString => Some 0%Z
  | String "+" ds => nonempty_digits 10 ds
  | String "-" ds => option_map Z.opp (nonempty_digits 10 ds)
  | String "0" (String c ds) as t =>
      if Ascii.eqb c "x" || Ascii.eqb c "X" then nonempty_digits 16 ds
      else if Ascii.eqb c "o" || Ascii.eqb c "O" then nonempty_digits 8 ds
      else if Ascii.eqb c "b" || Ascii.eqb c "B" then nonempty_digits 2 ds
      else nonempty_digits 10 t
  | t => nonempty_digits 10 t
  end.

(** *** Numbers *)

(** The number of an integer of magnitude below 2^53 (exactly). *)
Definition float_of_Z (z : Z) : float :=
  if (z <? 0)%Z then PrimFloat.opp (PrimFloat.of_uint63 (Uint63.of_Z (- z)))
  else PrimFloat.of_uint63 (Uint63.of_Z z).

Definition float_of_nat (n : nat) : float := float_of_Z (Z.of_nat n).

(** The integer a number denotes, when it denotes one. *)
Definition integer_of_float (f : float) : option Z :=
  match Prim2SF f with
  | S754_zero _ => Some 0%Z
  | S754_finite s m e =>
      let m' := if s then Z.neg m else Z.pos m in
      if (0 <=? e)%Z then Some (m' * 2 ^ e)%Z
      else if (Z.pos m mod 2 ^ (- e) =? 0)%Z then Some (m' / 2 ^ (- e))%Z
      else None
  | S754_infinity _ | S754_nan => None
  end.

(** [Math.round(x)]: the integral number closest to [x], the larger one
    when two are as close; NaN, the infinities and the zeros are kept. *)
Definition Math_round (f : float) : float :=
  match Prim2SF f with
  | S754_finite s m e =>
      if (0 <=? e)%Z then f
      else
        let m' := if s then Z.neg m else Z.pos m in
        let n := ((2 * m' + 2 ^ (- e)) / 2 ^ (- e + 1))%Z in
        if (n =? 0)%Z then (if s then PrimFloat.opp PrimFloat.zero else PrimFloat.zero)
        else float_of_Z n
  | _ => f
  end.

(** [base ** e] for a natural exponent, by repeated multiplication: exact
    whenever the power is a binary64 value (10 ** e for e up to 22). *)
Fixpoint Number_pow (base : float) (e : nat) : float :=
  match e with
  | O => PrimFloat.one
  | S e' => PrimFloat.mul base (Number_pow base e')
  end.

(** *** Conversions of values *)

(** A number is [+0] or [-0]; a number is [NaN]. *)
Definition is_zero (f : float) : bool :=
  match Prim2SF f with S754_zero _ => true | _ => false end.

Definition is_NaN (f : float) : bool :=
  match Prim2SF f with S754_nan => true | _ => false end.

(** ToBoolean. *)
Definition truthy (v : option json) : bool :=
  match v with
  | None | Some JNull => false
  | Some (JBool b) => b
  | Some (JNum f) => negb (is_zero f || is_NaN f)
  | Some (JStr s) => negb (String.eqb s "")
  | Some (JArr _) | Some (JObj _) => true
  end.

Fixpoint join (sep : string) (l : list string) : string :=
  match l with
  | [] => ""
  | [s] => s
  | s :: l' => s ++ sep ++ join sep l'
  end.

Section Notation.
Context `{NumberNotation}.

(** ToString; an array is joined with commas, its [null] items empty. *)
Fixpoint ToString (v : json) : string :=
  match v with
  | JNull => "null"
  | JBool true => "true"
  | JBool false => "false"
  | JNum f => NumberToString f
  | JStr s => s
  | JArr items =>
      join "," (map (fun x => match x with JNull => "" | _ => ToString x end) items)
  | JObj _ => "[object Object]"
  end.

(** ToNumber, as the operand of [*] and as [Number(v)]. *)
Definition ToNumber (v : option json) : float :=
  match v with
  | None => PrimFloat.nan
  | Some JNull => PrimFloat.zero
  | Some (JBool true) => PrimFloat.one
  | Some (JBool false) => PrimFloat.zero
  | Some (JNum f) => f
  | Some (JStr s) => StringToNumber s
  | Some (JArr _ as o) | Some (JObj _ as o) => StringToNumber (ToString o)
  end.

Definition BigInt_of_string (s : string) : completion Z :=
  match StringToBigInt s with
  | Some z => Normal z
  | None => Throw SyntaxError
  end.

(** [BigInt(number)]. *)
Definition BigInt_of_number (f : float) : completion Z :=
  match integer_of_float f with
  | Some z => Normal z
  | None => Throw RangeError
  end.

(** [BigInt(v)]. *)
Definition BigInt (v : option json) : completion Z :=
  match v with
  | None | Some JNull => Throw TypeError
  | Some (JBool true) => Normal 1%Z
  | Some (JBool false) => Normal 0%Z
  | Some (JNum f) => BigInt_of_number f
  | Some (JStr s) => BigInt_of_string s
  | Some (JArr _ as o) | Some (JObj _ as o) => BigInt_of_string (ToString o)
  end.

End Notation.

(** *** Property reads *)

Fixpoint assoc (k : string) (fields : list (string * json)) : option json :=
  match fields with
  | [] => None
  | (k', v) :: rest => if String.eqb k' k then Some v else assoc k rest
  end.

(** [v[n]] for a number [n] that is a natural. *)
Definition get_index (v : json) (n : N) : option json :=
  match v with
  | JObj fields => assoc (pretty n) fields
  | JArr items => items !! N.to_nat n
  | JStr s => option_map (fun c => JStr (String c "")) (String.get (N.to_nat n) s)
  | _ => None
  end.

(** A canonical array index: the decimal notation of a natural. *)
Definition as_index (k : string) : option N :=
  if string_forall is_digit k && negb (String.eqb k "")
     && String.eqb (pretty (parseInt k)) k
  then Some (parseInt k) else None.

(** [v[k]] for a string [k] and a value [v] that is neither [undefined]
    nor [null], read from the properties [v] has of its own: the fields of
    an object, the items and the length of an array, the characters and
    the length of a string.  The scripts read the keys [balance], [data],
    [status], [message], [length], [funded_txo_sum], [spent_txo_sum],
    [Response], [Message] and [USD], under which no prototype defines
    anything, and the keys a [for ... in] yields, which are own.  The keys
    of a response path are the configuration's: for them the extractor is
    exact where its reads are (see [exact_reads] in the proofs). *)
Definition get_prop (v : json) (k : string) : option json :=
  match v with
  | JObj fields => assoc k fields
  | JArr items =>
      if String.eqb k "length" then Some (JNum (float_of_nat (List.length items)))
      else match as_index k with Some n => get_index v n | None => None end
  | JStr s =>
      if String.eqb k "length" then Some (JNum (float_of_nat (String.length s)))
      else match as_index k with Some n => get_index v n | None => None end
  | _ => None
  end.

(** [v[k]] where [v] may be anything: reading a property of [undefined] or
    [null] throws. *)
Definition member (v : option json) (k : string) : completion (option json) :=
  match v with
  | None | Some JNull => Throw TypeError
  | Some o => Normal (get_prop o k)
  end.

(** [v[n]] likewise. *)
Definition member_index (v : option json) (n : N) : completion (option json) :=
  match v with
  | None | Some JNull => Throw TypeError
  | Some o => Normal (get_index o n)
  end.

(** Sequencing of evaluations that may throw. *)
Definition and_then {A B} (c : completion A) (k : A -> completion B) : completion B :=
  match c with
  | Normal a => k a
  | Throw e => Throw e
  end.

(** *** parseInt with a radix *)

(** The value of a character as a digit of a radix up to 36: [0-9], then
    the letters of either case. *)
Definition radix_digit (c : ascii) : option Z :=
  let n := Z.of_nat (nat_of_ascii c) in
  if (48 <=? n)%Z && (n <=? 57)%Z then Some (n - 48)%Z
  else if (65 <=? n)%Z && (n <=? 90)%Z then Some (n - 55)%Z
  else if (97 <=? n)%Z && (n <=? 122)%Z then Some (n - 87)%Z
  else None.

(** The value of the longest prefix of [s] made of digits of the radix,
    from the value [acc] of the digits read so far ([None]: no digit yet). *)
Fixpoint leading_digits (radix : Z) (s : string) (acc : option Z) : option Z :=
  match s with
  | String c s' =>
      match radix_digit c with
      | Some d =>
          if (d <? radix)%Z then leading_digits radix s' (Some (default 0 acc * radix + d))%Z
          else acc
      | None => acc
      end
  | EmptyString => acc
  end.

(** [parseInt(s, radix)] for an integer radix; [None] is NaN.  Leading
    white space is skipped, a sign is read, [0x] is skipped when the radix
    is 16 or 0, and the digits of the radix are read up to the first
    character that is none.  The value is kept exact (the engine's number
    is the same below 2^53) and the sign of a zero is not kept. *)
Definition parseInt_radix (radix : Z) (s : string) : option Z :=
  let t := trim_start s in
  let '(sign, t) := match t with
                    | String "-" t' => ((-1)%Z, t')
                    | String "+" t' => (1%Z, t')
                    | _ => (1%Z, t)
                    end in
  if negb (radix =? 0)%Z && ((radix <? 2)%Z || (36 <? radix)%Z) then None
  else
    let '(R, t) :=
      let R := if (radix =? 0)%Z then 10%Z else radix in
      if (radix =? 0)%Z || (radix =? 16)%Z then
        match t with
        | String "0" (String c t') =>
            if Ascii.eqb c "x" || Ascii.eqb c "X" then (16%Z, t') else (R, t)
        | _ => (R, t)
        end
      else (R, t) in
    option_map (Z.mul sign) (leading_digits R t None).

(** *** Inherited properties *)

(** The names of the properties every object inherits from
    [Object.prototype].  The tables of the scripts are embedded as maps of
    their own properties; under one of these names a table that has no
    property of its own holds an inherited value: a function, or (under
    [__proto__]) the prototype itself. *)
Definition Object_prototype : list string :=
  ["constructor"; "hasOwnProperty"; "isPrototypeOf"; "propertyIsEnumerable";
   "toLocaleString"; "toString"; "valueOf"; "__proto__";
   "__defineGetter__"; "__defineSetter__"; "__lookupGetter__"; "__lookupSetter__"].

(** The [length] of the value inherited under a name: the number of
    parameters of the function ([Object] under [constructor]);
    [Object.prototype] has no [length]. *)
Definition inherited_length (key : string) : option nat :=
  if bool_decide (key ∈ ["toLocaleString"; "toString"; "valueOf"]) then Some 0%nat
  else if bool_decide (key ∈ ["constructor"; "hasOwnProperty"; "isPrototypeOf";
                                "propertyIsEnumerable"; "__lookupGetter__"; "__lookupSetter__"])
  then Some 1%nat
  else if bool_decide (key ∈ ["__defineGetter__"; "__defineSetter__"]) then Some 2%nat
  else None.

(** *** Letter case *)

(** [s.toLowerCase()], exact on strings of the ASCII range: a letter from
    [A] to [Z] becomes the letter from [a] to [z].  The bytes of a
    character outside the range are kept; the engine maps such a character
    to one outside the range again, but for the Kelvin sign, which becomes
    [k]. *)
Definition lower (c : ascii) : ascii :=
  let n := nat_of_ascii c in
  if (65 <=? n)%nat && (n <=? 90)%nat then ascii_of_nat (n + 32) else c.

Fixpoint toLowerCase (s : string) : string :=
  match s with
  | EmptyString => EmptyString
  | String c s' => String (lower c) (toLowerCase s')
  end.

End Js.

(** ** Provider descriptors

    The objects of the per-currency provider lists: [name], [baseURL],
    and the optional [apiKey], [responsePath], [method] and [isText]. *)

Record provider := {
  name : string;
  baseURL : string;
  apiKey : option string;
  responsePath : option string;
  method : option string;
  isText : bool
}.

(** ** src/lib/providerRotation.js *)

Module ProviderRotation.

(** The module-level [providers] map and the two maps of the instance. *)
Record state := {
  providers : gmap string (list provider);
  lastUsedIndex : gmap string nat;
  cooldowns : gmap string Z
}.

(** [new ProviderRotation()], nothing registered. *)
Definition initial : state :=
  {| providers := ∅; lastUsedIndex := ∅; cooldowns := ∅ |}.

Definition cooldownKey (currency providerName : string) : string :=
  currency ++ "-" ++ providerName.

(** [this.cooldowns.get(cooldownKey) || 0]. *)
Definition cooldownUntil (st : state) (currency : string) (p : provider) : Z :=
  default 0%Z (cooldowns st !! cooldownKey currency (name p)).

(** The [while (attempts < availableProviders.length)] loop, on the number
    of iterations it has left, [availableProviders.length - attempts].
    Reading [.name] of a missing element would throw. *)
Fixpoint scan (st : state) (currency : string) (availableProviders : list provider)
    (now : Z) (remaining currentIndex : nat)
  : Js.completion (option provider) * state :=
  match remaining with
  | O => (Js.Normal None, st)
  | S remaining' =>
      let currentIndex := (currentIndex + 1) `mod` List.length availableProviders in
      match availableProviders !! currentIndex with
      | None => (Js.Throw Js.TypeError, st)
      | Some p =>
          if (cooldownUntil st currency p <=? now)%Z then
            (Js.Normal (Some p),
             {| providers := providers st;
                lastUsedIndex := <[currency := currentIndex]> (lastUsedIndex st);
                cooldowns := cooldowns st |})
          else scan st currency availableProviders now remaining' currentIndex
      end
  end.

(** [getNextProvider(currency)] called when [Date.now()] is [now]. *)
Definition getNextProvider (st : state) (currency : string) (now : Z)
  : Js.completion (option provider) * state :=
  let availableProviders := default [] (providers st !! currency) in
  if (List.length availableProviders =? 0)%nat then (Js.Normal None, st)
  else
    let currentIndex := default 0%nat (lastUsedIndex st !! currency) in
    scan st currency availableProviders now (List.length availableProviders) currentIndex.

(** [setCooldown(currency, providerName, duration)] called at [now]. *)
Definition setCooldown (st : state) (currency providerName : string) (duration now : Z)
  : state :=
  {| providers := providers st;
     lastUsedIndex := lastUsedIndex st;
     cooldowns := <[cooldownKey currency providerName := (now + duration)%Z]> (cooldowns st) |}.

Definition registerProviders (st : state) (currency : string) (providersList : list provider)
  : state :=
  {| providers := <[currency := providersList]> (providers st);
     lastUsedIndex := lastUsedIndex st;
     cooldowns := cooldowns st |}.

(** A run of the registry's interface: each call with the time it is made at. *)
Inductive call :=
| GetNextProvider (currency : string) (now : Z)
| SetCooldown (currency providerName : string) (duration now : Z)
| RegisterProviders (currency : string) (providersList : list provider).

Definition step (st : state) (c : call) : state :=
  match c with
  | GetNextProvider currency now => snd (getNextProvider st currency now)
  | SetCooldown currency providerName duration now =>
      setCooldown st currency providerName duration now
  | RegisterProviders currency providersList => registerProviders st currency providersList
  end.

Definition run (st : state) (calls : list call) : state := fold_left step calls st.

(** Consecutive calls of [getNextProvider] for one currency, at the given
    times; the providers returned, in order. *)
Fixpoint getNextProviders (st : state) (currency : string) (times : list Z)
  : list (Js.completion (option provider)) * state :=
  match times with
  | [] => ([], st)
  | now :: times' =>
      let '(r, st') := getNextProvider st currency now in
      let '(rs, st'') := getNextProviders st' currency times' in
      (r :: rs, st'')
  end.

End ProviderRotation.

(** ** The main script *)

Module Bot.
Import Js.

(** *** Configuration *)

Record token_config := {
  token_address : string;
  token_decimals : nat
}.

(** An entry of [networks] (the [lib] of bitcoin, a constant of
    bitcoinjs-lib, is left out). *)
Record network_config := {
  path : string;
  decimals : nat;
  tokens : option (list (string * token_config))
}.

Definition networks : gmap string network_config :=
  list_to_map [
    ("bitcoin", {| path := "m/44'/0'/0'/0/0"; decimals := 8; tokens := None |});
    ("ethereum",
      {| path := "m/44'/60'/0'/0/0"; decimals := 18;
         tokens := Some [("usdt", {| token_address := "0xdac17f958d2ee523a2206206994597c13d831ec7";
                                     token_decimals := 6 |})] |});
    ("solana", {| path := "m/44'/501'/0'/0'"; decimals := 9; tokens := None |});
    ("ton", {| path := "m/44'/607'/0'/0'"; decimals := 9; tokens := None |});
    ("tron",
      {| path := "m/44'/195'/0'/0/0"; decimals := 6;
         tokens := Some [("usdt", {| token_address := "TXLAQ63Xg1NAzckPwKHvzw7CSEmLMEqcdj";
                                     token_decimals := 6 |})] |})
  ].

(** [apiProviders], given [process.env]. *)
Definition apiProviders (env : gmap string string) : gmap string (list provider) :=
  list_to_map [
    ("ethereum",
      [ {| name := "etherscan";
           baseURL := "https://api.etherscan.io/v2/api?chainid=1&module=account&action=balance&address={address}&tag=latest";
           apiKey := env !! "ETHERSCAN_API_KEY"; responsePath := Some "result";
           method := None; isText := false |} ]);
    ("bitcoin", []);
    ("tron",
      [ {| name := "trongrid"; baseURL := "https://api.trongrid.io/v1/accounts/{address}";
           apiKey := None; responsePath := Some "data[0].balance";
           method := None; isText := false |} ]);
    ("solana",
      [ {| name := "solana"; baseURL := "https://api.mainnet-beta.solana.com";
           apiKey := None; responsePath := Some "value";
           method := Some "getBalance"; isText := false |} ]);
    ("ton",
      [ {| name := "toncenter"; baseURL := "https://toncenter.com/api/v2/jsonRPC";
           apiKey := env !! "TONCENTER_API_KEY"; responsePath := None;
           method := None; isText := false |} ])
  ].

(** The two tables [getBalance] reads, and the Infura key of [process.env]. *)
Record configuration := {
  cfg_networks : gmap string network_config;
  cfg_apiProviders : gmap string (list provider);
  cfg_infura_key : option string
}.

Definition deployed (env : gmap string string) : configuration :=
  {| cfg_networks := networks;
     cfg_apiProviders := apiProviders env;
     cfg_infura_key := env !! "INFURA_API_KEY" |}.

(** *** The outside world

    Every outbound call of the script is answered by the world; the answer
    may depend on the call and on how many outbound calls came before it. *)

Record response := {
  status : Z;
  json_body : completion json;     (* [await response.json()] *)
  text_body : completion string    (* [await response.text()] *)
}.

(** [response.ok]. *)
Definition ok (r : response) : bool := (200 <=? status r)%Z && (status r <? 300)%Z.

Record world := {
  (* [fetch(url)] *)
  fetch_outcome : nat -> string -> completion response;
  (* [new Connection(endpoint).getBalance(new PublicKey(address))]: a number of lamports *)
  solana_outcome : nat -> string -> string -> completion float;
  (* [new TonClient({endpoint, apiKey}).getBalance(Address.parse(address))]: a bigint *)
  ton_outcome : nat -> string -> option string -> string -> completion Z;
  (* ethers: [contract.balanceOf(address)] through Infura, a uint256 decoded as a bigint *)
  erc20_outcome : nat -> option string -> string -> string -> completion Z;
  (* TronWeb: [(await contract.balanceOf(address).call()).toString()] *)
  trc20_outcome : nat -> string -> string -> completion string
}.

(** A native balance: a BigInt, or the number the Solana client returns. *)
Inductive amount :=
| BigIntAmount (z : Z)
| NumberAmount (f : float).

(** What [getBalance] returns: [native], and [tokens] when it is set. *)
Record BalanceResult := {
  native : amount;
  result_tokens : option (gmap string Z)
}.

Inductive usdt_kind := ERC20 | TRC20.

(** The lines written to the console. *)
Inductive log_entry :=
| AggregatorError (e : exn)
| NoProvidersConfigured (currency : string)
| AttemptFailed (providerName address : string) (retriesLeft : nat) (e : exn)
| WaitingBeforeRetry (delay : Z)
| AllRetriesFailed (providerName : string)
| TronNativeBalance (address : string) (balance : amount)
| TronCheckingToken (token : string)
| CheckingUsdt (kind : usdt_kind) (address : string)
| TrcUsdtResult (address : string) (data : json) (tokenBalance : Z)
| TrcUsdtFetchFailed (address : string) (status : Z)
| TrcUsdtError (address : string) (e : exn)
| TrcContractBalance (token address : string) (tokenBalance : Z)
| TrcContractError (address : string) (e : exn)
| RatesUpdating
| RatesUpdated
| RatesApiError (message : option json)
| RatesFetchError (e : exn)
| RatesFallback.

Inductive event :=
| Fetch (url : string)
| SolanaGetBalance (endpoint address : string)
| TonGetBalance (endpoint : string) (apiKey : option string) (address : string)
| Erc20BalanceOf (infuraKey : option string) (tokenAddress address : string)
| Trc20BalanceOf (tokenAddress address : string)
| Sleep (ms : Z)
| ConsoleError (l : log_entry)
| ConsoleWarn (l : log_entry)
| ConsoleLog (l : log_entry).

(** *** Computations

    A computation runs in a world, from the number of outbound calls made
    so far; it completes normally or throws, and leaves the new number of
    calls and the events it caused, in order. *)

Definition M (A : Type) : Type := world -> nat -> completion A * nat * list event.

Definition ret {A} (a : A) : M A := fun _ n => (Normal a, n, []).

Definition throw {A} (e : exn) : M A := fun _ n => (Throw e, n, []).

Definition lift {A} (c : completion A) : M A := fun _ n => (c, n, []).

Definition bind {A B} (m : M A) (k : A -> M B) : M B :=
  fun w n =>
    match m w n with
    | (Normal a, n', t) => let '(r, n'', t') := k a w n' in (r, n'', (t ++ t')%list)
    | (Throw e, n', t) => (Throw e, n', t)
    end.

(** [try { m } catch (error) { handler error }]. *)
Definition try_catch {A} (m : M A) (handler : exn -> M A) : M A :=
  fun w n =>
    match m w n with
    | (Throw e, n', t) => let '(r, n'', t') := handler e w n' in (r, n'', (t ++ t')%list)
    | r => r
    end.

Definition emit (e : event) : M unit := fun _ n => (Normal tt, n, [e]).

#[global] Instance M_ret : MRet M := @ret.
#[global] Instance M_bind : MBind M := fun A B k m => bind m k.

Definition fetch (url : string) : M response :=
  fun w n => (fetch_outcome w n url, S n, [Fetch url]).

Definition solana_getBalance (endpoint address : string) : M float :=
  fun w n => (solana_outcome w n endpoint address, S n, [SolanaGetBalance endpoint address]).

Definition ton_getBalance (endpoint : string) (key : option string) (address : string) : M Z :=
  fun w n => (ton_outcome w n endpoint key address, S n, [TonGetBalance endpoint key address]).

Definition erc20_balanceOf (key : option string) (tokenAddress address : string) : M Z :=
  fun w n => (erc20_outcome w n key tokenAddress address, S n,
              [Erc20BalanceOf key tokenAddress address]).

Definition trc20_balanceOf (tokenAddress address : string) : M string :=
  fun w n => (trc20_outcome w n tokenAddress address, S n, [Trc20BalanceOf tokenAddress address]).

Definition sleep (ms : Z) : M unit := emit (Sleep ms).
Definition console_error (l : log_entry) : M unit := emit (ConsoleError l).
Definition console_warn (l : log_entry) : M unit := emit (ConsoleWarn l).
Definition console_log (l : log_entry) : M unit := emit (ConsoleLog l).

(** *** The response extractor *)

(** [i.match(/(\w+)\[(\d+)\]/)] tried at the start of [s] only.  The
    greedy [\w+] takes the whole run of word characters (a shorter one
    would be followed by a word character, not by a bracket), and so does
    [\d+]. *)
Definition match_here (s : string) : option (string * string) :=
  let '(w, rest) := span is_word_char s in
  match w, rest with
  | String _ _, String "[" rest' =>
      let '(d, rest'') := span is_digit rest' in
      match d, rest'' with
      | String _ _, String "]" _ => Some (w, d)
      | _, _ => None
      end
  | _, _ => None
  end.

(** [i.match(/(\w+)\[(\d+)\]/)]: the leftmost match, as its two groups. *)
Fixpoint match_indexed (s : string) : option (string * string) :=
  match match_here s with
  | Some groups => Some groups
  | None =>
      match s with
      | String _ s' => match_indexed s'
      | EmptyString => None
      end
  end.

(** The callback of the [reduce] in [getNestedValue]:
    [o && o[key] ? o[key][parseInt(index)] : undefined] when the segment
    matches, [o && o[i]] when it does not. *)
Definition nested_step (o : option json) (i : string) : completion (option json) :=
  match match_indexed i with
  | Some (key, index) =>
      if truthy o then
        and_then (member o key) (fun array =>
          if truthy array then member_index array (parseInt index) else Normal None)
      else Normal None
  | None => if truthy o then member o i else Normal o
  end.

(** [segments.reduce(callback, obj)]. *)
Fixpoint reduce (segments : list string) (o : option json) : completion (option json) :=
  match segments with
  | [] => Normal o
  | i :: segments' => and_then (nested_step o i) (reduce segments')
  end.

Definition getNestedValue (obj : option json) (path : string) : completion (option json) :=
  reduce (split "." path) obj.

(** [o[k]] for an [o] known to be truthy. *)
Definition prop (o : option json) (k : string) : option json :=
  match o with
  | Some v => get_prop v k
  | None => None
  end.

(** *** getBalance *)

Section Pipeline.
Context `{NumberNotation}.
Variable cfg : configuration.

Definition zero_balance : BalanceResult :=
  {| native := BigIntAmount 0; result_tokens := None |}.

Definition AGGREGATOR : string := "https://aggregratorserver.onrender.com/balance/".

(** [BigInt(Math.round(ToNumber(balance) * scale))]. *)
Definition smallest_units (balance : option json) (scale : float) : completion Z :=
  BigInt_of_number (Math_round (PrimFloat.mul (ToNumber balance) scale)).

(** The [currency === 'bitcoin'] branch. *)
Definition getBalance_bitcoin (address : string) : M BalanceResult :=
  returned ← try_catch
    (response ← fetch (AGGREGATOR ++ address);
     if ok response then
       data ← lift (json_body response);
       balance ← lift (member (Some data) "balance");
       balanceInSatoshis ← lift (smallest_units balance 1e8%float);
       mret (Some {| native := BigIntAmount balanceInSatoshis; result_tokens := None |})
     else mret None)
    (fun error => console_error (AggregatorError error);; mret None);
  match returned with
  | Some result => mret result
  | None => mret zero_balance
  end.

(** ToString of a possibly undefined value, as a template literal does it. *)
Definition template (v : option json) : string :=
  match v with
  | None => "undefined"
  | Some j => ToString j
  end.

(** [v === 0]. *)
Definition is_zero_number (v : option json) : bool :=
  match v with
  | Some (JNum f) => is_zero f
  | _ => false
  end.

(** [v !== '1']. *)
Definition is_not_string_1 (v : option json) : bool :=
  match v with
  | Some (JStr s) => negb (String.eqb s "1")
  | _ => true
  end.

(** [getNestedValue(data, provider.responsePath)]: [path.split] of an
    undefined path throws. *)
Definition extract (data : json) (p : provider) : completion (option json) :=
  match responsePath p with
  | Some path => getNestedValue (Some data) path
  | None => Throw TypeError
  end.

(** The [url] of the generic REST handler: the address substituted, and
    the API key appended when there is one. *)
Definition request_url (address : string) (p : provider) : string :=
  let url := replace "{address}" address (baseURL p) in
  match apiKey p with
  | Some key => if String.eqb key "" then url else url ++ "&apikey=" ++ key
  | None => url
  end.

(** The generic REST handler: either the early
    [return { native: 0n, tokens: {} }], or the balance. *)
Definition rest_balance (currency address : string) (p : provider)
  : M (BalanceResult + Z) :=
  response ← fetch (request_url address p);
  if negb (ok response) then
    if (status response =? 429)%Z then
      throw (Error "API request failed with status 429 (Rate Limited)")
    else throw (Error ("API request failed with status " ++ pretty (status response)))
  else
    data ← (if isText p then s ← lift (text_body response); mret (JStr s)
            else lift (json_body response));
    empty_account ←
      (if String.eqb currency "tron" then
         d ← lift (member (Some data) "data");
         if truthy d then mret (is_zero_number (prop d "length")) else mret false
       else mret false);
    if empty_account : bool then
      mret (inl {| native := BigIntAmount 0; result_tokens := Some ∅ |})
    else
      (if String.eqb (name p) "etherscan" then
         st ← lift (member (Some data) "status");
         if is_not_string_1 st then
           message ← lift (member (Some data) "message");
           throw (Error ("Etherscan API error: " ++ template message))
         else mret tt
       else mret tt);;
      if String.eqb (name p) "mempool_space" || String.eqb (name p) "blockstream" then
        stats ← lift (extract data p);
        if truthy stats then
          funded ← lift (BigInt (prop stats "funded_txo_sum"));
          spent ← lift (BigInt (prop stats "spent_txo_sum"));
          mret (inr (funded - spent)%Z)
        else mret (inr 0%Z)
      else
        (* the [blockcypher] branch and the last one read the same *)
        rawBalance ← lift (extract data p);
        match rawBalance with
        | None | Some JNull => mret (inr 0%Z)
        | Some _ => balance ← lift (BigInt rawBalance); mret (inr balance)
        end.

(** The body of [for (const token in network.tokens)] up to the value of
    [tokenBalance]. *)
Definition tokenLookup (currency address token : string) (tc : token_config) : M Z :=
  let tokenAddress := token_address tc in
  if String.eqb currency "ethereum" then
    if String.eqb token "usdt" then
      console_log (CheckingUsdt ERC20 address);;
      response ← fetch (AGGREGATOR ++ "usdt/erc/" ++ address);
      if ok response then
        data ← lift (json_body response);
        balance ← lift (member (Some data) "balance");
        lift (smallest_units balance (Number_pow 10 (token_decimals tc)))
      else mret 0%Z
    else erc20_balanceOf (cfg_infura_key cfg) tokenAddress address
  else if String.eqb currency "tron" then
    console_log (TronCheckingToken token);;
    if String.eqb token "usdt" then
      console_log (CheckingUsdt TRC20 address);;
      try_catch
        (response ← fetch (AGGREGATOR ++ "usdt/trc/" ++ address);
         if ok response then
           data ← lift (json_body response);
           balance ← lift (member (Some data) "balance");
           tokenBalance ← lift (smallest_units balance (Number_pow 10 (token_decimals tc)));
           console_log (TrcUsdtResult address data tokenBalance);;
           mret tokenBalance
         else console_warn (TrcUsdtFetchFailed address (status response));; mret 0%Z)
        (fun err => console_error (TrcUsdtError address err);; mret 0%Z)
    else
      try_catch
        (balance ← trc20_balanceOf tokenAddress address;
         tokenBalance ← lift (BigInt_of_string balance);
         console_log (TrcContractBalance token address tokenBalance);;
         mret tokenBalance)
        (fun err => console_error (TrcContractError address err);; mret 0%Z)
  else mret 0%Z.

(** The [for (const token in network.tokens)] loop, on the tokens left. *)
Fixpoint tokenLoop (currency address : string) (toks : list (string * token_config))
    (tokenBalances : gmap string Z) : M (gmap string Z) :=
  match toks with
  | [] => mret tokenBalances
  | (token, tc) :: toks' =>
      tokenBalance ← tokenLookup currency address token tc;
      tokenLoop currency address toks'
        (if (0 <? tokenBalance)%Z then <[token := tokenBalance]> tokenBalances
         else tokenBalances)
  end.

(** For comparison with [tokenLoop]: the balances the sub-lookups of the
    tokens return, in order, all of them kept. *)
Fixpoint tokenLookups (currency address : string) (toks : list (string * token_config))
  : M (list (string * Z)) :=
  match toks with
  | [] => mret []
  | (token, tc) :: toks' =>
      tokenBalance ← tokenLookup currency address token tc;
      rest ← tokenLookups currency address toks';
      mret ((token, tokenBalance) :: rest)
  end.

(** [if (network.tokens) { ... }]: the value of [result.tokens]. *)
Definition collectTokens (currency address : string) (network : option network_config)
  : M (option (gmap string Z)) :=
  match network with
  | None => throw TypeError
  | Some net =>
      match tokens net with
      | None => mret None
      | Some toks =>
          tokenBalances ← tokenLoop currency address toks ∅;
          if (0 <? size tokenBalances)%nat then mret (Some tokenBalances) else mret None
      end
  end.

(** The first half of the [try] block: the early return of the generic
    handler, or the value of [balance]. *)
Definition nativeLookup (currency address : string) (p : provider)
  : M (BalanceResult + amount) :=
  if bool_decide (method p = Some "getBalance") then
    balance ← solana_getBalance (baseURL p) address; mret (inr (NumberAmount balance))
  else if String.eqb (name p) "toncenter" then
    balance ← ton_getBalance (baseURL p) (apiKey p) address; mret (inr (BigIntAmount balance))
  else
    r ← rest_balance currency address p;
    match r with
    | inl early => mret (inl early)
    | inr balance => mret (inr (BigIntAmount balance))
    end.

(** The body of the [try] block. *)
Definition attempt (currency address : string) (network : option network_config)
    (p : provider) : M BalanceResult :=
  looked_up ← nativeLookup currency address p;
  match looked_up with
  | inl early => mret early
  | inr balance =>
      (if String.eqb currency "tron" then console_log (TronNativeBalance address balance)
       else mret tt);;
      toks ← collectTokens currency address network;
      mret {| native := balance; result_tokens := toks |}
  end.

(** How an iteration of the [while (retries > 0)] loop ends. *)
Inductive iteration :=
| Returned (result : BalanceResult)
| Continue (delay : Z)
| Break.

(** The [while (retries > 0)] loop of one provider, on [retries]. *)
Fixpoint retryLoop (body : M BalanceResult) (providerName address : string)
    (retries : nat) (delay : Z) : M (option BalanceResult) :=
  match retries with
  | O => mret None
  | S retries' =>
      outcome ← try_catch
        (result ← body; mret (Returned result))
        (fun error =>
           console_error (AttemptFailed providerName address retries' error);;
           if (0 <? retries')%nat then
             console_log (WaitingBeforeRetry delay);;
             sleep delay;;
             mret (Continue (delay * 2)%Z)
           else
             console_log (AllRetriesFailed providerName);;
             mret Break);
      match outcome with
      | Returned result => mret (Some result)
      | Continue delay' => retryLoop body providerName address retries' delay'
      | Break => mret None
      end
  end.

(** The [for (const provider of providers)] loop. *)
Fixpoint providerLoop (currency address : string) (network : option network_config)
    (providers : list provider) : M (option BalanceResult) :=
  match providers with
  | [] => mret None
  | p :: providers' =>
      returned ← retryLoop (attempt currency address network p) (name p) address 3 4000;
      match returned with
      | Some result => mret (Some result)
      | None => providerLoop currency address network providers'
      end
  end.

(** What [getBalance] reads of the value a table inherits under a name
    of [Object_prototype]: its [tokens], which is undefined. *)
Definition inherited_entry : network_config :=
  {| path := ""; decimals := 0; tokens := None |}.

(** [networks[currency]]: the entry of the table, or what the table
    inherits under the name, or [undefined]. *)
Definition network_of (currency : string) : option network_config :=
  match cfg_networks cfg !! currency with
  | Some net => Some net
  | None => if bool_decide (currency ∈ Object_prototype) then Some inherited_entry else None
  end.

(** The body of [if (!providers || providers.length === 0)]. *)
Definition no_providers (currency : string) : M BalanceResult :=
  (if negb (String.eqb currency "ton") then
     console_error (NoProvidersConfigured currency)
   else mret tt);;
  mret zero_balance.

(** [apiProviders[currency]] is the list of the table, or [undefined],
    or the value the table inherits under the name.  An inherited value
    is truthy; when its [length] is not 0 it goes to [for ... of], which
    throws: it is not iterable, and no [try] is around the loop. *)
Definition getBalance (currency address : string) : M BalanceResult :=
  if String.eqb currency "bitcoin" then getBalance_bitcoin address
  else
    let providers := cfg_apiProviders cfg !! currency in
    let network := network_of currency in
    match providers with
    | Some [] => no_providers currency
    | Some providers =>
        returned ← providerLoop currency address network providers;
        match returned with
        | Some result => mret result
        | None => mret zero_balance
        end
    | None =>
        if bool_decide (currency ∈ Object_prototype) then
          if bool_decide (inherited_length currency = Some 0%nat) then no_providers currency
          else throw TypeError
        else no_providers currency
    end.

End Pipeline.

(** *** The exchange-rate cache *)

Definition mobulaSymbols : list (string * string) :=
  [("bitcoin", "BTC"); ("ethereum", "ETH"); ("solana", "SOL"); ("ton", "TON"); ("usdt", "USDT")].

Definition RATES_URL : string :=
  "https://min-api.cryptocompare.com/data/pricemulti?fsyms="
  ++ join "," (map snd mobulaSymbols) ++ "&tsyms=USD".

(** The five assignments of the hardcoded fallback rates. *)
Definition fallbackRates (cache : gmap string json) : gmap string json :=
  <["usdt" := JNum 1]> (<["ton" := JNum 6]> (<["solana" := JNum 150]>
    (<["ethereum" := JNum 3000]> (<["bitcoin" := JNum 60000]> cache)))).

(** [Object.keys(mobulaSymbols).find(key => mobulaSymbols[key] === symbol)]. *)
Definition currencyOfSymbol (symbol : string) : option string :=
  fst <$> List.find (fun kv => String.eqb (snd kv) symbol) mobulaSymbols.

(** The keys [for (const symbol in data)] visits.  (An object's
    integer-like keys come first in the engine; no such key is a tracked
    symbol, and the assignments of distinct symbols go to distinct
    entries, so the order is immaterial to the cache.) *)
Definition enumerableKeys (data : json) : list string :=
  match data with
  | JObj fields => map fst fields
  | JArr items => map (fun i : nat => pretty i) (seq 0 (List.length items))
  | JStr s => map (fun i : nat => pretty i) (seq 0 (String.length s))
  | _ => []
  end.

(** One iteration of the [for ... in] loop over a [data] that is not
    [null]. *)
Definition updateRate (data : json) (cache : gmap string json) (symbol : string)
  : gmap string json :=
  match currencyOfSymbol symbol with
  | Some currency =>
      let entry := get_prop data symbol in
      if truthy entry && truthy (prop entry "USD") then
        match prop entry "USD" with
        | Some usd => <[currency := usd]> cache
        | None => cache
        end
      else cache
  | None => cache
  end.

(** [v !== 'Error']. *)
Definition is_not_Error (v : option json) : bool :=
  match v with
  | Some (JStr s) => negb (String.eqb s "Error")
  | _ => true
  end.

(** [updateAllExchangeRates()], from the cache it finds to the cache it
    leaves. *)
Definition updateAllExchangeRates (cache : gmap string json) : M (gmap string json) :=
  console_log RatesUpdating;;
  try_catch
    (response ← fetch RATES_URL;
     data ← lift (json_body response);
     healthy ← (if ok response then
                  r ← lift (member (Some data) "Response"); mret (is_not_Error r)
                else mret false);
     if healthy : bool then
       let cache' := fold_left (updateRate data) (enumerableKeys data) cache in
       console_log RatesUpdated;;
       mret cache'
     else
       message ← lift (member (Some data) "Message");
       console_error (RatesApiError message);;
       console_log RatesFallback;;
       mret (fallbackRates cache))
    (fun error =>
       console_error (RatesFetchError error);;
       console_log RatesFallback;;
       mret (fallbackRates cache)).

(** [exchangeRateCache[currency] || 0]. *)
Definition getExchangeRate (cache : gmap string json) (currency : string) : json :=
  match cache !! currency with
  | Some rate => if truthy (Some rate) then rate else JNum 0
  | None => JNum 0
  end.

(** *** Address derivation

    The chain libraries are interfaces: each derivation is a function of
    the key material that returns an address or throws. *)

Class ChainLibraries (Seed Root : Type) := {
  (* [bitcoin.payments.p2pkh] on [root.derivePath(path)] *)
  p2pkh_address : Root -> string -> completion string;
  (* [Keypair.fromSeed(seed.slice(0, 32)).publicKey.toBase58()] *)
  solana_address : Seed -> completion string;
  (* [mnemonicToWalletKey] and [WalletContractV4.create(...).address.toString(...)] *)
  ton_address : string -> completion string;
  (* [tronWeb.address.fromPrivateKey] on [root.derivePath(path).privateKey] *)
  tron_address : Root -> string -> completion string;
  (* [ethers.Wallet.fromPhrase(mnemonic).address] *)
  ethers_wallet_address : string -> completion string
}.

Section Derivation.
Context {Seed Root : Type} `{ChainLibraries Seed Root}.

Record keyMaterial := {
  seed : Seed;
  root : Root;
  mnemonic : string
}.

(** [network.path]. *)
Definition network_path (network : option network_config) : completion string :=
  match network with
  | Some net => Normal (path net)
  | None => Throw TypeError
  end.

Definition deriveAddress (currency : string) (km : keyMaterial) : completion string :=
  let network := networks !! currency in
  if String.eqb currency "bitcoin" then
    match network_path network with
    | Normal p => p2pkh_address (root km) p
    | Throw e => Throw e
    end
  else if String.eqb currency "solana" then solana_address (seed km)
  else if String.eqb currency "ton" then ton_address (mnemonic km)
  else if String.eqb currency "tron" then
    match network_path network with
    | Normal p => tron_address (root km) p
    | Throw e => Throw e
    end
  else Throw (Error ("Unsupported currency for derivation: " ++ currency)).

(** [startBot]: the currencies of a scan cycle, and the address each is
    checked at. *)
Definition currenciesToCheck : list string :=
  ["bitcoin"; "ethereum"; "solana"; "ton"; "tron"].

Definition scanAddress (currency : string) (km : keyMaterial) : completion string :=
  if String.eqb currency "ethereum" then ethers_wallet_address (mnemonic km)
  else deriveAddress currency km.

End Derivation.

End Bot.

(** * Properties of the provider registry *)

Module RotationProofs.
Import Js ProviderRotation.

Implicit Types (st : state) (l : list provider) (p q : provider).

(** A provider is eligible at [now] when its cooldown has run out. *)
Definition eligible st (currency : string) (now : Z) p : Prop :=
  (cooldownUntil st currency p ≤ now)%Z.

Definition lastIndex st (currency : string) : nat :=
  default 0 (lastUsedIndex st !! currency).

Lemma scan_providers st currency l now n c :
  providers (scan st currency l now n c).2 = providers st.
Proof.
  revert c. induction n as [|n IH]; intros c; simpl; [done|].
  destruct (l !! _); [|done]. by case_match.
Qed.

Lemma scan_cooldowns st currency l now n c :
  cooldowns (scan st currency l now n c).2 = cooldowns st.
Proof.
  revert c. induction n as [|n IH]; intros c; simpl; [done|].
  destruct (l !! _); [|done]. by case_match.
Qed.

Lemma getNextProvider_providers st currency now :
  providers (getNextProvider st currency now).2 = providers st.
Proof. unfold getNextProvider. case_match; [done|]. apply scan_providers. Qed.

Lemma getNextProvider_cooldowns st currency now :
  cooldowns (getNextProvider st currency now).2 = cooldowns st.
Proof. unfold getNextProvider. case_match; [done|]. apply scan_cooldowns. Qed.

Lemma cooldownUntil_ext st st' currency p :
  cooldowns st' = cooldowns st → cooldownUntil st' currency p = cooldownUntil st currency p.
Proof. unfold cooldownUntil. by intros ->. Qed.

(** The first candidate is taken when it is eligible. *)
Lemma scan_first st currency l now n c p :
  0 < n →
  l !! ((c + 1) `mod` length l) = Some p →
  eligible st currency now p →
  scan st currency l now n c =
    (Normal (Some p),
     {| providers := providers st;
        lastUsedIndex := <[currency := (c + 1) `mod` length l]> (lastUsedIndex st);
        cooldowns := cooldowns st |}).
Proof.
  intros Hn Hp Hel. destruct n as [|n]; [lia|]. simpl. rewrite Hp.
  unfold eligible in Hel. apply Z.leb_le in Hel. by rewrite Hel.
Qed.

Lemma getNextProvider_first st currency l now p :
  providers st !! currency = Some l →
  l !! (S (lastIndex st currency) `mod` length l) = Some p →
  eligible st currency now p →
  getNextProvider st currency now =
    (Normal (Some p),
     {| providers := providers st;
        lastUsedIndex := <[currency := S (lastIndex st currency) `mod` length l]> (lastUsedIndex st);
        cooldowns := cooldowns st |}).
Proof.
  intros Hl Hp Hel. unfold getNextProvider. rewrite Hl. simpl default.
  fold (lastIndex st currency).
  assert (0 < length l) by (destruct l; [by rewrite lookup_nil in Hp | simpl; lia]).
  destruct (Nat.eqb_spec (length l) 0) as [?|_]; [lia|].
  rewrite <- Nat.add_1_r in Hp |- *. by apply scan_first.
Qed.

(** The [i]-th of consecutive calls, none of which finds a provider
    cooling down, returns the provider [i+1] places after the last one. *)
Lemma getNextProviders_lookup st currency l times i :
  providers st !! currency = Some l →
  0 < length l →
  (∀ now p, now ∈ times → p ∈ l → eligible st currency now p) →
  i < length times →
  ∃ p, l !! ((lastIndex st currency + 1 + i) `mod` length l) = Some p
       ∧ (getNextProviders st currency times).1 !! i = Some (Normal (Some p)).
Proof.
  intros Hl Hlen. revert st i Hl.
  induction times as [|now times IH]; intros st i Hl Hel Hi; simpl in Hi; [lia|].
  destruct (lookup_lt_is_Some_2 l (S (lastIndex st currency) `mod` length l)) as [p0 Hp0].
  { apply Nat.mod_upper_bound. lia. }
  assert (Hel0 : eligible st currency now p0).
  { apply Hel; [left | by eapply list_elem_of_lookup_2]. }
  simpl. rewrite (getNextProvider_first _ _ _ _ _ Hl Hp0 Hel0).
  set (st' := {| providers := _ |}).
  destruct (getNextProviders st' currency times) as [rs st''] eqn:Hrs. simpl.
  destruct i as [|i].
  - exists p0. split; [|done]. by rewrite Nat.add_0_r, Nat.add_1_r.
  - destruct (IH st' i) as (p & Hp & Hr).
    + done.
    + intros t q Ht Hq. unfold eligible. rewrite (cooldownUntil_ext st st') by done.
      apply Hel; [by right | done].
    + lia.
    + exists p. rewrite Hrs in Hr. split; [|done].
      rewrite <- Hp. f_equal.
      unfold lastIndex at 2. subst st'. simpl. rewrite lookup_insert_eq. simpl.
      fold (lastIndex st currency).
      replace (lastIndex st currency + 1 + S i) with (S (lastIndex st currency) + (1 + i)) by lia.
      rewrite <- (Nat.Div0.add_mod_idemp_l (S _)). f_equal. lia.
Qed.

Lemma getNextProviders_length st currency times :
  length (getNextProviders st currency times).1 = length times.
Proof.
  revert st. induction times as [|now times IH]; intros st; simpl; [done|].
  destruct (getNextProvider st currency now) as [r st'].
  specialize (IH st'). destruct (getNextProviders st' currency times). simpl in *. lia.
Qed.

Lemma rotate_nat_add_mod (base offset len : nat) :
  0 < len → rotate_nat_add base offset len = (base + offset) `mod` len.
Proof.
  intros ?. unfold rotate_nat_add.
  rewrite <- Nat2Z.inj_add, <- Nat2Z.inj_mod. apply Nat2Z.id.
Qed.

(** C6. With [N] providers registered for a currency and none of them
    cooling down, [N] consecutive calls of [getNextProvider] return the
    list of providers rotated to start just after the last one returned:
    every provider once, in round-robin order. *)
Theorem rotation_fairness st (currency : string) l (times : list Z) :
  providers st !! currency = Some l →
  length times = length l →
  (∀ now p, now ∈ times → p ∈ l → eligible st currency now p) →
  (getNextProviders st currency times).1
    = (λ p, Normal (Some p)) <$> rotate (S (lastIndex st currency)) l
  ∧ rotate (S (lastIndex st currency)) l ≡ₚ l.
Proof.
  intros Hl Hlen Hel. split.
  - apply list_eq. intros i.
    destruct (decide (i < length l)) as [Hi|Hi].
    + destruct (getNextProviders_lookup st currency l times i) as (p & Hp & ->);
        [done | lia | done | lia |].
      rewrite list_lookup_fmap, lookup_rotate_r by done.
      rewrite rotate_nat_add_mod by lia.
      replace (S (lastIndex st currency) + i) with (lastIndex st currency + 1 + i) by lia.
      by rewrite Hp.
    + rewrite !lookup_ge_None_2; [done | |].
      * rewrite length_fmap, length_rotate. lia.
      * rewrite getNextProviders_length. lia.
  - unfold rotate. rewrite Permutation_app_comm. by rewrite take_drop.
Qed.

(** *** Cooldowns *)

(** What [scan] returns is registered and eligible. *)
Lemma scan_sound st currency l now n c q st' :
  scan st currency l now n c = (Normal (Some q), st') →
  q ∈ l ∧ eligible st currency now q.
Proof.
  revert c. induction n as [|n IH]; intros c; simpl; [done|].
  destruct (l !! _) as [p|] eqn:Hp; [|done].
  destruct (Z.leb_spec (cooldownUntil st currency p) now) as [Hle|Hgt].
  - intros [= <- _]. split; [by eapply list_elem_of_lookup_2 | done].
  - apply IH.
Qed.

(** Every index read is within the list: nothing is thrown. *)
Lemma scan_normal st currency l now n c :
  0 < length l → is_normal (scan st currency l now n c).1 = true.
Proof.
  intros Hlen. revert c. induction n as [|n IH]; intros c; simpl; [done|].
  destruct (lookup_lt_is_Some_2 l ((c + 1) `mod` length l)) as [p ->].
  { apply Nat.mod_upper_bound. lia. }
  case_match; [done | apply IH].
Qed.

(** When [scan] finds nobody, each of the places it went through holds a
    provider that is cooling down. *)
Lemma scan_none st currency l now n c st' :
  scan st currency l now n c = (Normal None, st') →
  ∀ k : nat, (1 ≤ k ≤ n)%nat →
    ∃ p, l !! ((c + k) `mod` length l) = Some p ∧ ¬ eligible st currency now p.
Proof.
  revert c. induction n as [|n IH]; intros c Hscan k Hk; [lia|].
  simpl in Hscan.
  destruct (l !! _) as [p|] eqn:Hp; [|done].
  destruct (Z.leb_spec (cooldownUntil st currency p) now) as [Hle|Hgt]; [done|].
  destruct (decide (k = 1)) as [->|Hk1].
  - exists p. split; [done | unfold eligible; lia].
  - destruct (IH _ Hscan (k - 1)) as (p' & Hp' & Hne); [lia|].
    exists p'. split; [|done]. rewrite <- Hp'.
    rewrite Nat.Div0.add_mod_idemp_l.
    by replace (c + 1 + (k - 1)) with (c + k) by lia.
Qed.

Lemma getNextProvider_sound st currency now q :
  (getNextProvider st currency now).1 = Normal (Some q) →
  q ∈ default [] (providers st !! currency) ∧ eligible st currency now q.
Proof.
  unfold getNextProvider. case_match; [done|].
  destruct (scan _ _ _ _ _ _) as [r st'] eqn:Hscan. simpl. intros ->.
  by eapply scan_sound.
Qed.

Lemma getNextProvider_normal st currency now :
  is_normal (getNextProvider st currency now).1 = true.
Proof.
  unfold getNextProvider. destruct (Nat.eqb_spec (length (default [] (providers st !! currency))) 0);
    [done|]. apply scan_normal. lia.
Qed.

(** A registered provider that is eligible keeps [getNextProvider] from
    answering [null]. *)
Lemma getNextProvider_complete st currency now q :
  q ∈ default [] (providers st !! currency) →
  eligible st currency now q →
  ∃ q', (getNextProvider st currency now).1 = Normal (Some q').
Proof.
  intros Hq Hel. pose proof (getNextProvider_normal st currency now) as Hn.
  unfold getNextProvider in *. set (l := default [] (providers st !! currency)) in *.
  assert (Hlen : 0 < length l) by (destruct l; [by apply elem_of_nil in Hq | simpl; lia]).
  destruct (Nat.eqb_spec (length l) 0) as [?|_]; [lia|].
  set (c := default 0 (lastUsedIndex st !! currency)) in *.
  destruct (scan st currency l now (length l) c) as [[[q'|]|e] st'] eqn:Hscan;
    [by eexists | | done].
  exfalso. apply list_elem_of_lookup_1 in Hq as [j Hj].
  pose proof (lookup_lt_Some _ _ _ Hj) as Hjl.
  (* the place [j] is the [k]-th the loop went through *)
  set (k := (j + length l - (c + 1) `mod` length l) `mod` length l + 1).
  destruct (scan_none _ _ _ _ _ _ _ Hscan k) as (p & Hp & Hne).
  { subst k. pose proof (Nat.mod_upper_bound (j + length l - (c + 1) `mod` length l) (length l)).
    lia. }
  assert ((c + k) `mod` length l = j) as Hck.
  { subst k. pose proof (Nat.mod_upper_bound (c + 1) (length l)) as Hc1.
    replace (c + ((j + length l - (c + 1) `mod` length l) `mod` length l + 1))
      with ((c + 1) + (j + length l - (c + 1) `mod` length l) `mod` length l) by lia.
    rewrite Nat.Div0.add_mod_idemp_r, <- Nat.Div0.add_mod_idemp_l.
    replace ((c + 1) `mod` length l + (j + length l - (c + 1) `mod` length l))
      with (j + 1 * length l) by lia.
    rewrite Nat.Div0.mod_add. apply Nat.mod_small. lia. }
  rewrite Hck, Hj in Hp. by injection Hp as <-.
Qed.

(** A call that leaves the cooldown of a provider alone: anything but a
    [setCooldown] that writes its entry. *)
Definition keeps_cooldown (currency providerName : string) (c : call) : Prop :=
  match c with
  | SetCooldown currency' providerName' _ _ =>
      cooldownKey currency' providerName' ≠ cooldownKey currency providerName
  | _ => True
  end.

Lemma step_keeps_cooldown st c currency providerName :
  keeps_cooldown currency providerName c →
  cooldowns (step st c) !! cooldownKey currency providerName
    = cooldowns st !! cooldownKey currency providerName.
Proof.
  destruct c as [currency' now | currency' providerName' duration now | currency' l'];
    simpl; intros Hkeep.
  - by rewrite getNextProvider_cooldowns.
  - by rewrite lookup_insert_ne.
  - done.
Qed.

Lemma run_keeps_cooldown st calls currency providerName :
  Forall (keeps_cooldown currency providerName) calls →
  cooldowns (run st calls) !! cooldownKey currency providerName
    = cooldowns st !! cooldownKey currency providerName.
Proof.
  intros Hall. revert st. induction Hall as [|c calls Hc _ IH]; intros st; [done|].
  unfold run in *. simpl. rewrite IH. by apply step_keeps_cooldown.
Qed.

(** C7. After [setCooldown(currency, p, duration)] at time [t], and
    whatever calls follow that do not write the entry again, a call of
    [getNextProvider(currency)] at a time before [t + duration] does not
    return a provider named [p]; and when a registered provider is
    eligible then, it returns one (not named [p], eligible). *)
Theorem cooldown_respected st (currency providerName : string) (duration t : Z)
    (calls : list call) (now : Z) :
  Forall (keeps_cooldown currency providerName) calls →
  (now < t + duration)%Z →
  let st' := run (setCooldown st currency providerName duration t) calls in
  let returned := (getNextProvider st' currency now).1 in
  (∀ q, returned = Normal (Some q) → name q ≠ providerName)
  ∧ ((∃ q, q ∈ default [] (providers st' !! currency) ∧ eligible st' currency now q) →
     ∃ q, returned = Normal (Some q) ∧ name q ≠ providerName
          ∧ q ∈ default [] (providers st' !! currency) ∧ eligible st' currency now q).
Proof.
  intros Hkeep Hnow st' returned.
  assert (Hnot : ∀ q, returned = Normal (Some q) → name q ≠ providerName).
  { intros q Hq Hname. apply getNextProvider_sound in Hq as [_ Hel].
    unfold eligible, cooldownUntil in Hel. rewrite Hname in Hel.
    subst st'. rewrite run_keeps_cooldown in Hel by done.
    simpl in Hel. rewrite lookup_insert_eq in Hel. simpl in Hel. lia. }
  split; [done|].
  intros (q & Hq & Hel).
  destruct (getNextProvider_complete _ _ _ _ Hq Hel) as [q' Hq'].
  exists q'. split; [done|]. split; [by apply Hnot|].
  by apply getNextProvider_sound.
Qed.

(** *** The scan in full *)

(** A scan that finds nobody leaves the registry as it was. *)
Lemma scan_none_state st currency l now n c st' :
  scan st currency l now n c = (Normal None, st') → st' = st.
Proof.
  revert c. induction n as [|n IH]; intros c; simpl; [by intros [= <-]|].
  destruct (l !! _) as [p|]; [|done].
  destruct (cooldownUntil st currency p <=? now)%Z; [done | apply IH].
Qed.

(** A scan that finds a provider went over [k] places: the first [k-1]
    hold providers that are cooling down, the [k]-th holds the provider
    returned, and its index is the one recorded. *)
Lemma scan_some st currency l now n c q st' :
  scan st currency l now n c = (Normal (Some q), st') →
  ∃ k : nat, (1 ≤ k ≤ n)%nat
    ∧ l !! ((c + k) `mod` length l) = Some q
    ∧ eligible st currency now q
    ∧ (∀ j : nat, (1 ≤ j < k)%nat →
         ∃ p, l !! ((c + j) `mod` length l) = Some p ∧ ¬ eligible st currency now p)
    ∧ st' = {| providers := providers st;
               lastUsedIndex := <[currency := (c + k) `mod` length l]> (lastUsedIndex st);
               cooldowns := cooldowns st |}.
Proof.
  revert c. induction n as [|n IH]; intros c; simpl; [done|].
  destruct (l !! _) as [p|] eqn:Hp; [|done].
  destruct (Z.leb_spec (cooldownUntil st currency p) now) as [Hle|Hgt].
  - intros [= <- <-]. exists 1. repeat split; [lia | lia | done | done | intros j ?; lia].
  - intros Hscan. destruct (IH _ Hscan) as (k & Hk & Hq & Hel & Hskip & Hst).
    rewrite Nat.Div0.add_mod_idemp_l in Hq, Hst.
    exists (S k). replace (c + S k) with (c + 1 + k) by lia.
    repeat split; [lia | lia | done | done | | done].
    intros j Hj. destruct (decide (j = 1)) as [->|Hj1].
    + exists p. split; [done | unfold eligible; lia].
    + destruct (Hskip (j - 1)) as (p' & Hp' & Hne); [lia|].
      exists p'. split; [|done]. rewrite <- Hp'.
      rewrite Nat.Div0.add_mod_idemp_l. f_equal. f_equal. lia.
Qed.

Lemma scan_result_ext st1 st2 currency l now n c :
  cooldowns st1 = cooldowns st2 →
  (scan st1 currency l now n c).1 = (scan st2 currency l now n c).1.
Proof.
  intros Hcool. revert c. induction n as [|n IH]; intros c; simpl; [done|].
  destruct (l !! _) as [p|]; [|done].
  rewrite (cooldownUntil_ext st2 st1) by done.
  destruct (cooldownUntil st2 currency p <=? now)%Z; [done | apply IH].
Qed.

Lemma scan_lastUsedIndex_other st currency currency' l now n c :
  currency' ≠ currency →
  lastUsedIndex (scan st currency' l now n c).2 !! currency = lastUsedIndex st !! currency.
Proof.
  intros Hne. revert c. induction n as [|n IH]; intros c; simpl; [done|].
  destruct (l !! _) as [p|]; [|done].
  destruct (cooldownUntil st currency' p <=? now)%Z; [|apply IH].
  simpl. by rewrite lookup_insert_ne.
Qed.

(** [getNextProvider] never throws: the index it reads is taken modulo the
    length of the list.  It answers [null] exactly when no provider
    registered for the currency is eligible (none is registered, or all
    are cooling down), and the registry is then left as it was. *)
Theorem getNextProvider_null st (currency : string) (now : Z) :
  is_normal (getNextProvider st currency now).1 = true
  ∧ ((getNextProvider st currency now).1 = Normal None
     ↔ ∀ q, q ∈ default [] (providers st !! currency) → ¬ eligible st currency now q)
  ∧ ((getNextProvider st currency now).1 = Normal None →
     (getNextProvider st currency now).2 = st).
Proof.
  split; [apply getNextProvider_normal|]. split; [split|].
  - intros Hnone q Hq Hel.
    destruct (getNextProvider_complete _ _ _ _ Hq Hel) as [q' Hq']. congruence.
  - intros Hall. pose proof (getNextProvider_normal st currency now) as Hn.
    destruct (getNextProvider st currency now).1 as [[q|]|e] eqn:Hr; [|done..].
    apply getNextProvider_sound in Hr as [Hq Hel]. by destruct (Hall q Hq).
  - unfold getNextProvider. case_match; [done|].
    destruct (scan _ _ _ _ _ _) as [r st'] eqn:Hscan. simpl. intros ->.
    by eapply scan_none_state.
Qed.

(** When [getNextProvider] returns a provider, it is the first one after
    the last used index (cyclically) whose cooldown has run out: the
    places before it hold providers that are cooling down.  Its index is
    recorded for the currency, and nothing else changes in the registry. *)
Theorem getNextProvider_first_eligible st (currency : string) (now : Z) q st' :
  getNextProvider st currency now = (Normal (Some q), st') →
  let l := default [] (providers st !! currency) in
  let c := lastIndex st currency in
  ∃ k : nat, (1 ≤ k ≤ length l)%nat
    ∧ l !! ((c + k) `mod` length l) = Some q
    ∧ eligible st currency now q
    ∧ (∀ j : nat, (1 ≤ j < k)%nat →
         ∃ p, l !! ((c + j) `mod` length l) = Some p ∧ ¬ eligible st currency now p)
    ∧ lastUsedIndex st' !! currency = Some ((c + k) `mod` length l)
    ∧ (∀ currency', currency' ≠ currency →
         lastUsedIndex st' !! currency' = lastUsedIndex st !! currency')
    ∧ providers st' = providers st
    ∧ cooldowns st' = cooldowns st.
Proof.
  intros Hrun l c. unfold getNextProvider in Hrun.
  fold l in Hrun. fold (lastIndex st currency) in Hrun. fold c in Hrun.
  destruct (Nat.eqb (length l) 0); [done|].
  destruct (scan_some _ _ _ _ _ _ _ _ Hrun) as (k & Hk & Hq & Hel & Hskip & ->).
  exists k. simpl. rewrite lookup_insert_eq.
  split_and!; try done; try lia.
  intros currency' Hne. by rewrite lookup_insert_ne.
Qed.

(** With a single provider registered, [setCooldown] makes
    [getNextProvider] answer [null] until the deadline, and the provider
    again from the deadline on (the deadline included). *)
Theorem cooldown_expires st (currency : string) p (duration t now : Z) :
  providers st !! currency = Some [p] →
  (getNextProvider (setCooldown st currency (name p) duration t) currency now).1
    = Normal (if (t + duration <=? now)%Z then Some p else None).
Proof.
  intros Hp. unfold getNextProvider. cbn [setCooldown providers lastUsedIndex].
  rewrite Hp. cbn [from_option id length Nat.eqb scan].
  rewrite Nat.mod_1_r. cbn [lookup list_lookup].
  assert (cooldownUntil (setCooldown st currency (name p) duration t) currency p
          = (t + duration)%Z) as ->.
  { unfold cooldownUntil, setCooldown. cbn [cooldowns]. by rewrite lookup_insert_eq. }
  by destruct (t + duration <=? now)%Z.
Qed.

(** Cooldowns are filed under [currency-name]: two pairs of a currency and
    a provider name with the same concatenation share their cooldown, so a
    cooldown set for one keeps the other from being returned. *)
Theorem cooldown_keys_collide st (currency providerName currency' : string) q
    (duration t now : Z) :
  cooldownKey currency providerName = cooldownKey currency' (name q) →
  (now < t + duration)%Z →
  let st' := setCooldown st currency providerName duration t in
  cooldownUntil st' currency' q = (t + duration)%Z
  ∧ ∀ r, (getNextProvider st' currency' now).1 = Normal (Some r) → name r ≠ name q.
Proof.
  intros Hkey Hnow st'.
  assert (Hq : ∀ r, name r = name q → cooldownUntil st' currency' r = (t + duration)%Z).
  { intros r Hr. unfold cooldownUntil. subst st'. cbn [setCooldown cooldowns].
    by rewrite Hr, <- Hkey, lookup_insert_eq. }
  split; [by apply Hq|].
  intros r Hr Hname. apply getNextProvider_sound in Hr as [_ Hel].
  unfold eligible in Hel. rewrite (Hq r Hname) in Hel. lia.
Qed.

(** [registerProviders] replaces the list of a currency and keeps its
    rotation index: the next provider returned is the one after the old
    index, taken modulo the length of the new list, not the head of the
    new list. *)
Theorem registerProviders_keeps_rotation st (currency : string) l (now : Z) :
  (0 < length l)%nat →
  (∀ p, p ∈ l → eligible st currency now p) →
  ∃ p, l !! (S (lastIndex st currency) `mod` length l) = Some p
    ∧ getNextProvider (registerProviders st currency l) currency now
      = (Normal (Some p),
         {| providers := <[currency := l]> (providers st);
            lastUsedIndex :=
              <[currency := S (lastIndex st currency) `mod` length l]> (lastUsedIndex st);
            cooldowns := cooldowns st |}).
Proof.
  intros Hlen Hel.
  destruct (lookup_lt_is_Some_2 l (S (lastIndex st currency) `mod` length l)) as [p Hp].
  { apply Nat.mod_upper_bound. lia. }
  exists p. split; [done|].
  apply (getNextProvider_first (registerProviders st currency l) currency l now p).
  - cbn [registerProviders providers]. apply lookup_insert_eq.
  - done.
  - apply Hel. by eapply list_elem_of_lookup_2.
Qed.

(** The rotation of a currency is its own: a call of [getNextProvider]
    for another currency changes neither its index nor what the next call
    for it returns. *)
Theorem rotation_per_currency st (currency currency' : string) (now now' : Z) :
  currency' ≠ currency →
  let st' := (getNextProvider st currency' now').2 in
  lastUsedIndex st' !! currency = lastUsedIndex st !! currency
  ∧ (getNextProvider st' currency now).1 = (getNextProvider st currency now).1.
Proof.
  intros Hne st'.
  assert (Hidx : lastUsedIndex st' !! currency = lastUsedIndex st !! currency).
  { subst st'. unfold getNextProvider. case_match; [done|].
    by apply scan_lastUsedIndex_other. }
  split; [done|].
  unfold getNextProvider at 1 2. rewrite Hidx.
  subst st'. rewrite getNextProvider_providers.
  case_match; [done|]. apply scan_result_ext. apply getNextProvider_cooldowns.
Qed.

End RotationProofs.

(** * Properties of the built-ins *)

Module JsProofs.
Import Js.

Lemma string_app_cons (x : ascii) (a b : string) : String x a ++ b = String x (a ++ b).
Proof. reflexivity. Qed.

Lemma string_app_nil (b : string) : "" ++ b = b.
Proof. reflexivity. Qed.

Lemma string_app_assoc (a b c : string) : (a ++ b) ++ c = a ++ (b ++ c).
Proof.
  induction a as [|x a IH]; [done|]. by rewrite !string_app_cons, IH.
Qed.

Lemma string_forall_app (p : ascii → bool) (a b : string) :
  string_forall p (a ++ b) = string_forall p a && string_forall p b.
Proof.
  induction a as [|x a IH]; [done|].
  rewrite string_app_cons. simpl. by rewrite IH, andb_assoc.
Qed.

Lemma span_stop (p : ascii → bool) (a : string) (c : ascii) (rest : string) :
  string_forall p a = true → p c = false →
  span p (a ++ String c rest) = (a, String c rest).
Proof.
  intros Ha Hc. induction a as [|x a IH].
  - rewrite string_app_nil. simpl. by rewrite Hc.
  - rewrite string_app_cons. simpl in *.
    apply andb_true_iff in Ha as [-> Ha]. by rewrite (IH Ha).
Qed.


Lemma digits_value_app (radix : Z) (a b : string) (acc : Z) :
  digits_value radix (a ++ b) acc =
    match digits_value radix a acc with
    | Some v => digits_value radix b v
    | None => None
    end.
Proof.
  revert acc. induction a as [|x a IH]; intros acc; [done|].
  rewrite string_app_cons. simpl.
  destruct (hex_value x) as [d|]; [|done]. by destruct (d <? radix)%Z.
Qed.

(** *** The decimal notation of a natural *)

Lemma pretty_N_go_app (x : N) (s : string) : pretty_N_go x s = pretty_N_go x "" ++ s.
Proof.
  revert s. induction (N.lt_wf_0 x) as [x _ IH]; intros s.
  destruct (decide (x = 0)%N) as [->|Hx]; [done|].
  assert (Hlt : (x `div` 10 < x)%N) by (apply N.div_lt; lia).
  rewrite !(pretty_N_go_step x) by lia.
  rewrite (IH _ Hlt (String _ s)), (IH _ Hlt (String _ "")).
  by rewrite string_app_assoc.
Qed.

Lemma pretty_N_char_digit (d : N) :
  (d < 10)%N →
  is_digit (pretty_N_char d) = true ∧ hex_value (pretty_N_char d) = Some (Z.of_N d).
Proof.
  intros Hd.
  assert (d = 0 ∨ d = 1 ∨ d = 2 ∨ d = 3 ∨ d = 4 ∨ d = 5 ∨ d = 6 ∨ d = 7 ∨ d = 8 ∨ d = 9)%N
    as Hcases by lia.
  repeat (destruct Hcases as [->|Hcases]; [by vm_compute|]). subst. by vm_compute.
Qed.

Lemma pretty_N_go_digits (x : N) :
  string_forall is_digit (pretty_N_go x "") = true
  ∧ digits_value 10 (pretty_N_go x "") 0 = Some (Z.of_N x)
  ∧ ((0 < x)%N → pretty_N_go x "" ≠ "").
Proof.
  induction (N.lt_wf_0 x) as [x _ IH].
  destruct (decide (x = 0)%N) as [->|Hx]; [by repeat split; [..|lia]|].
  rewrite pretty_N_go_step, pretty_N_go_app by lia.
  destruct (IH (x `div` 10)%N) as (Hall & Hval & _); [apply N.div_lt; lia|].
  destruct (pretty_N_char_digit (x `mod` 10)) as [Hd Hv]; [by apply N.mod_lt|].
  split; [|split].
  - rewrite string_forall_app, Hall. simpl. by rewrite Hd.
  - rewrite digits_value_app, Hval. simpl. rewrite Hv.
    destruct (Z.ltb_spec (Z.of_N (x `mod` 10)) 10) as [_|Hge].
    + f_equal. rewrite (N.div_mod x 10) at 3 by done. lia.
    + pose proof (N.mod_lt x 10). lia.
  - intros _. by destruct (pretty_N_go (x `div` 10) "").
Qed.

(** The notation of a natural is a non-empty string of digits, and reads
    back as the natural. *)
Lemma pretty_N_digits (x : N) :
  string_forall is_digit (pretty x) = true
  ∧ digits_value 10 (pretty x) 0 = Some (Z.of_N x)
  ∧ pretty x ≠ "".
Proof.
  unfold pretty, pretty_N. destruct (decide (x = 0)%N) as [->|Hx]; [done|].
  destruct (pretty_N_go_digits x) as (? & ? & Hne). repeat split; [done..|].
  apply Hne. lia.
Qed.


(** *** Integer literals of digits only *)

Lemma string_app_nil_r (s : string) : s ++ "" = s.
Proof. induction s as [|c s IH]; [done|]. by rewrite string_app_cons, IH. Qed.

Lemma string_rev_onto_twice (s a b : string) :
  string_rev_onto (string_rev_onto s a) b = string_rev_onto a (s ++ b).
Proof.
  revert a b. induction s as [|c s IH]; intros a b; [done|].
  simpl. by rewrite IH.
Qed.

Lemma string_rev_involutive (s : string) : string_rev (string_rev s) = s.
Proof. unfold string_rev. rewrite string_rev_onto_twice. simpl. apply string_app_nil_r. Qed.

Lemma string_forall_rev_onto (p : ascii → bool) (s acc : string) :
  string_forall p (string_rev_onto s acc) = string_forall p s && string_forall p acc.
Proof.
  revert acc. induction s as [|c s IH]; intros acc; [done|].
  simpl. rewrite IH. simpl. by destruct (p c), (string_forall p s).
Qed.

Lemma trim_start_digits (s : string) : string_forall is_digit s = true → trim_start s = s.
Proof.
  destruct s as [|c s]; [done|]. simpl. intros [Hc _]%andb_true_iff.
  assert (is_space c = false) as ->; [|done].
  unfold is_digit, is_space in *. apply andb_true_iff in Hc as [H1 H2].
  apply Nat.leb_le in H1, H2.
  destruct (Nat.leb_spec (nat_of_ascii c) 13), (Nat.eqb_spec (nat_of_ascii c) 32);
    rewrite ?andb_false_r; simpl; lia.
Qed.

Lemma trim_digits (s : string) : string_forall is_digit s = true → trim s = s.
Proof.
  intros Hs. unfold trim. rewrite (trim_start_digits s Hs).
  rewrite trim_start_digits; [apply string_rev_involutive|].
  unfold string_rev. by rewrite string_forall_rev_onto, Hs.
Qed.

Lemma is_digit_cases (c : ascii) :
  is_digit c = true →
  c ∈ ["0"; "1"; "2"; "3"; "4"; "5"; "6"; "7"; "8"; "9"]%char.
Proof.
  intros Hc. apply list_elem_of_In.
  destruct c as [[] [] [] [] [] [] [] []]; try discriminate Hc; simpl; tauto.
Qed.

(** A non-empty string of digits is a decimal literal. *)
Lemma StringToBigInt_digits (s : string) :
  string_forall is_digit s = true → s ≠ "" →
  StringToBigInt s = digits_value 10 s 0.
Proof.
  intros Hs Hne. unfold StringToBigInt. rewrite (trim_digits s Hs).
  destruct s as [|c s]; [done|]. simpl in Hs.
  apply andb_true_iff in Hs as [Hc Hs].
  apply is_digit_cases, list_elem_of_In in Hc. simpl in Hc.
  destruct s as [|c' s].
  - repeat (destruct Hc as [<-|Hc]; [done|]). done.
  - simpl in Hs. apply andb_true_iff in Hs as [Hc' _].
    apply is_digit_cases, list_elem_of_In in Hc'. simpl in Hc'.
    destruct Hc as [<-|Hc].
    + repeat (destruct Hc' as [<-|Hc']; [done|]). done.
    + repeat (destruct Hc as [<-|Hc]; [done|]). done.
Qed.

(** A balance written in decimal notation converts to the very integer
    it denotes, however large. *)
Lemma BigInt_pretty `{NumberNotation} (x : N) :
  BigInt (Some (JStr (pretty x))) = Normal (Z.of_N x).
Proof.
  destruct (pretty_N_digits x) as (Hd & Hv & Hne).
  simpl. unfold BigInt_of_string. by rewrite StringToBigInt_digits, Hv.
Qed.

End JsProofs.

(** * Properties of the main script *)

Module BotProofs.
Import Js Bot.

(** ** Computations that complete normally *)

Definition normal {A} (m : M A) : Prop :=
  ∀ w n, ∃ a n' t, m w n = (Normal a, n', t).

Lemma normal_ret {A} (a : A) : normal (mret a).
Proof. intros w n. by eexists _, _, _. Qed.

Lemma normal_emit e : normal (emit e).
Proof. intros w n. by eexists _, _, _. Qed.

Lemma normal_bind {A B} (m : M A) (k : A → M B) :
  normal m → (∀ a, normal (k a)) → normal (m ≫= k).
Proof.
  intros Hm Hk w n. destruct (Hm w n) as (a & n' & t & Hrun).
  destruct (Hk a w n') as (b & n'' & t' & Hrun').
  exists b, n'', (t ++ t')%list.
  unfold mbind, M_bind, bind. by rewrite Hrun, Hrun'.
Qed.

Lemma normal_try_catch {A} (m : M A) (handler : exn → M A) :
  (∀ e, normal (handler e)) → normal (try_catch m handler).
Proof.
  intros Hh w n. unfold try_catch.
  destruct (m w n) as [[[a|e] n'] t]; [by eexists _, _, _|].
  destruct (Hh e w n') as (b & n'' & t' & ->). by eexists _, _, _.
Qed.

Create HintDb normal discriminated.
#[local] Hint Resolve normal_ret normal_emit : normal.
#[local] Hint Extern 1 (normal (console_error _)) => apply normal_emit : normal.
#[local] Hint Extern 1 (normal (console_log _)) => apply normal_emit : normal.
#[local] Hint Extern 1 (normal (console_warn _)) => apply normal_emit : normal.
#[local] Hint Extern 1 (normal (sleep _)) => apply normal_emit : normal.
#[local] Hint Extern 2 (normal (_ ≫= _)) => apply normal_bind; [|intros ?] : normal.
#[local] Hint Extern 2 (normal (try_catch _ _)) => apply normal_try_catch; intros ? : normal.
#[local] Hint Extern 3 (normal (if ?b then _ else _)) => destruct b : normal.
#[local] Hint Extern 3 (normal (match ?x with _ => _ end)) => destruct x : normal.

(** ** What a computation writes to its trace *)

Definition emits {A} (P : event → Prop) (m : M A) : Prop :=
  ∀ w n, Forall P (m w n).2.

Lemma emits_ret {A} P (a : A) : emits P (mret a).
Proof. intros w n. apply Forall_nil_2. Qed.

Lemma emits_throw {A} P e : emits P (@throw A e).
Proof. intros w n. apply Forall_nil_2. Qed.

Lemma emits_lift {A} P (c : completion A) : emits P (lift c).
Proof. intros w n. apply Forall_nil_2. Qed.

Lemma emits_emit P e : P e → emits P (emit e).
Proof. intros He w n. by apply Forall_singleton. Qed.

Lemma emits_bind {A B} P (m : M A) (k : A → M B) :
  emits P m → (∀ a, emits P (k a)) → emits P (m ≫= k).
Proof.
  intros Hm Hk w n. specialize (Hm w n). unfold mbind, M_bind, bind.
  destruct (m w n) as [[[a|e] n'] t]; [|done].
  specialize (Hk a w n'). destruct (k a w n') as [[r n''] t'].
  apply Forall_app. by split.
Qed.

Lemma emits_try_catch {A} P (m : M A) (handler : exn → M A) :
  emits P m → (∀ e, emits P (handler e)) → emits P (try_catch m handler).
Proof.
  intros Hm Hh w n. specialize (Hm w n). unfold try_catch.
  destruct (m w n) as [[[a|e] n'] t]; [done|].
  specialize (Hh e w n'). destruct (handler e w n') as [[r n''] t'].
  apply Forall_app. by split.
Qed.

Lemma emits_fetch P url : P (Fetch url) → emits P (fetch url).
Proof. intros He w n. by apply Forall_singleton. Qed.

Lemma emits_solana P endpoint address :
  P (SolanaGetBalance endpoint address) → emits P (solana_getBalance endpoint address).
Proof. intros He w n. by apply Forall_singleton. Qed.

Lemma emits_ton P endpoint key address :
  P (TonGetBalance endpoint key address) → emits P (ton_getBalance endpoint key address).
Proof. intros He w n. by apply Forall_singleton. Qed.

Lemma emits_erc20 P key tokenAddress address :
  P (Erc20BalanceOf key tokenAddress address) →
  emits P (erc20_balanceOf key tokenAddress address).
Proof. intros He w n. by apply Forall_singleton. Qed.

Lemma emits_trc20 P tokenAddress address :
  P (Trc20BalanceOf tokenAddress address) → emits P (trc20_balanceOf tokenAddress address).
Proof. intros He w n. by apply Forall_singleton. Qed.

(** Goes through a computation written with the operations above; what
    is left is [P] of the events it emits. *)
Ltac emits_step :=
  first
    [ apply emits_ret | apply emits_throw | apply emits_lift
    | apply emits_bind; [|intros ?]
    | apply emits_try_catch; [|intros ?]
    | apply emits_fetch | apply emits_solana | apply emits_ton
    | apply emits_erc20 | apply emits_trc20
    | apply emits_emit
    | match goal with
      | |- emits _ (if ?b then _ else _) => destruct b
      | |- emits _ (match ?x with _ => _ end) => destruct x
      end ].

(** Unfolds the operations of a computation applied to a world. *)
Ltac unfold_run :=
  unfold mbind, M_bind, bind, mret, M_ret, ret, try_catch, throw, lift,
    sleep, console_error, console_log, console_warn, emit.

(** The durations slept, in order, and the number of failure entries
    ([Error with <provider> checking <address> (retries left: n)]). *)
Definition sleeps (t : list event) : list Z :=
  omap (λ e, match e with Sleep ms => Some ms | _ => None end) t.

Definition is_failure_entry (e : event) : bool :=
  match e with
  | ConsoleError (AttemptFailed _ _ _ _) => true
  | _ => false
  end.

Definition failure_entries (t : list event) : nat :=
  length (List.filter is_failure_entry t).

Definition total_sleep (t : list event) : Z := foldr Z.add 0%Z (sleeps t).

(** An event of an attempt: anything but a sleep or a failure entry. *)
Definition attempt_event (e : event) : Prop :=
  match e with
  | Sleep _ | ConsoleError (AttemptFailed _ _ _ _) => False
  | _ => True
  end.

Lemma sleeps_app t1 t2 : sleeps (t1 ++ t2) = (sleeps t1 ++ sleeps t2)%list.
Proof. apply omap_app. Qed.

Lemma failure_entries_app t1 t2 :
  failure_entries (t1 ++ t2) = failure_entries t1 + failure_entries t2.
Proof. unfold failure_entries. by rewrite List.filter_app, length_app. Qed.

Lemma attempt_events_sleeps t : Forall attempt_event t → sleeps t = [].
Proof.
  induction 1 as [|e t He _ IH]; [done|].
  unfold sleeps in *. simpl. destruct e; simpl in *; done.
Qed.

Lemma attempt_events_failures t : Forall attempt_event t → failure_entries t = 0.
Proof.
  induction 1 as [|e t He _ IH]; [done|].
  unfold failure_entries in *.
  destruct e as [| | | | | |l| |]; simpl in *; try done.
  destruct l; simpl in *; done.
Qed.

(** ** The response extractor *)

(** The extractor as the specification words it: a path is a sequence of
    segments, a key or a key with a bracketed index; a segment addresses
    the field of an object, or the item of the array in that field; the
    path addresses a value when every segment resolves. *)
Inductive segment :=
| Key (key : string)
| Indexed (key : string) (index : N).

Definition segment_key (s : segment) : string :=
  match s with Key k | Indexed k _ => k end.

Definition segment_string (s : segment) : string :=
  match s with
  | Key k => k
  | Indexed k i => k ++ "[" ++ pretty i ++ "]"
  end.


(** Keys are words: non-empty, of letters, digits and underscores. *)
Definition word (k : string) : Prop :=
  k ≠ "" ∧ string_forall is_word_char k = true.





Definition no_dot (s : string) : bool :=
  string_forall (λ c, negb (Ascii.eqb c ".")) s.

Lemma split_no_dot (s : string) : no_dot s = true → split "." s = [s].
Proof.
  induction s as [|c s IH]; [done|]. unfold no_dot. simpl.
  intros [Hc Hs]%andb_true_iff. apply negb_true_iff in Hc. rewrite Hc.
  by rewrite (IH Hs).
Qed.



Lemma string_forall_impl (p q : ascii → bool) (s : string) :
  (∀ c, p c = true → q c = true) → string_forall p s = true → string_forall q s = true.
Proof.
  intros Hpq. induction s as [|c s IH]; simpl; [done|].
  intros [Hc Hs]%andb_true_iff. by rewrite (Hpq c Hc), (IH Hs).
Qed.

Lemma word_char_no_dot (c : ascii) : is_word_char c = true → negb (Ascii.eqb c ".") = true.
Proof. destruct (Ascii.eqb_spec c ".") as [->|?]; [by vm_compute | done]. Qed.

Lemma digit_word_char (c : ascii) : is_digit c = true → is_word_char c = true.
Proof. unfold is_digit, is_word_char. by intros ->. Qed.

Lemma segment_no_dot (s : segment) :
  word (segment_key s) → no_dot (segment_string s) = true.
Proof.
  destruct s as [k|k i]; simpl; intros [_ Hk]; unfold no_dot.
  - by eapply string_forall_impl; [apply word_char_no_dot|].
  - rewrite !JsProofs.string_forall_app.
    destruct (JsProofs.pretty_N_digits i) as (Hd & _ & _).
    rewrite (string_forall_impl _ _ _ word_char_no_dot Hk).
    rewrite (string_forall_impl is_digit _ (pretty i)); [done | | done].
    intros c Hc. by apply word_char_no_dot, digit_word_char.
Qed.




Lemma match_indexed_brackets (k : string) (i : N) :
  word k → match_indexed (k ++ "[" ++ pretty i ++ "]") = Some (k, pretty i).
Proof.
  intros [Hne Hk].
  assert (Hhere : match_here (k ++ "[" ++ pretty i ++ "]") = Some (k, pretty i)).
  { unfold match_here.
    change ("[" ++ pretty i ++ "]") with (String "[" (pretty i ++ String "]" "")).
    rewrite (JsProofs.span_stop _ _ _ _ Hk) by done.
    destruct (JsProofs.pretty_N_digits i) as (Hd & _ & Hnd).
    rewrite (JsProofs.span_stop _ _ _ _ Hd) by done.
    destruct k; [done|]. by destruct (pretty i). }
  destruct (k ++ "[" ++ pretty i ++ "]"); cbn [match_indexed]; by rewrite Hhere.
Qed.














(** *** The reads of the extractor

    [get_prop] answers a read by a key from the properties a value has of
    its own.  The engine answers it from the prototype of the value where
    the value has no such property: [({}).constructor] is a function.
    The reads below are those the embedding answers as the engine does. *)






(** *** What follows the bracketed index *)

Lemma match_indexed_brackets_then (k : string) (i : N) (rest : string) :
  word k → match_indexed (k ++ "[" ++ pretty i ++ "]" ++ rest) = Some (k, pretty i).
Proof.
  intros [Hne Hk].
  assert (Hhere : match_here (k ++ "[" ++ pretty i ++ "]" ++ rest) = Some (k, pretty i)).
  { unfold match_here.
    change ("[" ++ pretty i ++ "]" ++ rest) with (String "[" (pretty i ++ String "]" rest)).
    rewrite (JsProofs.span_stop _ _ _ _ Hk) by done.
    destruct (JsProofs.pretty_N_digits i) as (Hd & _ & Hnd).
    rewrite (JsProofs.span_stop _ _ _ _ Hd) by done.
    destruct k; [done|]. by destruct (pretty i). }
  destruct (k ++ "[" ++ pretty i ++ "]" ++ rest); cbn [match_indexed]; by rewrite Hhere.
Qed.

(** The pattern of a segment is not anchored: whatever follows the closing
    bracket of [key[index]] within a segment is ignored.  A second index
    in particular is dropped: [m[1][2]] reads [m[1]]. *)
Theorem indexed_segment_suffix_ignored (obj : option json) (k : string) (i : N)
    (rest : string) :
  word k → no_dot rest = true →
  getNestedValue obj (segment_string (Indexed k i) ++ rest)
    = getNestedValue obj (segment_string (Indexed k i)).
Proof.
  intros Hk Hrest. unfold getNestedValue.
  pose proof (segment_no_dot (Indexed k i) Hk) as Hseg.
  rewrite (split_no_dot (segment_string (Indexed k i))) by done.
  rewrite split_no_dot by (unfold no_dot in *; by rewrite JsProofs.string_forall_app, Hseg).
  cbn [reduce segment_string]. unfold nested_step.
  rewrite (match_indexed_brackets _ _ Hk).
  rewrite !JsProofs.string_app_assoc.
  change (("]" ++ "") ++ rest) with ("]" ++ rest).
  by rewrite (match_indexed_brackets_then _ _ _ Hk).
Qed.

Section PipelineProofs.
Context `{NumberNotation}.
Variable cfg : configuration.

Lemma retryLoop_normal body providerName address retries delay :
  normal (retryLoop body providerName address retries delay).
Proof.
  revert delay. induction retries as [|retries IH]; intros delay; simpl.
  - apply normal_ret.
  - apply normal_bind.
    + auto 10 with normal.
    + intros [result|delay'|]; [apply normal_ret | apply IH | apply normal_ret].
Qed.

Lemma providerLoop_normal currency address network providers :
  normal (providerLoop cfg currency address network providers).
Proof.
  induction providers as [|p providers IH]; cbn [providerLoop].
  - apply normal_ret.
  - apply normal_bind; [apply retryLoop_normal|].
    intros [result|]; [apply normal_ret | apply IH].
Qed.

Lemma getBalance_bitcoin_normal address : normal (getBalance_bitcoin address).
Proof. unfold getBalance_bitcoin. auto 10 with normal. Qed.

(** *** The tables read under an inherited name *)

Lemma network_of_own currency :
  currency ∉ Object_prototype → network_of cfg currency = cfg_networks cfg !! currency.
Proof.
  intros Hown. unfold network_of.
  destruct (cfg_networks cfg !! currency); [done|]. by rewrite bool_decide_eq_false_2.
Qed.

(** The currencies [getBalance] throws for: the table of providers has
    no list under the name, and inherits under it a value that is not
    iterable and whose [length] is not 0. *)
Definition not_iterable (currency : string) : Prop :=
  currency ≠ "bitcoin"
  ∧ cfg_apiProviders cfg !! currency = None
  ∧ currency ∈ Object_prototype
  ∧ inherited_length currency ≠ Some 0%nat.

Lemma not_iterable_inherited currency :
  currency ∉ Object_prototype → ¬ not_iterable currency.
Proof. by intros Hown (_ & _ & ? & _). Qed.

Lemma no_providers_normal currency : normal (no_providers currency).
Proof. unfold no_providers. auto 10 with normal. Qed.


Lemma getBalance_normal currency address :
  ¬ not_iterable currency → normal (getBalance cfg currency address).
Proof.
  intros Hiter. unfold getBalance. destruct (String.eqb_spec currency "bitcoin") as [->|Hne].
  - apply getBalance_bitcoin_normal.
  - destruct (cfg_apiProviders cfg !! currency) as [[|p providers]|] eqn:Hp.
    + apply no_providers_normal.
    + apply normal_bind; [apply providerLoop_normal|].
      intros [result|]; apply normal_ret.
    + destruct (bool_decide_reflect (currency ∈ Object_prototype)) as [Hin|_];
        [|apply no_providers_normal].
      destruct (bool_decide_reflect (inherited_length currency = Some 0%nat)) as [_|Hlen];
        [apply no_providers_normal|].
      by destruct Hiter.
Qed.

(** *** Failures end in a zero balance *)

(** Nothing answers: every [fetch] is rejected or answered with a status
    outside 200-299 (429 among them), and every client call is rejected. *)
Definition unreachable (w : world) : Prop :=
  (∀ n url, match fetch_outcome w n url with
            | Normal r => ok r = false
            | Throw _ => True
            end)
  ∧ (∀ n endpoint address, is_normal (solana_outcome w n endpoint address) = false)
  ∧ (∀ n endpoint key address, is_normal (ton_outcome w n endpoint key address) = false).

(** Every attempt on every provider of the currency throws, for whatever
    reason (a malformed numeric field among them). *)
Definition attempts_fail (currency address : string) (w : world) : Prop :=
  ∀ p n, p ∈ default [] (cfg_apiProviders cfg !! currency) →
    is_normal (attempt cfg currency address (network_of cfg currency) p w n).1.1 = false.

Lemma retryLoop_exhausted body providerName address retries delay w n :
  (∀ n, is_normal (body w n).1.1 = false) →
  (retryLoop body providerName address retries delay w n).1.1 = Normal None.
Proof.
  intros Hfail. revert delay n.
  induction retries as [|retries IH]; intros delay n; [done|].
  cbn [retryLoop]. unfold mbind, M_bind, bind, try_catch.
  specialize (Hfail n). destruct (body w n) as [[[r|e] n1] t1]; [done|].
  destruct retries as [|retries]; [done|].
  cbn -[retryLoop].
  specialize (IH (delay * 2)%Z n1).
  by destruct (retryLoop body providerName address (S retries) (delay * 2) w n1) as [[? ?] ?].
Qed.

Lemma providerLoop_exhausted currency address network providers w n :
  (∀ p n, p ∈ providers →
     is_normal (attempt cfg currency address network p w n).1.1 = false) →
  (providerLoop cfg currency address network providers w n).1.1 = Normal None.
Proof.
  revert n. induction providers as [|p providers IH]; intros n Hfail; [done|].
  cbn [providerLoop]. unfold mbind, M_bind, bind.
  pose proof (retryLoop_exhausted (attempt cfg currency address network p) (name p) address
                3 4000 w n) as Hp.
  destruct (retryLoop _ _ _ _ _ w n) as [[r n1] t1]. simpl in Hp.
  rewrite Hp; [|intros n0; apply Hfail; left].
  specialize (IH n1). 
  destruct (providerLoop cfg currency address network providers w n1) as [[r' n2] t2].
  simpl in *. apply IH. intros q n0 Hq. apply Hfail. by right.
Qed.

Lemma no_providers_zero currency w n : (no_providers currency w n).1.1 = Normal zero_balance.
Proof. unfold no_providers. by destruct (negb _). Qed.

Lemma getBalance_exhausted currency address w n :
  currency ≠ "bitcoin" →
  ¬ not_iterable currency →
  attempts_fail currency address w →
  (getBalance cfg currency address w n).1.1 = Normal zero_balance.
Proof.
  intros Hne Hiter Hfail. unfold getBalance.
  destruct (String.eqb_spec currency "bitcoin") as [?|_]; [done|].
  unfold attempts_fail in Hfail.
  destruct (cfg_apiProviders cfg !! currency) as [[|p providers]|] eqn:Hproviders;
    simpl in Hfail.
  - apply no_providers_zero.
  - unfold mbind, M_bind, bind.
    pose proof (providerLoop_exhausted currency address (network_of cfg currency)
                  (p :: providers) w n) as Hp.
    destruct (providerLoop _ _ _ _ _ w n) as [[r n1] t1]. simpl in Hp.
    rewrite Hp; [done|]. intros q n0 Hq. by apply Hfail.
  - destruct (bool_decide_reflect (currency ∈ Object_prototype)) as [Hin|_];
      [|apply no_providers_zero].
    destruct (bool_decide_reflect (inherited_length currency = Some 0%nat)) as [_|Hlen];
      [apply no_providers_zero|].
    by destruct Hiter.
Qed.

Lemma rest_balance_unreachable currency address p w n :
  unreachable w →
  is_normal (rest_balance currency address p w n).1.1 = false.
Proof.
  intros (Hfetch & _). unfold rest_balance, mbind, M_bind, bind, fetch.
  match goal with |- context [fetch_outcome w n ?u] => specialize (Hfetch n u);
    destruct (fetch_outcome w n u) as [r|e] end; [|done].
  rewrite Hfetch. simpl. by destruct (status r =? 429)%Z.
Qed.

Lemma attempt_unreachable currency address network p w n :
  unreachable w →
  is_normal (attempt cfg currency address network p w n).1.1 = false.
Proof.
  intros Hw. unfold attempt, nativeLookup, mbind, M_bind, bind.
  destruct (bool_decide _).
  - destruct Hw as (_ & Hsol & _). unfold solana_getBalance.
    specialize (Hsol n (baseURL p) address). by destruct (solana_outcome _ _ _ _).
  - destruct (String.eqb (name p) "toncenter").
    + destruct Hw as (_ & _ & Hton). unfold ton_getBalance.
      specialize (Hton n (baseURL p) (apiKey p) address). by destruct (ton_outcome _ _ _ _ _).
    + pose proof (rest_balance_unreachable currency address p w n Hw) as Hr.
      by destruct (rest_balance currency address p w n) as [[[?|?] ?] ?].
Qed.

Lemma getBalance_bitcoin_unreachable address w n :
  unreachable w →
  (getBalance_bitcoin address w n).1.1 = Normal zero_balance.
Proof.
  intros (Hfetch & _). unfold getBalance_bitcoin, mbind, M_bind, bind, try_catch, fetch.
  match goal with |- context [fetch_outcome w n ?u] => specialize (Hfetch n u);
    destruct (fetch_outcome w n u) as [r|e] end; [|done].
  by rewrite Hfetch.
Qed.


(** *** Backoff *)

Lemma tokenLookup_events currency address token tc :
  emits attempt_event (tokenLookup cfg currency address token tc).
Proof. unfold tokenLookup. repeat emits_step; done. Qed.

Lemma tokenLoop_events currency address toks tokenBalances :
  emits attempt_event (tokenLoop cfg currency address toks tokenBalances).
Proof.
  revert tokenBalances. induction toks as [|[token tc] toks IH]; intros tokenBalances;
    cbn [tokenLoop].
  - apply emits_ret.
  - apply emits_bind; [apply tokenLookup_events | intros z; apply IH].
Qed.

Lemma rest_balance_events currency address p :
  emits attempt_event (rest_balance currency address p).
Proof. unfold rest_balance. repeat emits_step; done. Qed.

Lemma attempt_events currency address network p :
  emits attempt_event (attempt cfg currency address network p).
Proof.
  unfold attempt, nativeLookup, collectTokens.
  repeat first [ apply rest_balance_events | apply tokenLoop_events | emits_step ]; done.
Qed.

(** The delays of [k] consecutive sleeps that start at [delay]. *)
Definition backoff (delay : Z) (k : nat) : list Z :=
  (λ i : nat, (delay * 2 ^ Z.of_nat i)%Z) <$> seq 0 k.

Lemma backoff_S delay k : backoff delay (S k) = delay :: backoff (delay * 2) k.
Proof.
  unfold backoff. cbn [seq fmap list_fmap]. f_equal; [simpl; lia|].
  rewrite <- seq_shift, <- list_fmap_compose. apply list_fmap_ext.
  intros _ i _. simpl. rewrite Nat2Z.inj_succ, Z.pow_succ_r by lia. lia.
Qed.

(** The law of the retry loop, for any number of retries and any first
    delay: a failed attempt is followed by a sleep exactly when a retry is
    left, each sleep lasts twice the one before, and the loop ends without
    a result exactly when every attempt failed. *)
Lemma retryLoop_schedule body providerName address retries delay w n :
  emits attempt_event body →
  let '(returned, _, t) := retryLoop body providerName address retries delay w n in
  sleeps t = backoff delay (failure_entries t `min` (retries - 1))
  ∧ (failure_entries t ≤ retries)%nat
  ∧ (returned = Normal None ↔ failure_entries t = retries)
  ∧ is_normal returned = true.
Proof.
  intros Hbody. revert delay n.
  induction retries as [|retries IH]; intros delay n; [done|].
  cbn [retryLoop]. unfold mbind, M_bind, bind, try_catch.
  pose proof (Hbody w n) as Ht1.
  destruct (body w n) as [[[r|e] n1] t1]; simpl in Ht1.
  - unfold_run. cbn.
    rewrite !app_nil_r, (attempt_events_sleeps _ Ht1), (attempt_events_failures _ Ht1).
    repeat split; [lia | done | lia].
  - destruct retries as [|retries].
    + unfold_run. cbn. rewrite !app_nil_r, sleeps_app, failure_entries_app.
      rewrite (attempt_events_sleeps _ Ht1), (attempt_events_failures _ Ht1).
      by repeat split.
    + unfold_run. cbn -[retryLoop].
      specialize (IH (delay * 2)%Z n1).
      destruct (retryLoop body providerName address (S retries) (delay * 2) w n1)
        as [[returned n2] t2].
      destruct IH as (Hs & Hle & Hnone & Hnormal).
      rewrite !sleeps_app, !failure_entries_app.
      rewrite (attempt_events_sleeps _ Ht1), (attempt_events_failures _ Ht1).
      cbn -[backoff]. rewrite Hs.
      replace (S retries - 1) with retries in * by lia.
      set (f := failure_entries t2) in *.
      replace (S f `min` S retries) with (S (f `min` retries)) by lia.
      rewrite backoff_S.
      repeat split; [lia | | | done].
      * intros Hr. apply Hnone in Hr. lia.
      * intros Hr. apply Hnone. lia.
Qed.

(** Only the generic handler for tron returns early. *)
Lemma rest_balance_not_early currency address p w n early n' t :
  currency ≠ "tron" → rest_balance currency address p w n ≠ (Normal (inl early), n', t).
Proof.
  intros Hne. unfold rest_balance, fetch.
  destruct (String.eqb_spec currency "tron") as [?|_]; [done|].
  unfold_run.
  destruct (fetch_outcome w n (request_url address p)) as [resp|e]; [|done].
  destruct (ok resp); cbn [negb]; [|by destruct (status resp =? 429)%Z].
  repeat match goal with
         | |- context [if ?b then _ else _] => destruct b
         | |- context [match member ?o ?k with _ => _ end] => destruct (member o k)
         | |- context [match text_body ?r with _ => _ end] => destruct (text_body r)
         | |- context [match json_body ?r with _ => _ end] => destruct (json_body r)
         | |- context [match extract ?d ?q with _ => _ end] => destruct (extract d q)
         | |- context [match BigInt ?v with _ => _ end] => destruct (BigInt v)
         | |- context [match ?v with None => _ | Some _ => _ end] => destruct v
         | |- context [match ?d with JNull => _ | _ => _ end] => destruct d
         end; cbn; done.
Qed.

(** Without an entry of [networks], [network.tokens] throws: an attempt
    returns nothing but the early result of tron. *)
Lemma attempt_no_network currency address p w n :
  currency ≠ "tron" → is_normal (attempt cfg currency address None p w n).1.1 = false.
Proof.
  intros Hne. unfold attempt, nativeLookup, collectTokens.
  destruct (bool_decide _); [|destruct (String.eqb (name p) "toncenter")].
  - unfold solana_getBalance. unfold_run.
    destruct (solana_outcome _ _ _ _); [|done]. cbn. by destruct (String.eqb currency "tron").
  - unfold ton_getBalance. unfold_run.
    destruct (ton_outcome _ _ _ _ _); [|done]. cbn. by destruct (String.eqb currency "tron").
  - pose proof (rest_balance_not_early currency address p w n) as Hearly.
    unfold_run.
    destruct (rest_balance currency address p w n) as [[[[early|z]|e] n1] t1]; [| |done].
    + by destruct (Hearly early n1 t1).
    + cbn. by destruct (String.eqb currency "tron").
Qed.

(** The entry of [networks] that the attempts of [getBalance] read: the
    entry of the table wherever an attempt returns. *)
Lemma retryLoop_network currency address p w n result n' t :
  retryLoop (attempt cfg currency address (cfg_networks cfg !! currency) p) (name p) address
    3 4000 w n = (Normal (Some result), n', t) →
  network_of cfg currency = cfg_networks cfg !! currency.
Proof.
  intros Hloop. unfold network_of.
  destruct (cfg_networks cfg !! currency) as [net|] eqn:Hnet; [done|].
  destruct (bool_decide_reflect (currency ∈ Object_prototype)) as [Hin|_]; [|done].
  assert (currency ≠ "tron") as Hne.
  { intros ->. apply list_elem_of_In in Hin. simpl in Hin. intuition discriminate. }
  pose proof (retryLoop_exhausted (attempt cfg currency address None p) (name p) address
                3 4000 w n (λ n0, attempt_no_network currency address p w n0 Hne)) as Hnone.
  by rewrite Hloop in Hnone.
Qed.

(** When the loop of the first provider returns a result, [getBalance]
    returns it, with the same trace. *)
Lemma getBalance_first_provider currency address p providers w n result n' t :
  currency ≠ "bitcoin" →
  cfg_apiProviders cfg !! currency = Some (p :: providers) →
  retryLoop (attempt cfg currency address (cfg_networks cfg !! currency) p) (name p) address
    3 4000 w n = (Normal (Some result), n', t) →
  getBalance cfg currency address w n = (Normal result, n', t).
Proof.
  intros Hne Hp Hloop. unfold getBalance.
  destruct (String.eqb_spec currency "bitcoin") as [?|_]; [done|].
  rewrite Hp, (retryLoop_network _ _ _ _ _ _ _ _ Hloop).
  cbn [providerLoop]. unfold mbind, M_bind, bind. rewrite Hloop.
  unfold_run. cbn. by rewrite !app_nil_r.
Qed.

(** C8. In the retry loop of a provider, every failed attempt that leaves
    a retry is followed by a sleep; the sleeps start at 4000 ms and double
    ([backoff 4000 k] is 4000, 8000, ... ; with three attempts at most two
    of them happen).  A provider that fails on attempts 1 and 2 and
    succeeds on attempt 3 has slept 4000 and 8000 ms, 12000 ms in all,
    when the result is returned, and left exactly 2 failure entries. *)
Theorem backoff_timing (currency address : string) (p : provider) (w : world) (n : nat) :
  let body := attempt cfg currency address (cfg_networks cfg !! currency) p in
  let loop := retryLoop body (name p) address 3 4000 w n in
  sleeps loop.2 = backoff 4000 (failure_entries loop.2 `min` 2)
  ∧ ∀ e1 n1 t1 e2 n2 t2 result n3 t3,
      body w n = (Throw e1, n1, t1) →
      body w n1 = (Throw e2, n2, t2) →
      body w n2 = (Normal result, n3, t3) →
      let t := (t1 ++ [ConsoleError (AttemptFailed (name p) address 2 e1);
                       ConsoleLog (WaitingBeforeRetry 4000); Sleep 4000]
                ++ t2 ++ [ConsoleError (AttemptFailed (name p) address 1 e2);
                          ConsoleLog (WaitingBeforeRetry 8000); Sleep 8000]
                ++ t3)%list in
      loop = (Normal (Some result), n3, t)
      ∧ sleeps t = [4000; 8000]%Z
      ∧ total_sleep t = 12000%Z
      ∧ failure_entries t = 2
      ∧ (currency ≠ "bitcoin" →
         (∃ providers, cfg_apiProviders cfg !! currency = Some (p :: providers)) →
         getBalance cfg currency address w n = (Normal result, n3, t)).
Proof.
  intros body loop. split.
  - pose proof (retryLoop_schedule body (name p) address 3 4000 w n
                  (attempt_events _ _ _ _)) as Hlaw.
    subst loop. destruct (retryLoop _ _ _ _ _ w n) as [[returned n'] t]. by destruct Hlaw.
  - intros e1 n1 t1 e2 n2 t2 result n3 t3 H1 H2 H3 t.
    assert (Hloop : loop = (Normal (Some result), n3, t)).
    { subst loop t. cbn [retryLoop]. unfold mbind, M_bind, bind, try_catch.
      rewrite H1. unfold_run. cbn. rewrite H2. cbn. rewrite H3. cbn.
      by rewrite !app_nil_r, <- !app_assoc. }
    pose proof (attempt_events currency address (cfg_networks cfg !! currency) p) as Hev.
    pose proof (Hev w n) as Ht1. pose proof (Hev w n1) as Ht2. pose proof (Hev w n2) as Ht3.
    fold body in Ht1, Ht2, Ht3. rewrite H1 in Ht1. rewrite H2 in Ht2. rewrite H3 in Ht3.
    simpl in Ht1, Ht2, Ht3.
    assert (Hsl : sleeps t = [4000; 8000]%Z).
    { subst t. rewrite !sleeps_app.
      by rewrite (attempt_events_sleeps _ Ht1), (attempt_events_sleeps _ Ht2),
        (attempt_events_sleeps _ Ht3). }
    split; [done|]. split; [done|]. split; [unfold total_sleep; by rewrite Hsl|].
    split.
    + subst t. rewrite !failure_entries_app.
      by rewrite (attempt_events_failures _ Ht1), (attempt_events_failures _ Ht2),
        (attempt_events_failures _ Ht3).
    + intros Hne [providers Hp]. by eapply getBalance_first_provider.
Qed.

(** *** Where the providers come from *)

Lemma emits_mono {A} (P Q : event → Prop) (m : M A) :
  (∀ e, P e → Q e) → emits P m → emits Q m.
Proof. intros HPQ Hm w n. eapply Forall_impl; [apply Hm | done]. Qed.

(** The outbound call an attempt on provider [p] starts with. *)
Definition provider_request (address : string) (p : provider) : event :=
  if bool_decide (method p = Some "getBalance") then SolanaGetBalance (baseURL p) address
  else if String.eqb (name p) "toncenter" then TonGetBalance (baseURL p) (apiKey p) address
  else Fetch (request_url address p).

(** The outbound calls of the token sub-lookups. *)
Definition token_request (address : string) (e : event) : Prop :=
  match e with
  | Fetch url =>
      url = AGGREGATOR ++ "usdt/erc/" ++ address ∨ url = AGGREGATOR ++ "usdt/trc/" ++ address
  | Erc20BalanceOf _ _ a | Trc20BalanceOf _ a => a = address
  | _ => False
  end.

Definition outbound (e : event) : bool :=
  match e with
  | Sleep _ | ConsoleError _ | ConsoleWarn _ | ConsoleLog _ => false
  | _ => true
  end.

(** The outbound calls of an attempt on [p]. *)
Definition request_of (address : string) (p : provider) (e : event) : Prop :=
  outbound e = true → e = provider_request address p ∨ token_request address e.

(** The outbound calls of [getBalance]: to the aggregator for bitcoin, and
    otherwise to a provider of the list configured for the currency, or
    for a token. *)
Definition from_configuration (currency address : string) (e : event) : Prop :=
  outbound e = true →
  (currency = "bitcoin" ∧ e = Fetch (AGGREGATOR ++ address))
  ∨ (∃ p, p ∈ default [] (cfg_apiProviders cfg !! currency) ∧ e = provider_request address p)
  ∨ token_request address e.

Definition token_requests (address : string) (e : event) : Prop :=
  outbound e = true → token_request address e.

Lemma tokenLookup_requests currency address token tc :
  emits (token_requests address) (tokenLookup cfg currency address token tc).
Proof.
  unfold tokenLookup.
  repeat emits_step; intros Hout; try done; simpl; auto.
Qed.

Lemma tokenLoop_requests currency address toks tokenBalances :
  emits (token_requests address) (tokenLoop cfg currency address toks tokenBalances).
Proof.
  revert tokenBalances. induction toks as [|[token tc] toks IH]; intros tokenBalances;
    cbn [tokenLoop].
  - apply emits_ret.
  - apply emits_bind; [apply tokenLookup_requests | intros z; apply IH].
Qed.

Lemma attempt_requests currency address network p :
  emits (request_of address p) (attempt cfg currency address network p).
Proof.
  assert (Htok : ∀ toks, emits (request_of address p) (tokenLoop cfg currency address toks ∅)).
  { intros toks. eapply emits_mono; [|apply tokenLoop_requests].
    intros e He Hout. right. by apply He. }
  unfold attempt, nativeLookup, collectTokens, rest_balance.
  destruct (bool_decide (method p = Some "getBalance")) eqn:Hm;
    [|destruct (String.eqb (name p) "toncenter") eqn:Ht];
    repeat first [ apply Htok | emits_step ];
    try (intros Hout; try done; left; unfold provider_request; by rewrite Hm, ?Ht).
Qed.

Lemma retryLoop_requests currency address network p retries delay :
  emits (request_of address p)
    (retryLoop (attempt cfg currency address network p) (name p) address retries delay).
Proof.
  revert delay. induction retries as [|retries IH]; intros delay; cbn [retryLoop].
  - apply emits_ret.
  - apply emits_bind.
    + apply emits_try_catch.
      * apply emits_bind; [apply attempt_requests | intros ?; apply emits_ret].
      * intros e. repeat emits_step; done.
    + intros [result|delay'|]; [apply emits_ret | apply IH | apply emits_ret].
Qed.

Lemma providerLoop_requests currency address network providers :
  emits (λ e, outbound e = true →
              (∃ p, p ∈ providers ∧ e = provider_request address p)
              ∨ token_request address e)
    (providerLoop cfg currency address network providers).
Proof.
  induction providers as [|p providers IH]; cbn [providerLoop].
  - apply emits_ret.
  - apply emits_bind.
    + eapply emits_mono; [|apply retryLoop_requests].
      intros e He Hout. destruct (He Hout) as [->|?]; [left|by right].
      exists p. split; [left | done].
    + intros [result|]; [apply emits_ret|].
      eapply emits_mono; [|apply IH].
      intros e He Hout. destruct (He Hout) as [(q & Hq & ->)|?]; [left|by right].
      exists q. split; [by right | done].
Qed.

(** Every outbound call of [getBalance] is for a provider of the list
    configured for the currency (or for a token, or for bitcoin to the
    aggregator). *)
Lemma getBalance_requests currency address :
  emits (from_configuration currency address) (getBalance cfg currency address).
Proof.
  unfold getBalance. destruct (String.eqb_spec currency "bitcoin") as [->|Hne].
  - unfold getBalance_bitcoin. repeat emits_step; intros Hout; try done. by left.
  - destruct (cfg_apiProviders cfg !! currency) as [[|p providers]|] eqn:Hp.
    + unfold no_providers. repeat emits_step; done.
    + apply emits_bind.
      * eapply emits_mono; [|apply providerLoop_requests].
        intros e He Hout. right. rewrite Hp. by apply He.
      * intros [result|]; apply emits_ret.
    + unfold no_providers. repeat emits_step; done.
Qed.

(** The first provider of the list is requested, before anything else. *)
Definition starts_with {A} (e : event) (m : M A) : Prop :=
  ∀ w n, ∃ t, (m w n).2 = e :: t.

Lemma starts_with_bind {A B} e (m : M A) (k : A → M B) :
  starts_with e m → starts_with e (m ≫= k).
Proof.
  intros Hm w n. destruct (Hm w n) as [t Ht]. unfold mbind, M_bind, bind.
  destruct (m w n) as [[[a|e'] n'] t0]; simpl in Ht; subst t0; [|by eexists].
  destruct (k a w n') as [[r n''] t']. by eexists.
Qed.

Lemma starts_with_try_catch {A} e (m : M A) (handler : exn → M A) :
  starts_with e m → starts_with e (try_catch m handler).
Proof.
  intros Hm w n. destruct (Hm w n) as [t Ht]. unfold try_catch.
  destruct (m w n) as [[[a|e'] n'] t0]; simpl in Ht; subst t0; [by eexists|].
  destruct (handler e' w n') as [[r n''] t']. by eexists.
Qed.

Lemma nativeLookup_first currency address p :
  starts_with (provider_request address p) (nativeLookup currency address p).
Proof.
  unfold nativeLookup, provider_request, rest_balance.
  destruct (bool_decide _); [|destruct (String.eqb _ _)];
    repeat apply starts_with_bind; intros w n; eexists; reflexivity.
Qed.

Lemma getBalance_first currency address p providers :
  currency ≠ "bitcoin" →
  cfg_apiProviders cfg !! currency = Some (p :: providers) →
  starts_with (provider_request address p) (getBalance cfg currency address).
Proof.
  intros Hne Hp. unfold getBalance.
  destruct (String.eqb_spec currency "bitcoin") as [?|_]; [done|].
  rewrite Hp. cbn [providerLoop retryLoop]. unfold attempt at 1.
  do 3 apply starts_with_bind. apply starts_with_try_catch.
  do 2 apply starts_with_bind. apply nativeLookup_first.
Qed.

(** The providers named in the failure entries of a trace, in order. *)
Definition failed_providers (t : list event) : list string :=
  omap (λ e, match e with
             | ConsoleError (AttemptFailed providerName _ _ _) => Some providerName
             | _ => None
             end) t.

Lemma failed_providers_app t1 t2 :
  failed_providers (t1 ++ t2) = (failed_providers t1 ++ failed_providers t2)%list.
Proof. apply omap_app. Qed.

Lemma attempt_events_failed t : Forall attempt_event t → failed_providers t = [].
Proof.
  induction 1 as [|e t He _ IH]; [done|].
  unfold failed_providers in *. simpl.
  destruct e as [| | | | | |l| |]; simpl in *; try done.
  destruct l; simpl in *; done.
Qed.

(** The loop of a provider fails under its name only, once per attempt,
    and every attempt has failed when it ends without a result. *)
Lemma retryLoop_failed body providerName address retries delay w n :
  emits attempt_event body →
  let '(returned, _, t) := retryLoop body providerName address retries delay w n in
  ∃ f, (f ≤ retries)%nat
       ∧ failed_providers t = replicate f providerName
       ∧ (returned = Normal None → f = retries).
Proof.
  intros Hbody. revert delay n.
  induction retries as [|retries IH]; intros delay n; [by exists 0|].
  cbn [retryLoop]. unfold mbind, M_bind, bind, try_catch.
  pose proof (Hbody w n) as Ht1.
  destruct (body w n) as [[[r|e] n1] t1]; simpl in Ht1.
  - unfold_run. cbn. exists 0.
    rewrite !app_nil_r, (attempt_events_failed _ Ht1). by repeat split; [lia|..].
  - destruct retries as [|retries].
    + unfold_run. cbn. exists 1.
      rewrite !app_nil_r, failed_providers_app, (attempt_events_failed _ Ht1).
      by repeat split.
    + unfold_run. cbn -[retryLoop].
      specialize (IH (delay * 2)%Z n1).
      destruct (retryLoop body providerName address (S retries) (delay * 2) w n1)
        as [[returned n2] t2].
      destruct IH as (f & Hf & Hnames & Hnone).
      exists (S f). rewrite !failed_providers_app, (attempt_events_failed _ Ht1).
      split; [lia|]. split.
      * unfold failed_providers at 1. simpl. by rewrite Hnames.
      * intros Hr. by rewrite Hnone.
Qed.

(** Providers fail in the order of the list, each at most three times,
    and the next one is tried only after three failures. *)
Lemma providerLoop_failed currency address network providers w n :
  failed_providers (providerLoop cfg currency address network providers w n).2
    `prefix_of` (providers ≫= λ p, replicate 3 (name p)).
Proof.
  revert n. induction providers as [|p providers IH]; intros n; [done|].
  cbn [providerLoop]. unfold mbind at 1, M_bind, bind.
  pose proof (retryLoop_failed (attempt cfg currency address network p) (name p) address
                3 4000 w n (attempt_events _ _ _ _)) as Hloop.
  destruct (retryLoop _ _ _ _ _ w n) as [[returned n1] t1].
  destruct Hloop as (f & Hf & Hnames & Hnone).
  change ((p :: providers) ≫= λ q, replicate 3 (name q))
    with (replicate 3 (name p) ++ (providers ≫= λ q, replicate 3 (name q)))%list.
  destruct returned as [[result|]|e].
  - unfold_run. cbn [snd]. rewrite app_nil_r, Hnames.
    apply prefix_app_r. exists (replicate (3 - f) (name p)).
    rewrite <- replicate_add. f_equal. lia.
  - specialize (IH n1). rewrite (Hnone eq_refl) in Hnames.
    destruct (providerLoop cfg currency address network providers w n1) as [[r n2] t2].
    cbn [snd] in *. rewrite failed_providers_app, Hnames. by apply prefix_app.
  - cbn [snd]. rewrite Hnames.
    apply prefix_app_r. exists (replicate (3 - f) (name p)).
    rewrite <- replicate_add. f_equal. lia.
Qed.

Lemma getBalance_bitcoin_events address : emits attempt_event (getBalance_bitcoin address).
Proof. unfold getBalance_bitcoin. repeat emits_step; done. Qed.

Lemma no_providers_events currency : emits attempt_event (no_providers currency).
Proof. unfold no_providers. repeat emits_step; done. Qed.

(** What [getBalance] does where it finds no list of providers. *)
Lemma getBalance_unlisted_events currency address :
  currency ≠ "bitcoin" →
  default [] (cfg_apiProviders cfg !! currency) = [] →
  emits attempt_event (getBalance cfg currency address).
Proof.
  intros Hne Hnil. unfold getBalance.
  destruct (String.eqb_spec currency "bitcoin") as [?|_]; [done|].
  destruct (cfg_apiProviders cfg !! currency) as [[|p providers]|]; [|done|].
  - apply no_providers_events.
  - repeat first [ apply no_providers_events | emits_step ].
Qed.

Lemma getBalance_failed currency address w n :
  failed_providers (getBalance cfg currency address w n).2
    `prefix_of` (default [] (cfg_apiProviders cfg !! currency) ≫= λ p, replicate 3 (name p)).
Proof.
  destruct (String.eqb_spec currency "bitcoin") as [->|Hne].
  { rewrite attempt_events_failed; [apply prefix_nil|]. apply getBalance_bitcoin_events. }
  destruct (cfg_apiProviders cfg !! currency) as [[|p providers]|] eqn:Hp.
  1, 3: rewrite attempt_events_failed; [apply prefix_nil|];
        apply getBalance_unlisted_events; [done | by rewrite Hp].
  unfold getBalance.
  destruct (String.eqb_spec currency "bitcoin") as [?|_]; [done|]. rewrite Hp.
  unfold mbind at 1, M_bind, bind.
  pose proof (providerLoop_failed currency address (network_of cfg currency)
                (p :: providers) w n) as Hloop.
  destruct (providerLoop _ _ _ _ _ w n) as [[[[r|]|e] n1] t1];
    unfold_run; cbn [snd default] in *; by rewrite ?app_nil_r.
Qed.

(** *** The attempts, one after the other

    For comparison with the loops of [getBalance]: the attempts as a
    flat list, the providers of the list in order, three attempts each,
    every attempt with the retries left after it and the delay slept
    after it when it fails and a retry is left. *)
Fixpoint tries (p : provider) (retries : nat) (delay : Z) : list (provider * nat * Z) :=
  match retries with
  | O => []
  | S retries' => (p, retries', delay) :: tries p retries' (delay * 2)
  end.

Definition schedule (providers : list provider) : list (provider * nat * Z) :=
  providers ≫= λ p, tries p 3 4000.

(** The attempts of a list are made in turn, until one returns: its
    result is returned, and no further attempt is made.  A failed attempt
    leaves its failure entry, and the sleep when a retry is left. *)
Fixpoint play (currency address : string) (network : option network_config)
    (attempts : list (provider * nat * Z)) : M (option BalanceResult) :=
  match attempts with
  | [] => mret None
  | (p, retriesLeft, delay) :: attempts' =>
      fun w n =>
        match attempt cfg currency address network p w n with
        | (Normal result, n1, t1) => (Normal (Some result), n1, t1)
        | (Throw error, n1, t1) =>
            let '(returned, n2, t2) := play currency address network attempts' w n1 in
            (returned, n2,
             (t1 ++ ConsoleError (AttemptFailed (name p) address retriesLeft error)
                 :: (if (0 <? retriesLeft)%nat
                     then [ConsoleLog (WaitingBeforeRetry delay); Sleep delay]
                     else [ConsoleLog (AllRetriesFailed (name p))])
                 ++ t2)%list)
        end
  end.

Lemma retryLoop_play currency address network p retries delay rest w n :
  (returned ← retryLoop (attempt cfg currency address network p) (name p) address
                retries delay;
   match returned with
   | Some result => mret (Some result)
   | None => play currency address network rest
   end) w n
  = play currency address network (tries p retries delay ++ rest) w n.
Proof.
  revert delay n. induction retries as [|retries IH]; intros delay n.
  - cbn [retryLoop tries app]. unfold_run.
    by destruct (play currency address network rest w n) as [[returned n2] t2].
  - cbn [retryLoop tries app play]. unfold mbind, M_bind, bind, try_catch.
    destruct (attempt cfg currency address network p w n) as [[[result|error] n1] t1].
    + unfold_run. cbn. by rewrite !app_nil_r.
    + specialize (IH (delay * 2)%Z n1). unfold mbind, M_bind, bind in IH.
      destruct retries as [|retries].
      * unfold_run. cbn -[play]. cbn [tries app].
        destruct (play currency address network rest w n1) as [[returned n2] t2].
        by rewrite <- !app_assoc.
      * unfold_run. cbn -[play retryLoop tries].
        destruct (retryLoop _ _ _ (S retries) _ w n1) as [[[[result|]|e] n2] t2];
          cbn -[play tries] in IH |- *.
        -- rewrite <- IH. by rewrite <- !app_assoc, ?app_nil_r.
        -- rewrite <- IH.
           destruct (play currency address network rest w n2) as [[returned n3] t3].
           by rewrite <- !app_assoc.
        -- rewrite <- IH. by rewrite <- !app_assoc.
Qed.

(** The two loops of [getBalance] make the attempts of the schedule. *)
Lemma providerLoop_play currency address network providers w n :
  providerLoop cfg currency address network providers w n
    = play currency address network (schedule providers) w n.
Proof.
  revert n. induction providers as [|p providers IH]; intros n; [done|].
  cbn [providerLoop]. unfold schedule. cbn [mbind list_bind]. fold (schedule providers).
  rewrite <- retryLoop_play. unfold mbind, M_bind, bind.
  destruct (retryLoop _ _ _ _ _ w n) as [[[[result|]|e] n1] t1]; [done| |done].
  by rewrite IH.
Qed.

(** C1, as the script has it.  [getBalance] does not go through the
    registry: every outbound call it makes is for a provider of the list
    configured for the currency in [apiProviders] (or for a token of the
    currency, or, for bitcoin, to the aggregator), and the first provider
    of that list is requested first.  The attempts it makes are those of
    the [schedule] of the list, in order and up to the first that
    returns: a provider is attempted again only after its attempt has
    failed, three times at most, and the next provider only after the
    third failure.  So the providers fail in the order of the list, three
    times each before the next is tried, whatever the registry's rotation
    index and cooldowns are. *)
Theorem providers_from_configuration (currency address : string) :
  emits (from_configuration currency address) (getBalance cfg currency address)
  ∧ (currency ≠ "bitcoin" →
     ∀ p providers, cfg_apiProviders cfg !! currency = Some (p :: providers) →
     ∀ w n, ∃ t, (getBalance cfg currency address w n).2 = provider_request address p :: t)
  ∧ (∀ w n,
       failed_providers (getBalance cfg currency address w n).2
         `prefix_of` (default [] (cfg_apiProviders cfg !! currency)
                      ≫= λ p, replicate 3 (name p)))
  ∧ (currency ≠ "bitcoin" →
     ∀ p providers, cfg_apiProviders cfg !! currency = Some (p :: providers) →
     schedule (p :: providers)
       = ((p :: providers) ≫= λ q, [(q, 2, 4000%Z); (q, 1, 8000%Z); (q, 0, 16000%Z)])
     ∧ ∀ w n,
         getBalance cfg currency address w n
           = let '(returned, n', t) :=
               play currency address (network_of cfg currency) (schedule (p :: providers)) w n in
             (match returned with
              | Normal (Some result) => Normal result
              | Normal None => Normal zero_balance
              | Throw error => Throw error
              end, n', t)).
Proof.
  split; [apply getBalance_requests|]. split; [|split].
  - intros Hne p providers Hp w n. by eapply getBalance_first.
  - apply getBalance_failed.
  - intros Hne p providers Hp. split.
    + reflexivity.
    + intros w n. unfold getBalance.
      destruct (String.eqb_spec currency "bitcoin") as [?|_]; [done|]. rewrite Hp.
      unfold mbind, M_bind, bind. rewrite providerLoop_play.
      destruct (play _ _ _ _ w n) as [[[[result|]|e] n1] t1]; unfold_run; cbn;
        by rewrite ?app_nil_r.
Qed.

(** *** Token aggregation *)

(** The map [tokenLoop] builds from the balances looked up. *)
Definition keep_positive (tokenBalances : gmap string Z) (looked_up : string * Z)
  : gmap string Z :=
  if (0 <? looked_up.2)%Z then <[looked_up.1 := looked_up.2]> tokenBalances
  else tokenBalances.

Lemma tokenLoop_lookups currency address toks tokenBalances w n :
  tokenLoop cfg currency address toks tokenBalances w n =
    match tokenLookups cfg currency address toks w n with
    | (Normal zs, n', t) => (Normal (fold_left keep_positive zs tokenBalances), n', t)
    | (Throw e, n', t) => (Throw e, n', t)
    end.
Proof.
  revert tokenBalances n. induction toks as [|[token tc] toks IH]; intros tokenBalances n;
    [done|].
  cbn [tokenLoop tokenLookups]. unfold mbind, M_bind, bind.
  destruct (tokenLookup cfg currency address token tc w n) as [[[z|e] n1] t1]; [|done].
  rewrite IH.
  destruct (tokenLookups cfg currency address toks w n1) as [[[zs|e] n2] t2]; [|done].
  unfold_run. cbn. by rewrite app_nil_r.
Qed.

Lemma keep_positive_lookup (zs : list (string * Z)) (tokenBalances : gmap string Z)
    (s : string) (z : Z) :
  NoDup zs.*1 →
  fold_left keep_positive zs tokenBalances !! s = Some z ↔
    ((s, z) ∈ zs ∧ (0 < z)%Z)
    ∨ ((∀ z', (s, z') ∈ zs → (z' ≤ 0)%Z) ∧ tokenBalances !! s = Some z).
Proof.
  revert tokenBalances. induction zs as [|[k v] zs IH]; intros tokenBalances Hnd.
  - simpl. split; [intros ?; right; split; [by intros ? ?%elem_of_nil | done]|].
    intros [[Hin _]|[_ ?]]; [by apply elem_of_nil in Hin | done].
  - apply NoDup_cons in Hnd as [Hk Hnd]. cbn [fold_left]. rewrite (IH _ Hnd).
    assert (Hfresh : ∀ z', (k, z') ∉ zs).
    { intros z' Hin. apply Hk. apply list_elem_of_fmap. by exists (k, z'). }
    unfold keep_positive. cbn [fst snd]. setoid_rewrite elem_of_cons.
    destruct (Z.ltb_spec 0 v) as [Hv|Hv]; (destruct (decide (s = k)) as [->|Hne];
      [rewrite ?lookup_insert_eq | rewrite ?lookup_insert_ne by done]).
    + split.
      * intros [[Hin _]|[_ [= <-]]]; [by apply Hfresh in Hin | left; split; [by left | done]].
      * intros [[[[= <-]|Hin] Hz]|[Hall _]].
        -- right. split; [|done]. by intros z' ?%Hfresh.
        -- by apply Hfresh in Hin.
        -- specialize (Hall v (or_introl eq_refl)). lia.
    + split.
      * intros [[Hin Hz]|[Hall Hl]]; [left; split; [by right | done]|].
        right. split; [|done]. intros z' [[= ? ?]|Hin]; [done | by apply Hall].
      * intros [[[[= ? ?]|Hin] Hz]|[Hall Hl]]; [done | left; by split|].
        right. split; [|done]. intros z' Hin. apply Hall. by right.
    + split.
      * intros [[Hin _]|[_ Hl]]; [by apply Hfresh in Hin|].
        right. split; [|done]. intros z' [[= ->]|Hin]; [done | by apply Hfresh in Hin].
      * intros [[[[= <-]|Hin] Hz]|[Hall Hl]]; [lia | by apply Hfresh in Hin|].
        right. split; [|done]. by intros z' ?%Hfresh.
    + split.
      * intros [[Hin Hz]|[Hall Hl]]; [left; split; [by right | done]|].
        right. split; [|done]. intros z' [[= ? ?]|Hin]; [done | by apply Hall].
      * intros [[[[= ? ?]|Hin] Hz]|[Hall Hl]]; [done | left; by split|].
        right. split; [|done]. intros z' Hin. apply Hall. by right.
Qed.

Lemma tokenLookups_keys currency address toks w n zs n' t :
  tokenLookups cfg currency address toks w n = (Normal zs, n', t) → zs.*1 = toks.*1.
Proof.
  revert n zs n' t. induction toks as [|[token tc] toks IH]; intros n zs n' t.
  - by intros [= <- _ _].
  - cbn [tokenLookups]. unfold mbind, M_bind, bind.
    destruct (tokenLookup cfg currency address token tc w n) as [[[z|e] n1] t1]; [|done].
    destruct (tokenLookups cfg currency address toks w n1) as [[[zs'|e] n2] t2] eqn:Hrest;
      [|done].
    unfold_run. cbn. intros [= <- _ _]. cbn. f_equal. by eapply IH.
Qed.

(** The early result of the generic handler: tron's, with no tokens. *)
Lemma rest_balance_early_result currency address p w n early n' t :
  rest_balance currency address p w n = (Normal (inl early), n', t) →
  currency = "tron" ∧ early = {| native := BigIntAmount 0; result_tokens := Some ∅ |}.
Proof.
  destruct (String.eqb_spec currency "tron") as [->|Hne].
  2:{ intros Hrun. by destruct (rest_balance_not_early currency address p w n early n' t Hne). }
  unfold rest_balance, fetch. unfold_run.
  destruct (fetch_outcome w n (request_url address p)) as [resp|e]; [|done].
  destruct (ok resp); cbn [negb]; [|by destruct (status resp =? 429)%Z].
  repeat match goal with
         | |- context [if ?b then _ else _] => destruct b
         | |- context [match member ?o ?k with _ => _ end] => destruct (member o k)
         | |- context [match text_body ?r with _ => _ end] => destruct (text_body r)
         | |- context [match json_body ?r with _ => _ end] => destruct (json_body r)
         | |- context [match extract ?d ?q with _ => _ end] => destruct (extract d q)
         | |- context [match BigInt ?v with _ => _ end] => destruct (BigInt v)
         | |- context [match ?v with None => _ | Some _ => _ end] => destruct v
         | |- context [match ?d with JNull => _ | _ => _ end] => destruct d
         end; cbn; intros; by simplify_eq.
Qed.

Lemma nativeLookup_early_result currency address p w n early n' t :
  nativeLookup currency address p w n = (Normal (inl early), n', t) →
  currency = "tron" ∧ early = {| native := BigIntAmount 0; result_tokens := Some ∅ |}.
Proof.
  unfold nativeLookup. destruct (bool_decide _); [|destruct (String.eqb (name p) "toncenter")].
  - unfold solana_getBalance. unfold_run. by destruct (solana_outcome _ _ _ _).
  - unfold ton_getBalance. unfold_run. by destruct (ton_outcome _ _ _ _ _).
  - unfold mbind, M_bind, bind.
    destruct (rest_balance currency address p w n) as [[[[early'|z]|e] n1] t1] eqn:Hrest;
      unfold_run; cbn; intros [= <- <- <-].
    by apply rest_balance_early_result in Hrest.
Qed.

(** C4, as the script has it.  When the native lookup of an attempt
    yields a balance (positive or not) and the currency defines tokens,
    the sub-lookups of all its tokens are performed; the [tokens] of the
    result then hold a symbol exactly when the balance looked up for it
    is greater than zero, with that very value, and [tokens] is not set
    exactly when no balance looked up is: it is never the empty object.
    The early result of the native lookup is the only one returned
    without the sub-lookups: it is tron's, and its [tokens] is the empty
    object. *)
Theorem token_aggregation (currency address : string) (net : network_config)
    (p : provider) (w : world) (n : nat) :
  (∀ (toks : list (string * token_config)) (balance : amount) (n1 : nat) (t1 : list event)
     (zs : list (string * Z)) (n2 : nat) (t2 : list event),
     tokens net = Some toks →
     NoDup toks.*1 →
     nativeLookup currency address p w n = (Normal (inr balance), n1, t1) →
     tokenLookups cfg currency address toks w n1 = (Normal zs, n2, t2) →
     ∃ result,
       attempt cfg currency address (Some net) p w n =
         (Normal result, n2,
          (t1 ++ (if String.eqb currency "tron"
                  then [ConsoleLog (TronNativeBalance address balance)] else [])
              ++ t2)%list)
       ∧ native result = balance
       ∧ (∀ s z, (∃ tb, result_tokens result = Some tb ∧ tb !! s = Some z)
                 ↔ (s, z) ∈ zs ∧ (0 < z)%Z)
       ∧ (result_tokens result = None ↔ ∀ s z, (s, z) ∈ zs → (z ≤ 0)%Z)
       ∧ result_tokens result ≠ Some ∅)
  ∧ (∀ (early : BalanceResult) (n1 : nat) (t1 : list event),
       nativeLookup currency address p w n = (Normal (inl early), n1, t1) →
       attempt cfg currency address (Some net) p w n = (Normal early, n1, t1)
       ∧ currency = "tron"
       ∧ early = {| native := BigIntAmount 0; result_tokens := Some ∅ |}).
Proof.
  split.
  - intros toks balance n1 t1 zs n2 t2 Htoks Hnd Hnative Hlook.
    assert (Hmap : ∀ s z, fold_left keep_positive zs ∅ !! s = Some z
                          ↔ (s, z) ∈ zs ∧ (0 < z)%Z).
    { intros s z. rewrite keep_positive_lookup.
      - split; [intros [?|[_ ?]]; [done | by rewrite lookup_empty in *] | by left].
      - by rewrite (tokenLookups_keys _ _ _ _ _ _ _ _ Hlook). }
    set (tb := fold_left keep_positive zs ∅) in *.
    exists {| native := balance;
              result_tokens := if (0 <? size tb)%nat then Some tb else None |}.
    split; [|split; [done|split; [|split]]].
    + unfold attempt, collectTokens. unfold mbind at 1, M_bind at 1, bind at 1.
      rewrite Hnative, Htoks.
      assert (Hloop : tokenLoop cfg currency address toks ∅ w n1 = (Normal tb, n2, t2)).
      { by rewrite tokenLoop_lookups, Hlook. }
      destruct (String.eqb currency "tron"); unfold_run; cbn; rewrite Hloop;
        destruct (size tb); cbn; by rewrite ?app_nil_r.
    + intros s z. cbn [result_tokens]. rewrite <- Hmap.
      destruct (Nat.ltb_spec 0 (size tb)) as [Hsize|Hsize].
      * split; [by intros (? & [= <-] & ?) | intros ?; by exists tb].
      * assert (tb = ∅) as -> by (apply map_size_empty_iff; lia).
        rewrite lookup_empty. split; [by intros (? & ? & ?) | done].
    + cbn [result_tokens]. destruct (Nat.ltb_spec 0 (size tb)) as [Hsize|Hsize].
      * split; [done|]. intros Hall. exfalso.
        destruct (map_choose tb) as (s & z & Hs).
        { intros ->. rewrite map_size_empty in Hsize. lia. }
        apply Hmap in Hs as [Hin Hz]. specialize (Hall s z Hin). lia.
      * split; [|done]. intros _ s z Hin.
        destruct (Z.le_gt_cases z 0) as [?|Hz]; [done|]. exfalso.
        assert (tb !! s = Some z) as Hs by (apply Hmap; split; [done | lia]).
        assert (tb = ∅) as Hempty by (apply map_size_empty_iff; lia).
        by rewrite Hempty, lookup_empty in Hs.
    + cbn [result_tokens]. destruct (Nat.ltb_spec 0 (size tb)) as [Hsize|Hsize]; [|done].
      intros [= Hempty]. rewrite Hempty, map_size_empty in Hsize. lia.
  - intros early n1 t1 Hnative.
    split; [|by apply (nativeLookup_early_result _ _ _ _ _ _ _ _ Hnative)].
    unfold attempt. unfold mbind at 1, M_bind at 1, bind at 1. rewrite Hnative.
    unfold_run. by rewrite app_nil_r.
Qed.

(** *** Extraction in the pipeline *)

(** The body the generic handler reads: [response.text()] or
    [response.json()]. *)
Definition body_of (p : provider) (resp : response) : completion json :=
  if isText p then and_then (text_body resp) (λ s, Normal (JStr s)) else json_body resp.






(** *** How balances are computed *)


(** What a computation returns when it completes normally. *)
Definition returns {A} (Q : A → Prop) (m : M A) : Prop :=
  ∀ w n a n' t, m w n = (Normal a, n', t) → Q a.

Lemma returns_ret {A} (Q : A → Prop) (a : A) : Q a → returns Q (mret a).
Proof. intros Ha w n a' n' t [= <- _ _]. done. Qed.

Lemma returns_bind {A B} (P : A → Prop) (Q : B → Prop) (m : M A) (k : A → M B) :
  returns P m → (∀ a, P a → returns Q (k a)) → returns Q (m ≫= k).
Proof.
  intros Hm Hk w n b n' t. unfold mbind, M_bind, bind.
  destruct (m w n) as [[[a|e] n1] t1] eqn:Hrun; [|done].
  destruct (k a w n1) as [[r n2] t2] eqn:Hrun'. intros [= -> <- _].
  eapply Hk; [by eapply Hm | done].
Qed.

Lemma returns_try_catch {A} (Q : A → Prop) (m : M A) (handler : exn → M A) :
  returns Q m → (∀ e, returns Q (handler e)) → returns Q (try_catch m handler).
Proof.
  intros Hm Hh w n a n' t. unfold try_catch.
  destruct (m w n) as [[[a'|e] n1] t1] eqn:Hrun.
  - intros [= <- <- <-]. by eapply Hm.
  - destruct (handler e w n1) as [[r n2] t2] eqn:Hrun'. intros [= -> <- _].
    by eapply Hh.
Qed.

Lemma returns_any {A} (m : M A) : returns (λ _, True) m.
Proof. by intros w n a n' t _. Qed.

Lemma returns_throw {A} (Q : A → Prop) (e : exn) : returns Q (throw e).
Proof. by intros w n a n' t. Qed.

Lemma no_providers_returns (Q : BalanceResult → Prop) currency :
  Q zero_balance → returns Q (no_providers currency).
Proof.
  intros HQ. unfold no_providers.
  eapply returns_bind; [apply returns_any|]. intros _ _. by apply returns_ret.
Qed.

(** Where [getBalance] finds no list of providers, it returns nothing but
    the zero balance. *)
Lemma getBalance_unlisted_returns (Q : BalanceResult → Prop) currency address :
  currency ≠ "bitcoin" →
  default [] (cfg_apiProviders cfg !! currency) = [] →
  Q zero_balance →
  returns Q (getBalance cfg currency address).
Proof.
  intros Hne Hnil HQ. unfold getBalance.
  destruct (String.eqb_spec currency "bitcoin") as [?|_]; [done|].
  destruct (cfg_apiProviders cfg !! currency) as [[|p providers]|]; [|done|].
  - by apply no_providers_returns.
  - destruct (bool_decide _); [destruct (bool_decide _)|];
      first [by apply no_providers_returns | apply returns_throw].
Qed.







(** *** Bitcoin: one request, no retry *)

(** For bitcoin the provider list is not read.  [getBalance] makes exactly
    one outbound call, to the aggregator, and never sleeps or retries.
    When the call is rejected, or the body cannot be read, or the
    conversion of its balance fails, one line is written to the console
    and the zero balance is returned at once; a status outside 2xx gives
    the zero balance without a line; otherwise the balance converted is
    returned. *)
Theorem bitcoin_single_request (address : string) (w : world) (n : nat) :
  ∃ result t,
    getBalance cfg "bitcoin" address w n
      = (Normal result, S n, Fetch (AGGREGATOR ++ address) :: t)
    ∧ result_tokens result = None
    ∧ (t = [] ∨ ∃ e, t = [ConsoleError (AggregatorError e)] ∧ result = zero_balance)
    ∧ match
        and_then (fetch_outcome w n (AGGREGATOR ++ address)) (λ response,
          if ok response then
            and_then (json_body response) (λ data,
            and_then (member (Some data) "balance") (λ balance,
            and_then (smallest_units balance 1e8) (λ satoshis, Normal (Some satoshis))))
          else Normal None)
      with
      | Throw e => t = [ConsoleError (AggregatorError e)] ∧ result = zero_balance
      | Normal None => t = [] ∧ result = zero_balance
      | Normal (Some satoshis) =>
          t = [] ∧ result = {| native := BigIntAmount satoshis; result_tokens := None |}
      end.
Proof.
  unfold getBalance, getBalance_bitcoin, fetch. rewrite String.eqb_refl. unfold_run.
  destruct (fetch_outcome w n (AGGREGATOR ++ address)) as [resp|e]; cbn [and_then].
  - destruct (ok resp).
    + destruct (json_body resp) as [data|e]; cbn [and_then].
      * destruct (member (Some data) "balance") as [balance|e]; cbn [and_then].
        -- destruct (smallest_units balance 1e8) as [z|e]; cbn [and_then].
           ++ eexists _, _. split; [reflexivity|]. split; [done|]. split; [by left | done].
           ++ eexists _, _. split; [reflexivity|]. split; [done|].
              split; [right; by eexists | done].
        -- eexists _, _. split; [reflexivity|]. split; [done|].
           split; [right; by eexists | done].
      * eexists _, _. split; [reflexivity|]. split; [done|].
        split; [right; by eexists | done].
    + eexists _, _. split; [reflexivity|]. split; [done|]. split; [by left | done].
  - eexists _, _. split; [reflexivity|]. split; [done|]. split; [right; by eexists | done].
Qed.

(** *** Tron: the account that does not exist *)

(** When the answer of the generic handler for tron carries an empty
    [data] array, [getBalance] returns [{ native: 0n, tokens: {} }] after
    that single request: no token is looked up, and [tokens] is set (to
    the empty object) although no balance was found. *)
Theorem tron_empty_account (address : string) (p : provider) (providers : list provider)
    (w : world) (n : nat) (resp : response) (data : json) :
  cfg_apiProviders cfg !! "tron" = Some (p :: providers) →
  method p ≠ Some "getBalance" →
  name p ≠ "toncenter" →
  fetch_outcome w n (request_url address p) = Normal resp →
  ok resp = true →
  body_of p resp = Normal data →
  get_prop data "data" = Some (JArr []) →
  getBalance cfg "tron" address w n
    = (Normal {| native := BigIntAmount 0; result_tokens := Some ∅ |}, S n,
       [Fetch (request_url address p)]).
Proof.
  intros Hp Hmethod Hname Hfetch Hok Hbody Hdata.
  apply (getBalance_first_provider "tron" address p providers); [done | done |].
  cbn [retryLoop]. unfold attempt, nativeLookup.
  rewrite bool_decide_eq_false_2 by done.
  destruct (String.eqb_spec (name p) "toncenter") as [?|_]; [done|].
  assert (Hrest : rest_balance "tron" address p w n
            = (Normal (inl {| native := BigIntAmount 0; result_tokens := Some ∅ |}), S n,
               [Fetch (request_url address p)])).
  { unfold rest_balance, fetch. unfold mbind at 1, M_bind at 1, bind at 1.
    rewrite Hfetch, Hok. cbn [negb].
    unfold body_of in Hbody.
    assert (Hread : (if isText p then s ← lift (text_body resp); mret (JStr s)
                     else lift (json_body resp)) w (S n) = (Normal data, S n, [])).
    { destruct (isText p); unfold_run; [|by rewrite Hbody].
      by destruct (text_body resp); simplify_eq/=. }
    unfold mbind at 1, M_bind at 1, bind at 1. rewrite Hread.
    assert (member (Some data) "data" = Normal (Some (JArr []))) as Hmember
      by (destruct data; [done | cbn [member]; by rewrite Hdata ..]).
    rewrite String.eqb_refl. unfold_run. rewrite Hmember. by cbn. }
  unfold_run. rewrite Hrest. by cbn.
Qed.

(** *** Failing token lookups *)

Lemma tokenLookup_tron_normal address token tc :
  normal (tokenLookup cfg "tron" address token tc).
Proof. unfold tokenLookup. cbn [String.eqb Ascii.eqb Bool.eqb]. auto 10 with normal. Qed.

Lemma tokenLoop_tron_normal address toks tokenBalances :
  normal (tokenLoop cfg "tron" address toks tokenBalances).
Proof.
  revert tokenBalances. induction toks as [|[token tc] toks IH]; intros tokenBalances;
    cbn [tokenLoop].
  - apply normal_ret.
  - apply normal_bind; [apply tokenLookup_tron_normal | intros z; apply IH].
Qed.

(** On tron every token lookup runs in a [try] of its own: once the
    native lookup has yielded a balance, the attempt returns it, whatever
    happens to the token lookups. *)
Theorem tron_token_errors_swallowed (address : string) (net : network_config)
    (p : provider) (w : world) (n : nat) (balance : amount) (n1 : nat) (t1 : list event) :
  nativeLookup "tron" address p w n = (Normal (inr balance), n1, t1) →
  ∃ toks n2 t2,
    attempt cfg "tron" address (Some net) p w n
      = (Normal {| native := balance; result_tokens := toks |}, n2,
         (t1 ++ ConsoleLog (TronNativeBalance address balance) :: t2)%list).
Proof.
  intros Hnative. unfold attempt. unfold mbind at 1, M_bind at 1, bind at 1.
  rewrite Hnative. rewrite String.eqb_refl.
  assert (Hcollect : normal (collectTokens cfg "tron" address (Some net))).
  { unfold collectTokens. destruct (tokens net) as [toks|]; [|apply normal_ret].
    apply normal_bind; [apply tokenLoop_tron_normal|].
    intros tb. destruct (0 <? size tb)%nat; apply normal_ret. }
  destruct (Hcollect w n1) as (toks & n2 & t2 & Hrun).
  exists toks, n2, t2. unfold_run. rewrite Hrun. cbn. by rewrite app_nil_r.
Qed.

(** A failed attempt that leaves a retry: the failure entry, the sleep,
    and the loop again with the delay doubled. *)
Lemma retryLoop_retry body providerName address retries delay w n e n1 t1 :
  (0 < retries)%nat →
  body w n = (Throw e, n1, t1) →
  retryLoop body providerName address (S retries) delay w n
    = let '(returned, n2, t2) :=
        retryLoop body providerName address retries (delay * 2) w n1 in
      (returned, n2,
       (t1 ++ [ConsoleError (AttemptFailed providerName address retries e);
               ConsoleLog (WaitingBeforeRetry delay); Sleep delay] ++ t2)%list).
Proof.
  intros Hpos Hbody. cbn [retryLoop]. unfold mbind, M_bind, bind, try_catch.
  rewrite Hbody. destruct retries as [|retries]; [lia|].
  unfold_run. cbn -[retryLoop].
  destruct (retryLoop body providerName address (S retries) (delay * 2) w n1)
    as [[returned n2] t2].
  by rewrite <- !app_assoc.
Qed.

(** On ethereum the USDT lookup runs in the [try] of the attempt: when
    its request is rejected, the attempt fails although the native balance
    was obtained, and the provider is asked for it again after the first
    delay. *)
Theorem ethereum_token_failure_fails_attempt (address : string) (net : network_config)
    (tc : token_config) (toks : list (string * token_config)) (p : provider)
    (w : world) (n : nat) (balance : amount) (n1 : nat) (t1 : list event) (e : exn) :
  tokens net = Some (("usdt", tc) :: toks) →
  nativeLookup "ethereum" address p w n = (Normal (inr balance), n1, t1) →
  fetch_outcome w n1 (AGGREGATOR ++ "usdt/erc/" ++ address) = Throw e →
  let failed := (t1 ++ [ConsoleLog (CheckingUsdt ERC20 address);
                        Fetch (AGGREGATOR ++ "usdt/erc/" ++ address)])%list in
  attempt cfg "ethereum" address (Some net) p w n = (Throw e, S n1, failed)
  ∧ ∃ returned n2 t2,
      retryLoop (attempt cfg "ethereum" address (Some net) p) (name p) address 3 4000 w n
        = (returned, n2,
           (failed ++ [ConsoleError (AttemptFailed (name p) address 2 e);
                       ConsoleLog (WaitingBeforeRetry 4000); Sleep 4000] ++ t2)%list).
Proof.
  intros Htoks Hnative Hfetch failed.
  assert (Hattempt : attempt cfg "ethereum" address (Some net) p w n
                     = (Throw e, S n1, failed)).
  { unfold attempt. unfold mbind at 1, M_bind at 1, bind at 1. rewrite Hnative.
    unfold collectTokens. rewrite Htoks. cbn [tokenLoop]. unfold tokenLookup.
    cbn [String.eqb Ascii.eqb Bool.eqb]. unfold fetch. unfold_run. by rewrite Hfetch. }
  split; [done|].
  rewrite (retryLoop_retry _ _ _ 2 _ _ _ _ _ _ ltac:(lia) Hattempt).
  destruct (retryLoop _ _ _ _ _ w (S n1)) as [[returned n2] t2].
  by exists returned, n2, t2.
Qed.

(** *** How long a lookup may sleep *)

Lemma total_sleep_app t1 t2 : total_sleep (t1 ++ t2) = (total_sleep t1 + total_sleep t2)%Z.
Proof.
  unfold total_sleep. rewrite sleeps_app.
  induction (sleeps t1) as [|ms l IH]; simpl; [done | lia].
Qed.

(** The sleeps of a trace are of 4 or 8 seconds, and there are at most
    12 seconds of them, and at most 3 failure entries, for each of [k]
    providers. *)
Definition sleeps_within (k : nat) (t : list event) : Prop :=
  Forall (λ ms, ms = 4000 ∨ ms = 8000)%Z (sleeps t)
  ∧ (0 ≤ total_sleep t ≤ 12000 * Z.of_nat k)%Z
  ∧ (failure_entries t ≤ 3 * k)%nat.

Lemma sleeps_within_app k1 k2 t1 t2 :
  sleeps_within k1 t1 → sleeps_within k2 t2 → sleeps_within (k1 + k2) (t1 ++ t2).
Proof.
  intros (Hall1 & Htotal1 & Hfail1) (Hall2 & Htotal2 & Hfail2). unfold sleeps_within.
  rewrite sleeps_app, total_sleep_app, failure_entries_app.
  split; [by apply Forall_app | lia].
Qed.

Lemma sleeps_within_quiet k t : Forall attempt_event t → sleeps_within k t.
Proof.
  intros Ht. unfold sleeps_within, total_sleep.
  rewrite (attempt_events_sleeps _ Ht), (attempt_events_failures _ Ht).
  cbn. split; [constructor | lia].
Qed.

Lemma sleeps_within_mono k k' t : (k ≤ k')%nat → sleeps_within k t → sleeps_within k' t.
Proof. intros Hk (Hall & Htotal & Hfail). unfold sleeps_within. split; [done | lia]. Qed.

Lemma retryLoop_sleep_bound body providerName address w n :
  emits attempt_event body →
  sleeps_within 1 (retryLoop body providerName address 3 4000 w n).2.
Proof.
  intros Hbody. pose proof (retryLoop_schedule body providerName address 3 4000 w n Hbody) as Hlaw.
  destruct (retryLoop body providerName address 3 4000 w n) as [[returned n'] t].
  destruct Hlaw as (Hsleeps & Hle & _ & _). cbn [snd].
  change (3 - 1) with 2 in Hsleeps. unfold sleeps_within, total_sleep. rewrite Hsleeps.
  pose proof (Nat.le_min_r (failure_entries t) 2) as Hk.
  revert Hk. generalize (failure_entries t `min` 2). intros k Hk.
  assert (k = 0 ∨ k = 1 ∨ k = 2)%nat as [-> | [-> | ->]] by lia;
    (split; [|split; [cbn; lia | lia]]);
    repeat first [ apply Forall_nil_2 | apply Forall_cons_2; [vm_compute; by auto|] ].
Qed.

Lemma providerLoop_sleep_bound currency address network providers w n :
  sleeps_within (length providers)
    (providerLoop cfg currency address network providers w n).2.
Proof.
  revert n. induction providers as [|p providers IH]; intros n.
  { by apply sleeps_within_quiet. }
  cbn [providerLoop]. unfold mbind, M_bind, bind.
  pose proof (retryLoop_sleep_bound (attempt cfg currency address network p) (name p) address
                w n (attempt_events _ _ _ _)) as Hloop.
  destruct (retryLoop _ _ _ _ _ w n) as [[returned n1] t1]. cbn [snd] in Hloop.
  destruct returned as [[result|]|e].
  - unfold_run. cbn [snd length]. rewrite app_nil_r.
    eapply sleeps_within_mono; [|done]. lia.
  - specialize (IH n1).
    destruct (providerLoop cfg currency address network providers w n1) as [[r n2] t2].
    cbn [snd length] in *. by apply (sleeps_within_app 1).
  - cbn [snd length]. eapply sleeps_within_mono; [|done]. lia.
Qed.

(** Whatever the world answers, [getBalance] sleeps for 4 or 8 seconds at
    a time, for at most 12 seconds per provider configured for the
    currency, and writes at most 3 failure entries per provider.  (The
    currency names no inherited property: see [Object_prototype].) *)
Theorem getBalance_sleep_bound (currency address : string) (w : world) (n : nat) :
  currency ∉ Object_prototype →
  let t := (getBalance cfg currency address w n).2 in
  let providers := default [] (cfg_apiProviders cfg !! currency) in
  Forall (λ ms, ms = 4000 ∨ ms = 8000)%Z (sleeps t)
  ∧ (0 ≤ total_sleep t ≤ 12000 * Z.of_nat (length providers))%Z
  ∧ (failure_entries t ≤ 3 * length providers)%nat.
Proof.
  intros _. cbv zeta.
  fold (sleeps_within (length (default [] (cfg_apiProviders cfg !! currency)))
          (getBalance cfg currency address w n).2).
  destruct (String.eqb_spec currency "bitcoin") as [->|Hne].
  { apply sleeps_within_quiet. unfold getBalance. cbn [String.eqb Ascii.eqb Bool.eqb].
    apply getBalance_bitcoin_events. }
  destruct (cfg_apiProviders cfg !! currency) as [[|p providers]|] eqn:Hp.
  1, 3: apply sleeps_within_quiet, getBalance_unlisted_events; [done | by rewrite Hp].
  unfold getBalance.
  destruct (String.eqb_spec currency "bitcoin") as [?|_]; [done|]. rewrite Hp.
  unfold mbind, M_bind, bind.
  pose proof (providerLoop_sleep_bound currency address (network_of cfg currency)
                (p :: providers) w n) as Hloop.
  destruct (providerLoop _ _ _ _ _ w n) as [[[[r|]|e] n1] t1];
    unfold_run; cbn [snd from_option id] in *; by rewrite ?app_nil_r.
Qed.

(** *** The request of the generic handler *)

Lemma replace_placeholder (rep a b : string) :
  string_forall (λ c, negb (Ascii.eqb c "{")) a = true →
  replace "{address}" rep (a ++ "{address}" ++ b) = a ++ rep ++ b.
Proof.
  induction a as [|c a IH]; [intros _; by destruct b|].
  simpl string_forall. intros [Hc Ha]%andb_true_iff.
  rewrite !JsProofs.string_app_cons.
  cbn [replace String.prefix].
  destruct (ascii_dec "{" c) as [<-|_]; [done|].
  f_equal. exact (IH Ha).
Qed.

(** The generic handler substitutes the address for the first
    [{address}] of the base URL only (a second placeholder stays as it
    is), and appends [&apikey=<key>] exactly when the provider has a key
    that is not empty.  (The address holds no [$], which [replace] would
    read as a pattern.) *)
Theorem address_substituted_once (address : string) (p : provider) (a b : string) :
  baseURL p = a ++ "{address}" ++ b →
  string_forall (λ c, negb (Ascii.eqb c "{")) a = true →
  string_forall (λ c, negb (Ascii.eqb c "$")) address = true →
  request_url address p
    = (a ++ address ++ b)
      ++ match apiKey p with
         | Some key => if String.eqb key "" then "" else "&apikey=" ++ key
         | None => ""
         end.
Proof.
  intros Hurl Ha _. unfold request_url. rewrite Hurl, (replace_placeholder _ _ _ Ha).
  destruct (apiKey p) as [key|]; [|by rewrite JsProofs.string_app_nil_r].
  destruct (String.eqb key ""); [by rewrite JsProofs.string_app_nil_r | done].
Qed.

(** *** The tokens of a result *)

(** Token balances that are greater than zero, and belong to tokens the
    network defines. *)
Definition tokens_of (network : option network_config) (tokenBalances : gmap string Z)
  : Prop :=
  ∀ s z, tokenBalances !! s = Some z →
    (0 < z)%Z ∧ ∃ names tc, network ≫= tokens = Some names ∧ (s, tc) ∈ names.

Lemma returns_mono {A} (P Q : A → Prop) (m : M A) :
  (∀ a, P a → Q a) → returns P m → returns Q m.
Proof. intros HPQ Hm w n a n' t Hrun. eapply HPQ, Hm, Hrun. Qed.

Lemma tokenLoop_tokens currency address toks tokenBalances :
  returns (λ tokenBalances', ∀ s z, tokenBalances' !! s = Some z →
             tokenBalances !! s = Some z ∨ ((0 < z)%Z ∧ ∃ tc, (s, tc) ∈ toks))
    (tokenLoop cfg currency address toks tokenBalances).
Proof.
  revert tokenBalances. induction toks as [|[token tc] toks IH]; intros tokenBalances;
    cbn [tokenLoop].
  - apply returns_ret. auto.
  - eapply returns_bind; [apply returns_any|]. intros v _.
    eapply returns_mono; [|apply IH]. intros tb Htb s z Hs.
    destruct (Htb s z Hs) as [Hold|(Hz & tc' & Hin)].
    + destruct (Z.ltb_spec 0 v) as [Hv|Hv]; [|by left].
      destruct (decide (s = token)) as [->|Hne].
      * rewrite lookup_insert_eq in Hold. injection Hold as <-.
        right. split; [done|]. exists tc. by left.
      * rewrite lookup_insert_ne in Hold by done. by left.
    + right. split; [done|]. exists tc'. by right.
Qed.

Lemma collectTokens_tokens currency address network :
  returns (λ toks, ∀ tokenBalances, toks = Some tokenBalances → tokens_of network tokenBalances)
    (collectTokens cfg currency address network).
Proof.
  unfold collectTokens. destruct network as [net|]; [|by intros w n a n' t].
  destruct (tokens net) as [names|] eqn:Hnames; [|by apply returns_ret].
  eapply returns_bind; [apply tokenLoop_tokens|]. intros tb Htb.
  destruct (0 <? size tb)%nat; apply returns_ret; [|done].
  intros ? [= <-] s z Hs. destruct (Htb s z Hs) as [Hempty|(Hz & tc & Hin)].
  - by rewrite lookup_empty in Hempty.
  - split; [done|]. exists names, tc. by rewrite <- Hnames.
Qed.

Lemma rest_balance_early currency address p :
  returns (λ r, match r with
                | inl early => result_tokens early = Some ∅
                | inr _ => True
                end)
    (rest_balance currency address p).
Proof.
  unfold rest_balance.
  repeat first
    [ apply returns_ret; done
    | eapply returns_bind; [apply returns_any | intros ? _]
    | intros ? ? ? ? ? ?; by unfold_run
    | match goal with
      | |- returns _ (if ?b then _ else _) => destruct b
      | |- returns _ (match ?x with _ => _ end) => destruct x
      end ].
Qed.

Lemma attempt_tokens currency address network p :
  returns (λ result, ∀ tokenBalances, result_tokens result = Some tokenBalances →
             tokens_of network tokenBalances)
    (attempt cfg currency address network p).
Proof.
  unfold attempt.
  apply returns_bind with
    (P := λ r, match r with
               | inl early => result_tokens early = Some ∅
               | inr _ => True
               end).
  - unfold nativeLookup. destruct (bool_decide _).
    + eapply returns_bind; [apply returns_any|]. intros f _. by apply returns_ret.
    + destruct (String.eqb (name p) "toncenter").
      * eapply returns_bind; [apply returns_any|]. intros z _. by apply returns_ret.
      * eapply returns_bind; [apply rest_balance_early|].
        intros [early|z] Hr; by apply returns_ret.
  - intros [early|balance] Hr.
    + apply returns_ret. intros tb Htb s z Hs.
      rewrite Hr in Htb. injection Htb as <-. by rewrite lookup_empty in Hs.
    + eapply returns_bind; [apply returns_any|]. intros _ _.
      eapply returns_bind; [apply collectTokens_tokens|]. intros toks Htoks.
      apply returns_ret. intros tb Htb. by apply Htoks.
Qed.

Lemma retryLoop_tokens currency address network p retries delay :
  returns (λ returned, ∀ result tokenBalances,
             returned = Some result → result_tokens result = Some tokenBalances →
             tokens_of network tokenBalances)
    (retryLoop (attempt cfg currency address network p) (name p) address retries delay).
Proof.
  revert delay. induction retries as [|retries IH]; intros delay; cbn [retryLoop].
  - by apply returns_ret.
  - apply returns_bind with
      (P := λ outcome, ∀ result tokenBalances,
              outcome = Returned result → result_tokens result = Some tokenBalances →
              tokens_of network tokenBalances).
    + apply returns_try_catch.
      * eapply returns_bind; [apply attempt_tokens|].
        intros result Hr. apply returns_ret. intros ? ? [= <-]. apply Hr.
      * intros e.
        repeat first
          [ apply returns_ret; done
          | eapply returns_bind; [apply returns_any | intros ? _]
          | match goal with |- returns _ (if ?b then _ else _) => destruct b end ].
    + intros [result|delay'|] Ho; [|apply IH|by apply returns_ret].
      apply returns_ret. intros ? ? [= <-]. by apply Ho.
Qed.

Lemma providerLoop_tokens currency address network providers :
  returns (λ returned, ∀ result tokenBalances,
             returned = Some result → result_tokens result = Some tokenBalances →
             tokens_of network tokenBalances)
    (providerLoop cfg currency address network providers).
Proof.
  induction providers as [|p providers IH]; cbn [providerLoop].
  - by apply returns_ret.
  - eapply returns_bind; [apply retryLoop_tokens|].
    intros [result|] Hr; [|apply IH].
    apply returns_ret. intros ? ? [= <-]. by apply Hr.
Qed.

Lemma getBalance_bitcoin_no_tokens address :
  returns (λ result, result_tokens result = None) (getBalance_bitcoin address).
Proof.
  unfold getBalance_bitcoin.
  apply returns_bind with (P := λ returned, ∀ r, returned = Some r → result_tokens r = None).
  - apply returns_try_catch.
    + eapply returns_bind; [apply returns_any|]. intros resp _.
      destruct (ok resp); [|by apply returns_ret].
      do 3 (eapply returns_bind; [apply returns_any|]; intros ? _).
      apply returns_ret. by intros ? [= <-].
    + intros e. eapply returns_bind; [apply returns_any|]. intros _ _.
      by apply returns_ret.
  - intros [r|] Hr; apply returns_ret; [by apply Hr | done].
Qed.

Lemma getBalance_returns_tokens currency address :
  returns (λ result, ∀ tokenBalances, result_tokens result = Some tokenBalances →
             currency ≠ "bitcoin"
             ∧ default [] (cfg_apiProviders cfg !! currency) ≠ []
             ∧ tokens_of (network_of cfg currency) tokenBalances)
    (getBalance cfg currency address).
Proof.
  destruct (String.eqb_spec currency "bitcoin") as [->|Hne].
  { unfold getBalance. cbn [String.eqb Ascii.eqb Bool.eqb].
    eapply returns_mono; [|apply getBalance_bitcoin_no_tokens].
    intros result Hnone tb Htb. by rewrite Hnone in Htb. }
  destruct (cfg_apiProviders cfg !! currency) as [[|p providers]|] eqn:Hp.
  1, 3: by apply getBalance_unlisted_returns; [done | by rewrite Hp |].
  unfold getBalance.
  destruct (String.eqb_spec currency "bitcoin") as [?|_]; [done|]. rewrite Hp.
  eapply returns_bind; [apply providerLoop_tokens|].
  intros [r|] Hr; apply returns_ret; intros tb Htb; [|done].
  split; [done|]. split; [done|]. by eapply Hr.
Qed.

(** The tokens of an entry of [networks] that is inherited: none. *)
Lemma tokens_of_network_of currency tokenBalances :
  tokens_of (network_of cfg currency) tokenBalances →
  tokens_of (cfg_networks cfg !! currency) tokenBalances.
Proof.
  unfold network_of. destruct (cfg_networks cfg !! currency) as [net|]; [done|].
  destruct (bool_decide _); [|done].
  intros Hof s z Hs. destruct (Hof s z Hs) as (_ & names & tc & Hnames & _). done.
Qed.

(** Whatever [getBalance] returns, every token balance in it is greater
    than zero and is the balance of a token that the network of the
    currency defines; for bitcoin, and where no provider is configured,
    the result has no tokens.  (The currency names no inherited property:
    see [Object_prototype].) *)
Theorem getBalance_tokens (currency address : string) (w : world) (n : nat)
    (result : BalanceResult) (n' : nat) (t : list event) (tokenBalances : gmap string Z) :
  currency ∉ Object_prototype →
  getBalance cfg currency address w n = (Normal result, n', t) →
  result_tokens result = Some tokenBalances →
  currency ≠ "bitcoin"
  ∧ default [] (cfg_apiProviders cfg !! currency) ≠ []
  ∧ tokens_of (cfg_networks cfg !! currency) tokenBalances.
Proof.
  intros _ Hrun Htoks.
  destruct (getBalance_returns_tokens currency address w n result n' t Hrun _ Htoks)
    as (Hne & Hproviders & Hof).
  split; [done|]. split; [done|]. by apply tokens_of_network_of.
Qed.

Lemma getBalance_tokens_scanned (currency address : string) (w : world) (n : nat)
    (result : BalanceResult) (n' : nat) (t : list event) (tokenBalances : gmap string Z) :
  getBalance cfg currency address w n = (Normal result, n', t) →
  result_tokens result = Some tokenBalances →
  tokens_of (cfg_networks cfg !! currency) tokenBalances.
Proof.
  intros Hrun Htoks. apply tokens_of_network_of.
  by apply (getBalance_returns_tokens currency address w n result n' t Hrun).
Qed.

End PipelineProofs.

(** ** The exchange-rate cache *)

(** The hardcoded fallback rate of a tracked currency. *)
Definition fallback_rate (currency : string) : option json :=
  if String.eqb currency "bitcoin" then Some (JNum 60000)
  else if String.eqb currency "ethereum" then Some (JNum 3000)
  else if String.eqb currency "solana" then Some (JNum 150)
  else if String.eqb currency "ton" then Some (JNum 6)
  else if String.eqb currency "usdt" then Some (JNum 1)
  else None.

(** A refresh fails as a whole: [fetch] is rejected, the response is not
    ok, its body is no JSON value (or is [null]), or it carries the error
    indicator [Response: 'Error']. *)
Definition refresh_failed (outcome : completion response) : Prop :=
  match outcome with
  | Throw _ => True
  | Normal resp =>
      ok resp = false
      ∨ match json_body resp with
        | Throw _ => True
        | Normal JNull => True
        | Normal data => get_prop data "Response" = Some (JStr "Error")
        end
  end.

(** A refresh succeeds with the body [data]. *)
Definition refresh_succeeded (outcome : completion response) (data : json) : Prop :=
  ∃ resp, outcome = Normal resp ∧ ok resp = true ∧ json_body resp = Normal data
          ∧ data ≠ JNull ∧ get_prop data "Response" ≠ Some (JStr "Error").

Lemma fallbackRates_lookup (cache : gmap string json) (currency : string) :
  fallbackRates cache !! currency
    = match fallback_rate currency with
      | Some rate => Some rate
      | None => cache !! currency
      end.
Proof.
  unfold fallbackRates, fallback_rate.
  repeat match goal with
         | |- context [String.eqb currency ?k] =>
             destruct (String.eqb_spec currency k) as [->|?]
         end;
    repeat first [ rewrite lookup_insert_eq | rewrite lookup_insert_ne by done ]; done.
Qed.

Lemma fallbackRates_getExchangeRate (cache : gmap string json) (currency : string) rate :
  fallback_rate currency = Some rate →
  getExchangeRate (fallbackRates cache) currency = rate.
Proof.
  intros Hrate. unfold getExchangeRate. rewrite fallbackRates_lookup, Hrate.
  unfold fallback_rate in Hrate.
  repeat match type of Hrate with
         | context [String.eqb currency ?k] => destruct (String.eqb currency k)
         end; by simplify_eq.
Qed.

Lemma updateRate_other (data : json) (cache : gmap string json) (symbol currency : string) :
  currencyOfSymbol symbol ≠ Some currency →
  updateRate data cache symbol !! currency = cache !! currency.
Proof.
  intros Hne. unfold updateRate.
  destruct (currencyOfSymbol symbol) as [c|]; [|done].
  destruct (truthy _ && truthy _); [|done].
  destruct (prop _ _); [|done].
  apply lookup_insert_ne. congruence.
Qed.

Lemma updateRates_untouched (data : json) (keys : list string) (cache : gmap string json)
    (currency : string) :
  (∀ symbol, symbol ∈ keys → currencyOfSymbol symbol ≠ Some currency) →
  fold_left (updateRate data) keys cache !! currency = cache !! currency.
Proof.
  revert cache. induction keys as [|symbol keys IH]; intros cache Hkeys; [done|].
  cbn [fold_left]. rewrite IH.
  - apply updateRate_other, Hkeys. by left.
  - intros symbol' Hin. apply Hkeys. by right.
Qed.

Lemma updateAllExchangeRates_failed (cache : gmap string json) (w : world) (n : nat) :
  refresh_failed (fetch_outcome w n RATES_URL) →
  (updateAllExchangeRates cache w n).1.1 = Normal (fallbackRates cache).
Proof.
  unfold refresh_failed, updateAllExchangeRates, fetch.
  unfold_run.
  destruct (fetch_outcome w n RATES_URL) as [resp|e]; [|done].
  destruct (json_body resp) as [data|e]; [|done].
  destruct (ok resp).
  - intros [?|Hdata]; [done|].
    destruct data; try done; cbn in *; rewrite ?Hdata; try done.
    all: by repeat case_match.
  - intros _. by destruct (member (Some data) "Message").
Qed.

Lemma updateAllExchangeRates_succeeded (cache : gmap string json) (w : world) (n : nat)
    (data : json) :
  refresh_succeeded (fetch_outcome w n RATES_URL) data →
  (updateAllExchangeRates cache w n).1.1
    = Normal (fold_left (updateRate data) (enumerableKeys data) cache).
Proof.
  intros (resp & Hfetch & Hok & Hbody & Hnull & Hresp).
  unfold updateAllExchangeRates, fetch. unfold_run.
  rewrite Hfetch, Hbody, Hok.
  assert (member (Some data) "Response" = Normal (get_prop data "Response")) as ->
    by by destruct data.
  assert (is_not_Error (get_prop data "Response") = true) as ->.
  { destruct (get_prop data "Response") as [[| | |s| |]|]; try done.
    simpl. destruct (String.eqb_spec s "Error") as [->|?]; done. }
  done.
Qed.

(** C9. A refresh never throws.  When it fails as a whole, the cache it
    leaves holds the hardcoded fallback rate of every tracked currency,
    and [getExchangeRate] returns it (60000 for bitcoin), whatever the
    cache held before.  When it succeeds, the entry of a currency whose
    symbol is not in the response is left as it was. *)
Theorem rates_refresh (cache : gmap string json) (w : world) (n : nat) :
  ∃ cache', (updateAllExchangeRates cache w n).1.1 = Normal cache'
    ∧ (refresh_failed (fetch_outcome w n RATES_URL) →
       (∀ currency rate, fallback_rate currency = Some rate →
          cache' !! currency = Some rate ∧ getExchangeRate cache' currency = rate)
       ∧ (∀ currency, currency ∈ mobulaSymbols.*1 → is_Some (fallback_rate currency))
       ∧ getExchangeRate cache' "bitcoin" = JNum 60000)
    ∧ (∀ data, refresh_succeeded (fetch_outcome w n RATES_URL) data →
       ∀ currency,
         (∀ symbol, symbol ∈ enumerableKeys data → currencyOfSymbol symbol ≠ Some currency) →
         cache' !! currency = cache !! currency).
Proof.
  assert (Hnormal : normal (updateAllExchangeRates cache)).
  { unfold updateAllExchangeRates. apply normal_bind; [apply normal_emit|].
    intros _. apply normal_try_catch. intros e. auto 10 with normal. }
  destruct (Hnormal w n) as (cache' & n' & t & Hrun).
  exists cache'. rewrite Hrun. split; [done|]. split.
  - intros Hfailed. pose proof (updateAllExchangeRates_failed cache w n Hfailed) as Hf.
    rewrite Hrun in Hf. injection Hf as ->. split; [|split].
    + intros currency rate Hrate. split.
      * by rewrite fallbackRates_lookup, Hrate.
      * by apply fallbackRates_getExchangeRate.
    + intros currency Hin. unfold mobulaSymbols in Hin. cbn in Hin.
      repeat (apply elem_of_cons in Hin as [->|Hin]; [by eexists|]).
      by apply elem_of_nil in Hin.
    + by apply fallbackRates_getExchangeRate.
  - intros data Hok currency Hkeys.
    pose proof (updateAllExchangeRates_succeeded cache w n data Hok) as Hs.
    rewrite Hrun in Hs. injection Hs as ->. by apply updateRates_untouched.
Qed.

(** *** What a refresh writes *)

Lemma currencyOfSymbol_tracked (symbol currency : string) :
  currencyOfSymbol symbol = Some currency → (currency, symbol) ∈ mobulaSymbols.
Proof.
  unfold currencyOfSymbol, mobulaSymbols. cbn [List.find snd].
  repeat match goal with
         | |- context [String.eqb ?k symbol] => destruct (String.eqb_spec k symbol) as [<-|?]
         end; intros [= <-]; apply list_elem_of_In; simpl; tauto.
Qed.

Lemma tracked_currencyOfSymbol (symbol currency : string) :
  (currency, symbol) ∈ mobulaSymbols → currencyOfSymbol symbol = Some currency.
Proof.
  intros Hin. apply list_elem_of_In in Hin. simpl in Hin.
  repeat (destruct Hin as [[= <- <-]|Hin]; [done|]). done.
Qed.

(** A currency has one symbol. *)
Lemma tracked_symbol_unique (symbol symbol' currency : string) :
  (currency, symbol) ∈ mobulaSymbols → (currency, symbol') ∈ mobulaSymbols →
  symbol' = symbol.
Proof.
  intros Hin Hin'. apply list_elem_of_In in Hin, Hin'. simpl in Hin, Hin'.
  repeat (destruct Hin as [Hin|Hin];
          [simplify_eq; repeat (destruct Hin' as [Hin'|Hin']; [by simplify_eq|]); done|]).
  done.
Qed.

Lemma fallback_rate_tracked (currency : string) (rate : json) :
  fallback_rate currency = Some rate → currency ∈ mobulaSymbols.*1.
Proof.
  unfold fallback_rate.
  repeat match goal with
         | |- context [String.eqb currency ?k] =>
             destruct (String.eqb_spec currency k) as [->|?]
         end; try done; intros _; apply list_elem_of_In; simpl; tauto.
Qed.

(** A refresh leaves the entry of a currency that is not tracked as it
    found it. *)
Lemma refresh_untracked (cache : gmap string json) (w : world) (n : nat)
    (currency : string) (cache' : gmap string json) :
  currency ∉ mobulaSymbols.*1 →
  (updateAllExchangeRates cache w n).1.1 = Normal cache' →
  cache' !! currency = cache !! currency.
Proof.
  intros Hnot.
  assert (Hfallback : fallbackRates cache !! currency = cache !! currency).
  { rewrite fallbackRates_lookup. destruct (fallback_rate currency) as [rate|] eqn:Hrate; [|done].
    by apply fallback_rate_tracked in Hrate. }
  assert (Hfold : ∀ data, fold_left (updateRate data) (enumerableKeys data) cache !! currency
                          = cache !! currency).
  { intros data. apply updateRates_untouched. intros symbol _ Hsym.
    apply currencyOfSymbol_tracked in Hsym. apply Hnot.
    apply list_elem_of_fmap. by exists (currency, symbol). }
  unfold updateAllExchangeRates, fetch. unfold_run.
  destruct (fetch_outcome w n RATES_URL) as [resp|e]; [|by intros [= <-]].
  destruct (json_body resp) as [data|e]; [|by intros [= <-]].
  destruct (ok resp).
  - destruct (member (Some data) "Response") as [r|e]; [|by intros [= <-]].
    cbn. destruct (is_not_Error r); cbn.
    + intros [= <-]. apply Hfold.
    + destruct data; cbn; by intros [= <-].
  - cbn. destruct data; cbn; by intros [= <-].
Qed.

(** The cache after a series of refreshes, each answered in its own way. *)
Fixpoint refreshes (runs : list (world * nat)) (cache : gmap string json)
  : gmap string json :=
  match runs with
  | [] => cache
  | (w, n) :: runs' =>
      match (updateAllExchangeRates cache w n).1.1 with
      | Normal cache' => refreshes runs' cache'
      | Throw _ => refreshes runs' cache
      end
  end.

(** Only the currencies of [mobulaSymbols] ever get a rate: from the empty
    cache the script starts with, and whatever the refreshes are answered,
    [getExchangeRate] returns 0 for any other currency (that names no
    inherited property: see [Object_prototype]).  Tron is one: it is
    scanned, and has no symbol. *)
Theorem untracked_currency_never_rated (runs : list (world * nat)) (currency : string) :
  currency ∉ mobulaSymbols.*1 →
  currency ∉ Object_prototype →
  getExchangeRate (refreshes runs ∅) currency = JNum 0.
Proof.
  intros Hnot _.
  assert (Hkeep : ∀ cache, cache !! currency = None → refreshes runs cache !! currency = None).
  { induction runs as [|[w n] runs IH]; intros cache Hcache; [done|].
    cbn [refreshes].
    destruct (updateAllExchangeRates cache w n).1.1 as [cache'|e] eqn:Hrun; [|by apply IH].
    apply IH. by rewrite (refresh_untracked cache w n currency cache' Hnot Hrun). }
  unfold getExchangeRate. by rewrite Hkeep.
Qed.

(** The USD price a response quotes for a symbol: [data[symbol].USD],
    when both [data[symbol]] and it are truthy. *)
Definition quoted (data : json) (symbol : string) : option json :=
  let entry := get_prop data symbol in
  if truthy entry && truthy (prop entry "USD") then prop entry "USD" else None.

Lemma assoc_Some_key (k : string) (fields : list (string * json)) (v : json) :
  assoc k fields = Some v → k ∈ map fst fields.
Proof.
  induction fields as [|[k' v'] fields IH]; [done|]. simpl.
  destruct (String.eqb_spec k' k) as [->|_]; [intros _; left | intros ?; right; auto].
Qed.

Lemma quoted_key (data : json) (symbol currency : string) (usd : json) :
  (currency, symbol) ∈ mobulaSymbols →
  quoted data symbol = Some usd → symbol ∈ enumerableKeys data.
Proof.
  intros Hin. unfold quoted.
  destruct (get_prop data symbol) as [entry|] eqn:Hentry; [|done]. intros _.
  destruct data as [| | |s|items|fields]; try done.
  - apply list_elem_of_In in Hin. simpl in Hin.
    repeat (destruct Hin as [[= <- <-]|Hin]; [done|]). done.
  - apply list_elem_of_In in Hin. simpl in Hin.
    repeat (destruct Hin as [[= <- <-]|Hin]; [done|]). done.
  - simpl in *. by eapply assoc_Some_key.
Qed.

Lemma updateRate_quoted (data : json) (cache : gmap string json) (symbol currency : string) :
  (currency, symbol) ∈ mobulaSymbols →
  updateRate data cache symbol !! currency
    = match quoted data symbol with
      | Some usd => Some usd
      | None => cache !! currency
      end.
Proof.
  intros Hin. unfold updateRate, quoted. rewrite (tracked_currencyOfSymbol _ _ Hin).
  cbv zeta. destruct (truthy (get_prop data symbol) && truthy (prop (get_prop data symbol) "USD"))
    eqn:Htruthy; [|done].
  destruct (prop (get_prop data symbol) "USD") as [usd|]; [apply lookup_insert_eq | done].
Qed.

Lemma updateRates_quoted (data : json) (keys : list string) (cache : gmap string json)
    (symbol currency : string) :
  (currency, symbol) ∈ mobulaSymbols →
  fold_left (updateRate data) keys cache !! currency
    = if bool_decide (symbol ∈ keys)
      then match quoted data symbol with
           | Some usd => Some usd
           | None => cache !! currency
           end
      else cache !! currency.
Proof.
  intros Hin. revert cache. induction keys as [|s keys IH]; intros cache; [done|].
  cbn [fold_left]. rewrite IH.
  destruct (decide (s = symbol)) as [->|Hne].
  - rewrite (bool_decide_eq_true_2 (symbol ∈ symbol :: keys)) by left.
    rewrite updateRate_quoted by done.
    destruct (bool_decide (symbol ∈ keys)); by destruct (quoted data symbol).
  - assert (updateRate data cache s !! currency = cache !! currency) as ->.
    { apply updateRate_other. intros Hs%currencyOfSymbol_tracked.
      by pose proof (tracked_symbol_unique _ _ _ Hin Hs). }
    rewrite (bool_decide_ext (symbol ∈ s :: keys) (symbol ∈ keys)); [done|].
    rewrite elem_of_cons. split; [intros [?|?]; [congruence | done] | by right].
Qed.

(** A refresh that succeeds stores, for each tracked currency, the USD
    price the response quotes for its symbol, and [getExchangeRate]
    returns it from then on; where the response quotes no price for the
    symbol (no entry, or a price of 0), the entry of the currency stays as
    it was, without falling back to the hardcoded rate. *)
Theorem refresh_stores_quotes (cache : gmap string json) (w : world) (n : nat)
    (data : json) (currency symbol : string) :
  refresh_succeeded (fetch_outcome w n RATES_URL) data →
  (currency, symbol) ∈ mobulaSymbols →
  ∃ cache', (updateAllExchangeRates cache w n).1.1 = Normal cache'
    ∧ cache' !! currency = match quoted data symbol with
                           | Some usd => Some usd
                           | None => cache !! currency
                           end
    ∧ (∀ usd, quoted data symbol = Some usd → getExchangeRate cache' currency = usd).
Proof.
  intros Hok Hin. eexists. split; [by apply updateAllExchangeRates_succeeded|].
  assert (Hstored : fold_left (updateRate data) (enumerableKeys data) cache !! currency
                    = match quoted data symbol with
                      | Some usd => Some usd
                      | None => cache !! currency
                      end).
  { rewrite (updateRates_quoted _ _ _ _ _ Hin).
    destruct (quoted data symbol) as [usd|] eqn:Hq; [|by destruct (bool_decide _)].
    by rewrite bool_decide_eq_true_2 by by eapply quoted_key. }
  split; [done|].
  intros usd Hq. unfold getExchangeRate. rewrite Hstored, Hq.
  unfold quoted in Hq. cbv zeta in Hq.
  destruct (truthy (get_prop data symbol)); [|done]. cbn [andb] in Hq.
  destruct (truthy (prop (get_prop data symbol) "USD")) eqn:Husd; [|done].
  by rewrite <- Hq, Husd.
Qed.

(** ** Address derivation *)

Section DerivationProofs.
Context {Seed Root : Type} `{ChainLibraries Seed Root}.

Definition derivable : list string := ["bitcoin"; "solana"; "ton"; "tron"].

(** C10. [deriveAddress] returns an address only for bitcoin, solana,
    ton and tron; for any other currency it throws
    [Unsupported currency for derivation: <currency>], and so it does for
    ethereum, which is nevertheless among the currencies scanned and
    configured: [startBot] takes the ethereum address from the wallet of
    ethers instead. *)
Theorem deriveAddress_supported (currency : string) (km : @keyMaterial Seed Root) :
  (∀ a, deriveAddress currency km = Normal a → currency ∈ derivable)
  ∧ (currency ∉ derivable →
     deriveAddress currency km
       = Throw (Error ("Unsupported currency for derivation: " ++ currency)))
  ∧ deriveAddress "ethereum" km
      = Throw (Error "Unsupported currency for derivation: ethereum")
  ∧ "ethereum" ∈ currenciesToCheck
  ∧ is_Some (networks !! "ethereum")
  ∧ scanAddress "ethereum" km = ethers_wallet_address (mnemonic km).
Proof.
  assert (Hcases : currency ∈ derivable ∨
            deriveAddress currency km
              = Throw (Error ("Unsupported currency for derivation: " ++ currency))).
  { unfold deriveAddress, derivable.
    destruct (String.eqb_spec currency "bitcoin") as [->|?];
      [left; apply list_elem_of_In; simpl; tauto|].
    destruct (String.eqb_spec currency "solana") as [->|?];
      [left; apply list_elem_of_In; simpl; tauto|].
    destruct (String.eqb_spec currency "ton") as [->|?];
      [left; apply list_elem_of_In; simpl; tauto|].
    destruct (String.eqb_spec currency "tron") as [->|?];
      [left; apply list_elem_of_In; simpl; tauto|].
    by right. }
  split; [|split; [|split; [|split; [|split]]]].
  - intros a Ha. destruct Hcases as [?|Hthrow]; [done|]. by rewrite Hthrow in Ha.
  - intros Hnot. by destruct Hcases.
  - done.
  - apply list_elem_of_In. simpl. tauto.
  - by eexists.
  - done.
Qed.

End DerivationProofs.

End BotProofs.

(** * The scan cycle and the command-line checker

    The rest of the main script ([startBot]) and [src/check_balance.js].
    Their computations run against a world of their own; the operations
    are those of [Bot], for any world and any kind of event. *)

Module Effects.
Import Js.

Definition Run (W E A : Type) : Type := W -> nat -> completion A * nat * list E.

Section Run.
Context {W E : Type}.

Definition ret {A} (a : A) : Run W E A := fun _ n => (Normal a, n, []).

Definition lift {A} (c : completion A) : Run W E A := fun _ n => (c, n, []).

Definition bind {A B} (m : Run W E A) (k : A -> Run W E B) : Run W E B :=
  fun w n =>
    match m w n with
    | (Normal a, n', t) => let '(r, n'', t') := k a w n' in (r, n'', (t ++ t')%list)
    | (Throw e, n', t) => (Throw e, n', t)
    end.

Definition emit (e : E) : Run W E unit := fun _ n => (Normal tt, n, [e]).

(** An outbound call: the world answers it, given the number of calls
    made before. *)
Definition call {A} (outcome : W -> nat -> A) (e : E) : Run W E A :=
  fun w n => (Normal (outcome w n), S n, [e]).

(** A value read from the world as it is at the moment. *)
Definition read {A} (value : W -> nat -> A) : Run W E A :=
  fun w n => (Normal (value w n), n, []).

End Run.

#[global] Instance Run_ret {W E} : MRet (Run W E) := @ret W E.
#[global] Instance Run_bind {W E} : MBind (Run W E) := fun A B k m => bind m k.

End Effects.

(** ** startBot *)

Module StartBot.
Import Js Bot Effects.

(** [parseInt(process.env.SERVER_ID || '0', 30)]. *)
Definition serverId (env : gmap string string) : option Z :=
  parseInt_radix 30
    match env !! "SERVER_ID" with
    | Some id => if String.eqb id "" then "0" else id
    | None => "0"
    end.

(** [serverId * 1000]: the milliseconds slept before anything else. *)
Definition initialDelay (env : gmap string string) : option Z :=
  (fun id => id * 1000)%Z <$> serverId env.

(** The formatting the records go through is that of ethers and of the
    engine. *)
Class Formatting := {
  (* [ethers.formatUnits(value, decimals)] *)
  formatUnits : amount -> nat -> completion string;
  (* [parseFloat(s)] *)
  parseFloat : string -> float;
  (* [x.toFixed(2)] *)
  toFixed2 : float -> string
}.

(** A document of the [found] collection ([token] is set in the documents
    of token balances). *)
Record found := {
  found_mnemonic : string;
  found_currency : string;
  found_address : string;
  found_token : option string;
  found_balance : string;
  found_balanceInUSD : string;
  found_timestamp : Z
}.

(** What surrounds a task of the scan cycle: the world [getBalance] calls
    out to, the exchange-rate cache as the refreshes leave it, the
    database, and the clock. *)
Record surroundings := {
  outside : world;
  exchangeRateCache : nat -> gmap string json;
  insertOne_outcome : nat -> found -> completion unit;
  Date_now : nat -> Z
}.

Inductive step :=
| Lookup (e : event)                          (* an event of [getBalance] *)
| Checking (currency address : string)        (* [Checking: <currency> address <address>] *)
| InsertOne (result : found)                  (* [collection.insertOne(result)] *)
| FoundAndSaved (result : found).             (* [Found and saved: <result>] *)

Definition Task (A : Type) : Type := Run surroundings step A.

(** A computation of [Bot], run in the world outside. *)
Definition pipeline {A} (m : M A) : Task A :=
  fun s n => let '(r, n', t) := m (outside s) n in (r, n', Lookup <$> t).

(** [await collection.insertOne(result)]. *)
Definition insertOne (result : found) : Task unit :=
  fun s n => (insertOne_outcome s n result, S n, [InsertOne result]).

(** [getExchangeRate(currency)], on the cache as it is. *)
Definition currentRate (currency : string) : Task json :=
  read (fun s n => getExchangeRate (exchangeRateCache s n) currency).

(** [amount > 0n]. *)
Definition positive (a : amount) : bool :=
  match a with
  | BigIntAmount z => (0 <? z)%Z
  | NumberAmount f => PrimFloat.ltb 0 f
  end.

Section Task.
Context `{NumberNotation} `{Formatting}.
Context {Seed Root : Type} `{ChainLibraries Seed Root}.
Variable env : gmap string string.

(** [String(amount)]. *)
Definition String_of_amount (a : amount) : string :=
  match a with
  | BigIntAmount z => pretty z
  | NumberAmount f => NumberToString f
  end.

(** From [const balanceInMainUnit = ...] to [console.log(`Found and saved
    ...`)]: the document of a balance is built, inserted and reported. *)
Definition save (km : @keyMaterial Seed Root) (currency address : string) (token : option string)
    (balance : amount) (decimals : nat) (exchangeRate : json) : Task unit :=
  formatted ← lift (formatUnits balance decimals);
  let balanceInMainUnit := parseFloat formatted in
  let balanceInUSD := PrimFloat.mul balanceInMainUnit (ToNumber (Some exchangeRate)) in
  timestamp ← read Date_now;
  let result := {| found_mnemonic := mnemonic km;
                   found_currency := currency;
                   found_address := address;
                   found_token := token;
                   found_balance := String_of_amount balance;
                   found_balanceInUSD := toFixed2 balanceInUSD;
                   found_timestamp := timestamp |} in
  insertOne result;;
  emit (FoundAndSaved result).

(** [if (balances.native > 0n) { ... }]. *)
Definition saveNative (km : @keyMaterial Seed Root) (currency address : string)
    (network : option network_config) (balances : BalanceResult) : Task unit :=
  if positive (native balances) then
    exchangeRate ← currentRate currency;
    decimals ← lift (match network with
                     | Some net => Normal (decimals net)
                     | None => Throw TypeError
                     end);
    save km currency address None (native balances) decimals exchangeRate
  else mret tt.

(** [for (const token in balances.tokens) { ... }].  [getBalance] has
    inserted the keys of [balances.tokens] in the order of
    [network.tokens], of which they are a part: the loop visits the tokens
    of the network that have a balance, in the order of the network. *)
Fixpoint saveTokens (km : @keyMaterial Seed Root) (currency address : string)
    (tokens : list (string * token_config)) (balances : gmap string Z) : Task unit :=
  match tokens with
  | [] => mret tt
  | (token, tokenInfo) :: tokens' =>
      match balances !! token with
      | Some tokenBalance =>
          let tokenDecimals :=
            if (token_decimals tokenInfo =? 0)%nat then 18%nat else token_decimals tokenInfo in
          rate ← currentRate token;
          let tokenExchangeRate := if truthy (Some rate) then rate else JNum 0 in
          save km currency address (Some token) (BigIntAmount tokenBalance) tokenDecimals
            tokenExchangeRate;;
          saveTokens km currency address tokens' balances
      | None => saveTokens km currency address tokens' balances
      end
  end.

(** The function [startBot] maps over [currenciesToCheck]: the task of
    one currency in a scan cycle. *)
Definition checkCurrency (km : @keyMaterial Seed Root) (currency : string) : Task unit :=
  let network := networks !! currency in
  address ← lift (scanAddress currency km);
  if String.eqb address "" then mret tt
  else
    emit (Checking currency address);;
    balances ← pipeline (getBalance (deployed env) currency address);
    saveNative km currency address network balances;;
    match result_tokens balances with
    | Some tokenBalances =>
        saveTokens km currency address (default [] (network ≫= tokens)) tokenBalances
    | None => mret tt
    end.

End Task.

End StartBot.

(** ** src/check_balance.js *)

Module CheckBalance.
Import Js Effects.

(** The keys of [networks]; each holds the Blockcypher client of the
    chain of that name. *)
Definition networks : list string := ["btc"; "eth"; "ltc"; "doge"].

(** What [networks[key]] may be, when it is not undefined: a client, or a
    value inherited from the prototype (a function, or the prototype
    itself: truthy, and without a [getAddrBal]). *)
Inductive api :=
| Client (coin : string)
| Inherited (key : string).

Definition networks_get (key : string) : option api :=
  if bool_decide (key ∈ networks) then Some (Client key)
  else if bool_decide (key ∈ Object_prototype) then Some (Inherited key)
  else None.

(** What [api.getAddrBal(address, callback)] does: it calls back with an
    error and a body, or throws. *)
Inductive answer :=
| Calls (err data : option json)
| Raises (e : exn).

Record blockcypher := {
  getAddrBal_outcome : nat -> string -> string -> answer
}.

(** What the [catch] of [getBalance] catches: the error the promise was
    rejected with, or an exception. *)
Inductive caught :=
| Rejected (err : json)
| Raised (e : exn).

Inductive line :=
| Usage                                         (* [Usage: node check_balance.js <currency> <address>] *)
| Supported                                     (* [Supported currencies: btc, eth, ltc, doge] *)
| Unsupported (currency : string)               (* [Unsupported currency: <currency>] *)
| Checking (currency address : string)          (* [Checking <currency> address: <address>] *)
| ErrorChecking (error : caught)                (* [Error checking balance:] and the message *)
| Balance (balance : option json).              (* [Balance: <balance>] *)

Inductive event :=
| GetAddrBal (coin address : string)
| ConsoleLog (l : line)
| ConsoleError (l : line).

Definition Script (A : Type) : Type := Run blockcypher event A.

(** The promise of [getBalance]: how it settles. *)
Definition settled (a : api) (address : string) : Script (caught + option json) :=
  match a with
  | Inherited _ => mret (inl (Raised TypeError))
  | Client coin =>
      answered ← call (fun w n => getAddrBal_outcome w n coin address) (GetAddrBal coin address);
      match answered with
      | Raises e => mret (inl (Raised e))
      | Calls err data =>
          match err with
          | Some error => if truthy err then mret (inl (Rejected error)) else mret (inr data)
          | None => mret (inr data)
          end
      end
  end.

(** [getBalance(api, address)]: [data.balance], or 0 once an error has
    been caught and reported. *)
Definition getBalance (a : api) (address : string) : Script (option json) :=
  outcome ← settled a address;
  match outcome with
  | inr data =>
      match member data "balance" with
      | Normal balance => mret balance
      | Throw e => emit (ConsoleError (ErrorChecking (Raised e)));; mret (Some (JNum 0))
      end
  | inl error => emit (ConsoleError (ErrorChecking error));; mret (Some (JNum 0))
  end.

Definition usage : Script unit :=
  emit (ConsoleLog Usage);; emit (ConsoleLog Supported).

(** [main()], given [process.argv]. *)
Definition main (argv : list string) : Script unit :=
  match argv !! 2%nat, argv !! 3%nat with
  | Some currency, Some address =>
      if String.eqb currency "" || String.eqb address "" then usage
      else
        match networks_get (toLowerCase currency) with
        | None =>
            emit (ConsoleError (Unsupported currency));;
            emit (ConsoleLog Supported)
        | Some a =>
            emit (ConsoleLog (Checking currency address));;
            balance ← getBalance a address;
            emit (ConsoleLog (Balance balance))
        end
  | _, _ => usage
  end.

End CheckBalance.

(** * Properties of the scan cycle *)

Module StartBotProofs.
Import Js Bot Effects StartBot BotProofs.

(** ** The delay before the first cycle *)

Lemma radix_digit_decimal (c : ascii) :
  is_digit c = true → radix_digit c = hex_value c ∧ ∃ d, hex_value c = Some d ∧ (0 ≤ d < 10)%Z.
Proof.
  intros Hc%JsProofs.is_digit_cases. apply list_elem_of_In in Hc. simpl in Hc.
  repeat (destruct Hc as [<-|Hc];
          [split; [by vm_compute|]; eexists; split; [vm_compute; reflexivity | lia]|]).
  done.
Qed.

(** The digits of a decimal notation are digits of the radix 30. *)
Lemma leading_digits_app (a b : string) (acc : option Z) :
  string_forall is_digit a = true →
  leading_digits 30 (a ++ b) acc = leading_digits 30 b (leading_digits 30 a acc).
Proof.
  revert acc. induction a as [|c a IH]; intros acc; [done|].
  simpl string_forall. intros [Hc Ha]%andb_true_iff.
  rewrite JsProofs.string_app_cons. cbn [leading_digits].
  destruct (radix_digit_decimal c Hc) as (-> & d & -> & Hd).
  destruct (Z.ltb_spec d 30) as [_|?]; [|lia]. by apply IH.
Qed.

(** The decimal notation of [x], read in radix 30. *)
Lemma leading_digits_pretty_N_go (x : N) :
  (0 < x)%N →
  ∃ v, leading_digits 30 (pretty_N_go x "") None = Some v
     ∧ (Z.of_N x ≤ v ≤ Z.of_N x * Z.of_N x)%Z
     ∧ ((x < 10)%N → v = Z.of_N x)
     ∧ ((10 ≤ x)%N → (Z.of_N x < v)%Z).
Proof.
  induction (N.lt_wf_0 x) as [x _ IH]. intros Hx.
  rewrite pretty_N_go_step, JsProofs.pretty_N_go_app by done.
  destruct (JsProofs.pretty_N_go_digits (x `div` 10)) as (Hall & _ & _).
  rewrite leading_digits_app by done.
  destruct (JsProofs.pretty_N_char_digit (x `mod` 10)) as [Hd Hv]; [by apply N.mod_lt|].
  cbn [leading_digits]. destruct (radix_digit_decimal _ Hd) as (-> & d & Hd' & _).
  rewrite Hv in Hd' |- *. injection Hd' as <-.
  pose proof (N.mod_lt x 10 ltac:(done)) as Hmod.
  pose proof (N.div_mod x 10 ltac:(done)) as Hdiv.
  destruct (Z.ltb_spec (Z.of_N (x `mod` 10)) 30) as [_|?]; [|lia].
  destruct (decide (x < 10)%N) as [Hsmall|Hlarge].
  - rewrite (N.div_small x 10) by done. eexists. split; [reflexivity|].
    rewrite (N.mod_small x 10), pretty_N_go_0 by done.
    cbn [leading_digits default from_option id]. split; [nia|]. split; intros; lia.
  - destruct (IH (x `div` 10)%N) as (v & -> & Hv1 & _ & _).
    { apply N.div_lt; lia. }
    { apply N.div_str_pos. lia. }
    eexists. split; [reflexivity|]. cbn [default from_option id].
    assert (Hq : (1 ≤ x `div` 10)%N).
    { pose proof (N.div_str_pos x 10). lia. }
    clear IH Hall Hd Hv Hx. revert Hv1 Hq Hmod Hdiv Hlarge.
    generalize (x `div` 10)%N (x `mod` 10)%N. intros q r Hv1 Hq Hmod -> _.
    rewrite N2Z.inj_add, N2Z.inj_mul. change (Z.of_N 10) with 10%Z.
    assert (1 ≤ Z.of_N q)%Z as HQ by lia. assert (0 ≤ Z.of_N r < 10)%Z as HR by lia.
    revert Hv1 HQ HR. generalize (Z.of_N q) (Z.of_N r). intros Q R Hv1 HQ HR.
    assert (Q ≤ Q * Q)%Z by nia.
    assert (0 ≤ Q * R)%Z by nia.
    assert (0 ≤ R * R)%Z by nia.
    split; [|split; intros; lia].
    replace ((10 * Q + R) * (10 * Q + R))%Z with (100 * (Q * Q) + 20 * (Q * R) + R * R)%Z
      by ring.
    lia.
Qed.

Lemma parseInt_radix_digits (s : string) :
  string_forall is_digit s = true → s ≠ "" →
  parseInt_radix 30 s = leading_digits 30 s None.
Proof.
  intros Hs Hne. unfold parseInt_radix. rewrite (JsProofs.trim_start_digits s Hs).
  assert (Hid : ∀ o : option Z, option_map (Z.mul 1) o = o).
  { intros [z|]; [|done]. simpl. f_equal. lia. }
  destruct s as [|c s]; [done|]. simpl in Hs. apply andb_true_iff in Hs as [Hc _].
  apply JsProofs.is_digit_cases, list_elem_of_In in Hc. simpl in Hc.
  repeat (destruct Hc as [<-|Hc]; [apply Hid|]). done.
Qed.

(** The server id is read in radix 30, not 10.  An id from 0 to 9 waits
    that many seconds; an id written with two digits or more waits longer
    than its decimal value (10 waits 30 seconds); with no id set, the wait
    is 0.  (Up to a million, the delay stays below 2^53, where the
    engine's arithmetic is that of the integers.) *)
Theorem initialDelay_radix_30 :
  (∀ env : gmap string string,
     env !! "SERVER_ID" = None ∨ env !! "SERVER_ID" = Some "" →
     initialDelay env = Some 0%Z)
  ∧ (∀ (env : gmap string string) (id : N),
       env !! "SERVER_ID" = Some (pretty id) →
       (id < 1000000)%N →
       ∃ seconds : Z,
         initialDelay env = Some (seconds * 1000)%Z
         ∧ ((id < 10)%N → seconds = Z.of_N id)
         ∧ ((10 ≤ id)%N → (Z.of_N id < seconds)%Z)
         ∧ (0 ≤ seconds * 1000 < 2 ^ 53)%Z)
  ∧ initialDelay {[ "SERVER_ID" := "10" ]} = Some 30000%Z.
Proof.
  split; [|split].
  - intros env [Hid|Hid]; unfold initialDelay, serverId; by rewrite Hid.
  - intros env id Hid Hbound. unfold initialDelay, serverId. rewrite Hid.
    destruct (JsProofs.pretty_N_digits id) as (Hdigits & _ & Hne).
    assert (String.eqb (pretty id) "" = false) as ->
      by by destruct (String.eqb_spec (pretty id) "").
    rewrite parseInt_radix_digits by done.
    destruct (decide (id = 0)%N) as [->|Hpos].
    + exists 0%Z. split; [done|]. split; [done|]. split; [lia | done].
    + assert (pretty id = pretty_N_go id "") as ->.
      { unfold pretty, pretty_N. by rewrite decide_False. }
      destruct (leading_digits_pretty_N_go id) as (v & -> & Hv & Hsmall & Hlarge); [lia|].
      exists v. split; [done|]. split; [done|]. split; [done|]. nia.
  - by vm_compute.
Qed.

(** ** The task of a currency *)

(** The documents a trace inserts, and those it reports as saved. *)
Definition inserted (t : list step) : list found :=
  omap (λ e, match e with InsertOne doc => Some doc | _ => None end) t.

Definition reported (t : list step) : list found :=
  omap (λ e, match e with FoundAndSaved doc => Some doc | _ => None end) t.

Lemma inserted_app t1 t2 : inserted (t1 ++ t2) = (inserted t1 ++ inserted t2)%list.
Proof. apply omap_app. Qed.

Lemma reported_app t1 t2 : reported (t1 ++ t2) = (reported t1 ++ reported t2)%list.
Proof. apply omap_app. Qed.

Lemma inserted_lookup (t : list event) : inserted (Lookup <$> t) = [].
Proof. induction t as [|e t IH]; [done|]. by cbn. Qed.

Lemma reported_lookup (t : list event) : reported (Lookup <$> t) = [].
Proof. induction t as [|e t IH]; [done|]. by cbn. Qed.

Lemma inserted_checking currency address (t : list step) :
  inserted (Checking currency address :: t) = inserted t.
Proof. done. Qed.

Lemma elem_of_inserted (t : list step) (doc : found) :
  doc ∈ inserted t ↔ InsertOne doc ∈ t.
Proof.
  unfold inserted. rewrite list_elem_of_omap. split.
  - intros (e & He & Hdoc). destruct e; simplify_eq. done.
  - intros Hin. by exists (InsertOne doc).
Qed.

Ltac unfold_task :=
  unfold mbind, Run_bind, bind, mret, Run_ret, ret, lift, emit, read, call,
    currentRate, insertOne, pipeline.

Section TaskProofs.
Context `{NumberNotation} `{Formatting}.
Context {Seed Root : Type} `{ChainLibraries Seed Root}.
Variable env : gmap string string.
Implicit Types (km : @keyMaterial Seed Root) (s : surroundings).

(** *** What a task saves *)

Lemma save_run km currency address token balance decimals exchangeRate s n :
  ∃ r n' t, save km currency address token balance decimals exchangeRate s n = (r, n', t)
    ∧ ((t = [] ∧ is_normal r = false)
       ∨ ∃ doc, found_mnemonic doc = mnemonic km ∧ found_currency doc = currency
                ∧ found_address doc = address ∧ found_token doc = token
                ∧ found_balance doc = String_of_amount balance
                ∧ ((t = [InsertOne doc] ∧ r = insertOne_outcome s n doc
                    ∧ is_normal r = false ∧ n' = S n)
                   ∨ (t = [InsertOne doc; FoundAndSaved doc] ∧ r = Normal tt
                      ∧ insertOne_outcome s n doc = Normal tt ∧ n' = S n))).
Proof.
  unfold save. unfold_task.
  destruct (formatUnits balance decimals) as [formatted|e];
    [|eexists _, _, _; split; [reflexivity | by left]].
  match goal with
  | |- context [insertOne_outcome s n ?d] =>
      set (doc := d); destruct (insertOne_outcome s n doc) as [[]|e] eqn:Hinsert
  end.
  - eexists _, _, _. split; [reflexivity|]. right. exists doc. repeat split. by right.
  - eexists _, _, _. split; [reflexivity|]. right. exists doc. repeat split. left.
    by rewrite Hinsert.
Qed.

Lemma saveTokens_empty km currency address names s n :
  saveTokens km currency address names ∅ s n = (Normal tt, n, []).
Proof.
  induction names as [|[token tokenInfo] names IH]; [done|].
  cbn [saveTokens]. by rewrite lookup_empty.
Qed.

(** Every document a call of [saveTokens] inserts is the document of a
    token of the list that has a balance. *)
Lemma saveTokens_inserted km currency address names balances s n doc :
  doc ∈ inserted (saveTokens km currency address names balances s n).2 →
  found_mnemonic doc = mnemonic km ∧ found_currency doc = currency
  ∧ found_address doc = address
  ∧ ∃ token tokenInfo z, found_token doc = Some token ∧ (token, tokenInfo) ∈ names
      ∧ balances !! token = Some z ∧ found_balance doc = pretty z.
Proof.
  revert n. induction names as [|[token tokenInfo] names IH]; intros n; [by intros ?%elem_of_nil|].
  cbn [saveTokens].
  assert (Hrest : ∀ n', doc ∈ inserted (saveTokens km currency address names balances s n').2 →
            found_mnemonic doc = mnemonic km ∧ found_currency doc = currency
            ∧ found_address doc = address
            ∧ ∃ token' tokenInfo' z, found_token doc = Some token'
                ∧ (token', tokenInfo') ∈ (token, tokenInfo) :: names
                ∧ balances !! token' = Some z ∧ found_balance doc = pretty z).
  { intros n' Hin. destruct (IH n' Hin) as (? & ? & ? & token' & tokenInfo' & z & ? & ? & ? & ?).
    split_and!; [done..|]. exists token', tokenInfo', z. split_and!; [done | by right | done..]. }
  destruct (balances !! token) as [tokenBalance|] eqn:Hbalance; [|apply Hrest].
  unfold mbind at 1, Run_bind at 1, bind at 1. unfold currentRate at 1, read at 1.
  unfold mbind at 1, Run_bind at 1, bind at 1.
  match goal with
  | |- context [save km currency address (Some token) ?b ?d ?r s n] =>
      destruct (save_run km currency address (Some token) b d r s n)
        as (r' & n' & t & -> & Ht)
  end.
  assert (Hsave : doc ∈ inserted t →
            found_mnemonic doc = mnemonic km ∧ found_currency doc = currency
            ∧ found_address doc = address
            ∧ ∃ token' tokenInfo' z, found_token doc = Some token'
                ∧ (token', tokenInfo') ∈ (token, tokenInfo) :: names
                ∧ balances !! token' = Some z ∧ found_balance doc = pretty z).
  { destruct Ht as [[-> _]|(doc' & ? & ? & ? & ? & ? & Ht)]; [by intros ?%elem_of_nil|].
    intros Hin.
    assert (doc = doc') as ->.
    { destruct Ht as [(-> & _)|(-> & _)]; cbn in Hin;
        repeat (apply elem_of_cons in Hin as [->|Hin]; [done|]); by apply elem_of_nil in Hin. }
    split_and!; [done..|]. exists token, tokenInfo, tokenBalance.
    split_and!; [done | by left | done..]. }
  destruct r' as [[]|e]; cbn [snd app].
  - destruct (saveTokens km currency address names balances s n') as [[r'' n''] t''] eqn:Hrun.
    cbn [snd]. rewrite inserted_app. intros [Hin|Hin]%elem_of_app; [by apply Hsave|].
    apply (Hrest n'). by rewrite Hrun.
  - apply Hsave.
Qed.

Lemma saveNative_inserted km currency address network balances s n doc :
  doc ∈ inserted (saveNative km currency address network balances s n).2 →
  found_mnemonic doc = mnemonic km ∧ found_currency doc = currency
  ∧ found_address doc = address ∧ found_token doc = None
  ∧ positive (native balances) = true
  ∧ found_balance doc = String_of_amount (native balances).
Proof.
  unfold saveNative. destruct (positive (native balances)); [|by intros ?%elem_of_nil].
  unfold mbind at 1, Run_bind at 1, bind at 1. unfold currentRate at 1, read at 1.
  unfold mbind at 1, Run_bind at 1, bind at 1. unfold lift at 1.
  destruct network as [net|]; [|by intros ?%elem_of_nil].
  match goal with
  | |- context [save km currency address None ?b ?d ?r s n] =>
      destruct (save_run km currency address None b d r s n) as (r' & n' & t & -> & Ht)
  end.
  cbn [snd app].
  destruct Ht as [[-> _]|(doc' & ? & ? & ? & ? & ? & Ht)]; [by intros ?%elem_of_nil|].
  intros Hin.
  assert (doc = doc') as ->.
  { destruct Ht as [(-> & _)|(-> & _)]; cbn in Hin;
      repeat (apply elem_of_cons in Hin as [->|Hin]; [done|]); by apply elem_of_nil in Hin. }
  done.
Qed.

(** Every document a task inserts carries the mnemonic of the cycle, the
    currency of the task and the address it was checked at, and reports a
    balance greater than zero: the native balance [getBalance] returned,
    or the balance it returned for a token of the network. *)
Theorem saved_documents km (currency : string) s (n : nat) (doc : found) :
  InsertOne doc ∈ (checkCurrency env km currency s n).2 →
  found_mnemonic doc = mnemonic km
  ∧ found_currency doc = currency
  ∧ scanAddress currency km = Normal (found_address doc)
  ∧ ∃ balances n1 t1 a,
      getBalance (deployed env) currency (found_address doc) (outside s) n
        = (Normal balances, n1, t1)
      ∧ positive a = true
      ∧ found_balance doc = String_of_amount a
      ∧ match found_token doc with
        | None => a = native balances
        | Some token =>
            ∃ tokenBalances z, result_tokens balances = Some tokenBalances
              ∧ tokenBalances !! token = Some z ∧ a = BigIntAmount z
              ∧ ∃ names tokenInfo, networks !! currency ≫= tokens = Some names
                  ∧ (token, tokenInfo) ∈ names
        end.
Proof.
  rewrite <- elem_of_inserted. unfold checkCurrency.
  unfold mbind at 1, Run_bind at 1, bind at 1. unfold lift at 1.
  destruct (scanAddress currency km) as [address|e]; [|by intros ?%elem_of_nil].
  destruct (String.eqb address ""); [by intros ?%elem_of_nil|].
  unfold mbind at 1, Run_bind at 1, bind at 1. unfold emit at 1.
  unfold mbind at 1, Run_bind at 1, bind at 1. unfold pipeline at 1.
  destruct (getBalance (deployed env) currency address (outside s) n)
    as [[[balances|e] n1] t1] eqn:Hrun.
  2:{ cbn [snd app]. rewrite inserted_checking, inserted_lookup.
      by intros ?%elem_of_nil. }
  unfold mbind at 1, Run_bind at 1, bind at 1.
  pose proof (saveNative_inserted km currency address (networks !! currency) balances s n1 doc)
    as Hnative.
  destruct (saveNative km currency address (networks !! currency) balances s n1)
    as [[[[]|e] n2] t2].
  - destruct (result_tokens balances) as [tokenBalances|] eqn:Htokens.
    + pose proof (saveTokens_inserted km currency address
                    (default [] (networks !! currency ≫= tokens)) tokenBalances s n2 doc)
        as Htoks.
      destruct (saveTokens _ _ _ _ _ s n2) as [[r3 n3] t3].
      cbn [snd app] in *.
      rewrite inserted_checking, !inserted_app, inserted_lookup.
      cbn [app]. intros [Hin|Hin]%elem_of_app.
      * destruct (Hnative Hin) as (-> & -> & <- & Htoken & Hpos & Hbal).
        split_and!; [done..|]. exists balances, n1, t1, (native balances).
        rewrite Htoken. by split_and!.
      * destruct (Htoks Hin) as (-> & -> & <- & token & tokenInfo & z & Htoken & Hname & Hz & Hbal).
        split_and!; [done..|]. exists balances, n1, t1, (BigIntAmount z).
        pose proof (BotProofs.getBalance_tokens_scanned _ _ _ _ _ _ _ _ _ Hrun Htokens) as Hof.
        destruct (Hof token z Hz) as (Hpos & names & tc & Hnames & Hin').
        rewrite Htoken. split_and!; [done | by apply Z.ltb_lt | done |].
        exists tokenBalances, z. split_and!; [done..|]. by exists names, tc.
    + unfold mret, Run_ret, ret. cbn [snd app] in *.
      rewrite inserted_checking, !inserted_app, inserted_lookup.
      cbn [app inserted omap]. rewrite app_nil_r. intros Hin.
      destruct (Hnative Hin) as (-> & -> & <- & Htoken & Hpos & Hbal).
      split_and!; [done..|]. exists balances, n1, t1, (native balances).
      rewrite Htoken. by split_and!.
  - cbn [snd app] in *.
    rewrite inserted_checking, !inserted_app, inserted_lookup.
    cbn [app]. intros Hin.
    destruct (Hnative Hin) as (-> & -> & <- & Htoken & Hpos & Hbal).
    split_and!; [done..|]. exists balances, n1, t1, (native balances).
    rewrite Htoken. by split_and!.
Qed.

(** The currencies that have an address are those of the script: none
    is the name of an inherited property. *)
Lemma scanAddress_own km (currency address : string) :
  scanAddress currency km = Normal address → currency ∉ Object_prototype.
Proof.
  unfold scanAddress, deriveAddress.
  destruct (String.eqb_spec currency "ethereum") as [->|_];
    [|destruct (String.eqb_spec currency "bitcoin") as [->|_];
      [|destruct (String.eqb_spec currency "solana") as [->|_];
        [|destruct (String.eqb_spec currency "ton") as [->|_];
          [|destruct (String.eqb_spec currency "tron") as [->|_]; [|done]]]]];
    intros _ Hin; apply list_elem_of_In in Hin; simpl in Hin; intuition discriminate.
Qed.

(** *** What a task saves when nothing is found *)

(** When [getBalance] returns no native balance above zero and no token
    balance, the task ends after the lookup: nothing is inserted.  This is
    so in particular when nothing answers [getBalance]. *)
Theorem nothing_found_nothing_saved km (currency address : string) s (n : nat) :
  scanAddress currency km = Normal address →
  address ≠ "" →
  (∀ balances n1 t1,
     getBalance (deployed env) currency address (outside s) n = (Normal balances, n1, t1) →
     positive (native balances) = false →
     result_tokens balances = None ∨ result_tokens balances = Some ∅ →
     checkCurrency env km currency s n
       = (Normal tt, n1, Checking currency address :: (Lookup <$> t1)))
  ∧ (unreachable (outside s) →
     ∃ n1 t1,
       checkCurrency env km currency s n
         = (Normal tt, n1, Checking currency address :: (Lookup <$> t1))).
Proof.
  intros Haddress Hne.
  assert (Hquiet : ∀ balances n1 t1,
    getBalance (deployed env) currency address (outside s) n = (Normal balances, n1, t1) →
    positive (native balances) = false →
    result_tokens balances = None ∨ result_tokens balances = Some ∅ →
    checkCurrency env km currency s n
      = (Normal tt, n1, Checking currency address :: (Lookup <$> t1))).
  { intros balances n1 t1 Hrun Hpos Htokens. unfold checkCurrency.
    unfold mbind at 1, Run_bind at 1, bind at 1. unfold lift at 1. rewrite Haddress.
    destruct (String.eqb_spec address "") as [?|_]; [done|].
    unfold mbind at 1, Run_bind at 1, bind at 1. unfold emit at 1.
    unfold mbind at 1, Run_bind at 1, bind at 1. unfold pipeline at 1. rewrite Hrun.
    unfold saveNative. rewrite Hpos.
    destruct Htokens as [->| ->].
    - unfold_task. cbn. by rewrite !app_nil_r.
    - unfold mbind at 1, Run_bind at 1, bind at 1. unfold mret at 1, Run_ret at 1, ret at 1.
      rewrite saveTokens_empty. cbn. by rewrite !app_nil_r. }
  split; [done|]. intros Hdown.
  pose proof (BotProofs.not_iterable_inherited (deployed env) currency
                (scanAddress_own km currency address Haddress)) as Hiter.
  destruct (BotProofs.getBalance_normal (deployed env) currency address Hiter (outside s) n)
    as (balances & n1 & t1 & Hrun).
  assert (balances = zero_balance) as ->.
  { destruct (String.eqb_spec currency "bitcoin") as [->|Hbitcoin].
    - pose proof (BotProofs.getBalance_bitcoin_unreachable address (outside s) n Hdown) as Hz.
      unfold getBalance in Hrun. cbn [String.eqb Ascii.eqb Bool.eqb] in Hrun.
      rewrite Hrun in Hz. by injection Hz.
    - pose proof (BotProofs.getBalance_exhausted (deployed env) currency address (outside s) n
                    Hbitcoin Hiter) as Hz.
      rewrite Hrun in Hz. cbn [fst] in Hz.
      assert (Normal balances = Normal zero_balance) as [= ->]; [|done].
      apply Hz. intros p k _. by apply BotProofs.attempt_unreachable. }
  exists n1, t1. apply (Hquiet zero_balance n1 t1 Hrun); [done | by left].
Qed.

(** *** When the database is down *)

(** Every insert is rejected. *)
Definition database_down s : Prop :=
  ∀ k doc, is_normal (insertOne_outcome s k doc) = false.

(** A computation that reports nothing as saved, and inserts nothing
    unless it throws, and then one document at most. *)
Definition aborts_on_insert s {A} (m : Task A) : Prop :=
  ∀ n, let '(r, _, t) := m s n in
       reported t = []
       ∧ match r with
         | Normal _ => inserted t = []
         | Throw _ => (length (inserted t) ≤ 1)%nat
         end.

Lemma aborts_on_insert_bind s {A B} (m : Task A) (k : A → Task B) :
  aborts_on_insert s m → (∀ a, aborts_on_insert s (k a)) → aborts_on_insert s (m ≫= k).
Proof.
  intros Hm Hk n. specialize (Hm n). unfold mbind, Run_bind, bind.
  destruct (m s n) as [[[a|e] n1] t1]; [|done].
  specialize (Hk a n1). destruct (k a s n1) as [[r n2] t2].
  destruct Hm as [Hr1 Hi1], Hk as [Hr2 Hi2].
  rewrite reported_app, inserted_app, Hr1, Hr2, Hi1. done.
Qed.

Lemma aborts_on_insert_quiet s {A} (m : Task A) :
  (∀ n, reported (m s n).2 = [] ∧ inserted (m s n).2 = []) → aborts_on_insert s m.
Proof.
  intros Hm n. specialize (Hm n). destruct (m s n) as [[r n1] t1].
  cbn [snd] in Hm. destruct Hm as [-> ->]. destruct r; split; (done || cbn; lia).
Qed.

Lemma save_aborts km currency address token balance decimals exchangeRate s :
  database_down s →
  aborts_on_insert s (save km currency address token balance decimals exchangeRate).
Proof.
  intros Hdown n.
  destruct (save_run km currency address token balance decimals exchangeRate s n)
    as (r & n' & t & -> & [[-> Hr]|(doc & _ & _ & _ & _ & _ & Ht)]).
  - destruct r; [done|]. split; [done | cbn; lia].
  - destruct Ht as [(-> & -> & _)|(-> & _ & Hnormal & _)].
    + pose proof (Hdown n doc) as Hfail.
      destruct (insertOne_outcome s n doc); [done|]. cbn. split; [done | lia].
    + pose proof (Hdown n doc) as Hfail. by rewrite Hnormal in Hfail.
Qed.

Lemma saveNative_aborts km currency address network balances s :
  database_down s →
  aborts_on_insert s (saveNative km currency address network balances).
Proof.
  intros Hdown. unfold saveNative.
  destruct (positive (native balances)); [|by apply aborts_on_insert_quiet].
  apply aborts_on_insert_bind; [by apply aborts_on_insert_quiet|]. intros rate.
  apply aborts_on_insert_bind; [by apply aborts_on_insert_quiet|]. intros decimals.
  by apply save_aborts.
Qed.

Lemma saveTokens_aborts km currency address names balances s :
  database_down s →
  aborts_on_insert s (saveTokens km currency address names balances).
Proof.
  intros Hdown. induction names as [|[token tokenInfo] names IH]; cbn [saveTokens].
  - by apply aborts_on_insert_quiet.
  - destruct (balances !! token) as [tokenBalance|]; [|done].
    apply aborts_on_insert_bind; [by apply aborts_on_insert_quiet|]. intros rate.
    apply aborts_on_insert_bind; [by apply save_aborts | done].
Qed.

(** While every insert is rejected, a task reports nothing as saved and
    attempts one insert at most: the rejection is not caught, the task
    throws, and the documents that would follow (the token balances after
    the native one) are not attempted. *)
Theorem database_down_aborts km (currency : string) s (n : nat) :
  database_down s →
  let '(r, _, t) := checkCurrency env km currency s n in
  reported t = []
  ∧ (length (inserted t) ≤ 1)%nat
  ∧ (inserted t ≠ [] → is_normal r = false).
Proof.
  intros Hdown.
  assert (Htask : aborts_on_insert s (checkCurrency env km currency)).
  { unfold checkCurrency.
    apply aborts_on_insert_bind; [by apply aborts_on_insert_quiet|]. intros address.
    destruct (String.eqb address ""); [by apply aborts_on_insert_quiet|].
    apply aborts_on_insert_bind; [by apply aborts_on_insert_quiet|]. intros _.
    apply aborts_on_insert_bind.
    { apply aborts_on_insert_quiet. intros k. unfold pipeline.
      destruct (getBalance _ _ _ _ _) as [[r k'] t]. cbn [snd].
      by rewrite reported_lookup, inserted_lookup. }
    intros balances.
    apply aborts_on_insert_bind; [by apply saveNative_aborts|]. intros _.
    destruct (result_tokens balances); [by apply saveTokens_aborts|].
    by apply aborts_on_insert_quiet. }
  specialize (Htask n). destruct (checkCurrency env km currency s n) as [[r n'] t].
  destruct Htask as [Hreported Hinserted]. split; [done|].
  destruct r as [[]|e].
  - rewrite Hinserted. cbn. split; [lia | done].
  - split; [done|]. done.
Qed.

End TaskProofs.

End StartBotProofs.

(** * Properties of the command-line checker *)

Module CheckBalanceProofs.
Import Js Effects CheckBalance.

Ltac unfold_script :=
  unfold mbind, Run_bind, bind, mret, Run_ret, ret, lift, emit, call.

(** [getBalance] never throws, and what it does is settled by the answer
    of the client.  It returns [data.balance], writing nothing, exactly
    when the client calls back without an error and with a body that is
    neither undefined nor null.  When the client calls back with an
    error, or throws, or hands over no body, or when the value has no
    [getAddrBal], it writes one error line, for that very error, and
    returns 0. *)
Theorem getBalance_settles (a : api) (address : string) (w : blockcypher) (n : nat) :
  ∃ balance n' t,
    getBalance a address w n = (Normal balance, n', t)
    ∧ match a with
      | Inherited _ =>
          balance = Some (JNum 0) ∧ n' = n
          ∧ t = [ConsoleError (ErrorChecking (Raised TypeError))]
      | Client coin =>
          n' = S n
          ∧ match getAddrBal_outcome w n coin address with
            | Raises e =>
                balance = Some (JNum 0)
                ∧ t = [GetAddrBal coin address; ConsoleError (ErrorChecking (Raised e))]
            | Calls err data =>
                match (if truthy err then err else None) with
                | Some error =>
                    balance = Some (JNum 0)
                    ∧ t = [GetAddrBal coin address;
                           ConsoleError (ErrorChecking (Rejected error))]
                | None =>
                    match member data "balance" with
                    | Normal value => balance = value ∧ t = [GetAddrBal coin address]
                    | Throw e =>
                        balance = Some (JNum 0)
                        ∧ t = [GetAddrBal coin address;
                               ConsoleError (ErrorChecking (Raised e))]
                    end
                end
            end
      end.
Proof.
  unfold getBalance, settled. destruct a as [coin|key]; unfold_script.
  - destruct (getAddrBal_outcome w n coin address) as [err data|e] eqn:Hanswer.
    + destruct err as [error|]; [destruct (truthy (Some error)) eqn:Herr|].
      * by eexists _, _, _.
      * destruct (member data "balance") as [balance|e] eqn:Hbalance; by eexists _, _, _.
      * cbn [truthy]. destruct (member data "balance") as [balance|e] eqn:Hbalance;
          by eexists _, _, _.
    + by eexists _, _, _.
  - by eexists _, _, _.
Qed.

(** With fewer than two arguments, or an empty one, [main] prints the
    usage and the supported currencies, and calls nothing. *)
Theorem main_usage (argv : list string) (w : blockcypher) (n : nat) :
  argv !! 2%nat = None ∨ argv !! 2%nat = Some ""
  ∨ argv !! 3%nat = None ∨ argv !! 3%nat = Some "" →
  main argv w n = (Normal tt, n, [ConsoleLog Usage; ConsoleLog Supported]).
Proof.
  unfold main. intros [-> | [-> | [-> | ->]]]; try done.
  - by destruct (argv !! 3%nat).
  - by destruct (argv !! 2%nat).
  - destruct (argv !! 2%nat) as [currency|]; [|done].
    by rewrite orb_true_r.
Qed.




(** A currency whose lower-case form names a property that every object
    inherits ([constructor], [__proto__]) is not reported as unsupported:
    [main] goes on with the inherited value, which has no [getAddrBal],
    and prints a balance of 0 without having called anything. *)
Theorem main_inherited (argv : list string) (currency address : string)
    (w : blockcypher) (n : nat) :
  argv !! 2%nat = Some currency →
  argv !! 3%nat = Some address →
  address ≠ "" →
  toLowerCase currency ∈ Object_prototype →
  main argv w n
    = (Normal tt, n,
       [ConsoleLog (Checking currency address);
        ConsoleError (ErrorChecking (Raised TypeError));
        ConsoleLog (Balance (Some (JNum 0)))]).
Proof.
  intros Hcurrency Haddress Hne Hkey.
  unfold main. rewrite Hcurrency, Haddress.
  assert (currency ≠ "") as Hcne.
  { intros ->. apply list_elem_of_In in Hkey. simpl in Hkey. intuition discriminate. }
  destruct (String.eqb_spec currency "") as [?|_]; [done|].
  destruct (String.eqb_spec address "") as [?|_]; [done|]. cbn [orb].
  assert (networks_get (toLowerCase currency) = Some (Inherited (toLowerCase currency))) as ->.
  { unfold networks_get. rewrite bool_decide_eq_false_2.
    - by rewrite bool_decide_eq_true_2.
    - intros Hin. revert Hkey. apply list_elem_of_In in Hin. simpl in Hin.
      repeat (destruct Hin as [<-|Hin];
              [intros Hkey; apply list_elem_of_In in Hkey; simpl in Hkey;
               intuition discriminate|]).
      done. }
  done.
Qed.


End CheckBalanceProofs.

(** * Scenarios

    Concrete runs: a world that answers in a fixed way, and what the
    script does in it. *)

Module Scenarios.
Import Js Bot BotProofs.

(** In the scenarios every balance arrives as a JSON number or as a string
    of digits handed to [BigInt]: the engine's conversions between numbers
    and their decimal notation are not called, and this instance stands
    in for them. *)
#[local] Instance conversions_not_called : NumberNotation :=
  {| StringToNumber := λ _, PrimFloat.nan; NumberToString := λ _, "" |}.

Definition json_response (st : Z) (body : json) : response :=
  {| status := st; json_body := Normal body; text_body := Throw (Error "body used already") |}.

Definition error_response (st : Z) : response :=
  {| status := st; json_body := Throw SyntaxError; text_body := Normal "" |}.

(** A world in which the clients (not used by the REST providers) reject. *)
Definition rest_world (answers : nat → string → completion response) : world :=
  {| fetch_outcome := answers;
     solana_outcome := λ _ _ _, Throw (Error "no client");
     ton_outcome := λ _ _ _ _, Throw (Error "no client");
     erc20_outcome := λ _ _ _ _, Throw (Error "no client");
     trc20_outcome := λ _ _ _, Throw (Error "no client") |}.

(** The providers of [apiProviders] when no key is set in the environment. *)
Definition etherscan : provider :=
  {| name := "etherscan";
     baseURL := "https://api.etherscan.io/v2/api?chainid=1&module=account&action=balance&address={address}&tag=latest";
     apiKey := None; responsePath := Some "result"; method := None; isText := false |}.

Definition trongrid : provider :=
  {| name := "trongrid"; baseURL := "https://api.trongrid.io/v1/accounts/{address}";
     apiKey := None; responsePath := Some "data[0].balance";
     method := None; isText := false |}.

Example apiProviders_ethereum : apiProviders ∅ !! "ethereum" = Some [etherscan].
Proof. reflexivity. Qed.

Example apiProviders_tron : apiProviders ∅ !! "tron" = Some [trongrid].
Proof. reflexivity. Qed.

Definition etherscan_url : string :=
  "https://api.etherscan.io/v2/api?chainid=1&module=account&action=balance&address=0xabc&tag=latest".

Definition trongrid_url : string := "https://api.trongrid.io/v1/accounts/TXyz".

Definition etherscan_ok (balance : string) : json :=
  JObj [("status", JStr "1"); ("message", JStr "OK"); ("result", JStr balance)].

(** ** Etherscan answers; the registry holds it in cooldown *)

Definition healthy : world :=
  rest_world (λ n _,
    match n with
    | 0 => Normal (json_response 200 (etherscan_ok "42"))
    | _ => Normal (json_response 200 (JObj [("balance", JNum 0)]))
    end).

(** The registry after [registerProviders('ethereum', apiProviders.ethereum)]
    and [setCooldown('ethereum', 'etherscan', 60000)] at time 0. *)
Definition cooling : ProviderRotation.state :=
  ProviderRotation.setCooldown
    (ProviderRotation.registerProviders ProviderRotation.initial "ethereum" [etherscan])
    "ethereum" "etherscan" 60000 0.

(** C1 fails on the script.  At time 1000 etherscan is cooling down in
    the registry until 60000, and [getNextProvider] offers no provider;
    [getBalance] requests etherscan all the same, and returns its
    answer. *)
Lemma cooling_provider_requested :
  ProviderRotation.cooldownUntil cooling "ethereum" etherscan = 60000%Z
  ∧ (1000 < 60000)%Z
  ∧ (ProviderRotation.getNextProvider cooling "ethereum" 1000).1 = Normal None
  ∧ getBalance (deployed ∅) "ethereum" "0xabc" healthy 0
    = (Normal {| native := BigIntAmount 42; result_tokens := None |}, 2,
       [Fetch etherscan_url;
        ConsoleLog (CheckingUsdt ERC20 "0xabc");
        Fetch "https://aggregratorserver.onrender.com/balance/usdt/erc/0xabc"]).
Proof. repeat split; by vm_compute. Qed.

(** The same run, as an instance of the theorem: etherscan, the first of
    the list, is requested first, and the run is that of the schedule of
    the list, three attempts on etherscan. *)
Lemma providers_from_configuration_witness :
  (∃ t, (getBalance (deployed ∅) "ethereum" "0xabc" healthy 0).2
        = Fetch etherscan_url :: t)
  ∧ schedule [etherscan] = [(etherscan, 2, 4000%Z); (etherscan, 1, 8000%Z);
                            (etherscan, 0, 16000%Z)]
  ∧ getBalance (deployed ∅) "ethereum" "0xabc" healthy 0
    = let '(returned, n', t) :=
        play (deployed ∅) "ethereum" "0xabc" (network_of (deployed ∅) "ethereum")
          (schedule [etherscan]) healthy 0 in
      (match returned with
       | Normal (Some result) => Normal result
       | Normal None => Normal zero_balance
       | Throw error => Throw error
       end, n', t).
Proof.
  destruct (providers_from_configuration (deployed ∅) "ethereum" "0xabc")
    as (_ & Hfirst & _ & Hschedule).
  split; [|split; [reflexivity|]].
  - apply (Hfirst ltac:(discriminate) etherscan [] apiProviders_ethereum healthy 0).
  - apply (Hschedule ltac:(discriminate) etherscan [] apiProviders_ethereum).
Defined.

(** ** Nothing answers *)

Definition down : world :=
  rest_world (λ _ _, Throw (Error "getaddrinfo ENOTFOUND")).

Lemma down_unreachable : unreachable down.
Proof. by repeat split. Qed.



(** ** Two failures, then an answer *)

Definition flaky : world :=
  rest_world (λ n _,
    match n with
    | 0 | 1 => Throw (Error "socket hang up")
    | 2 => Normal (json_response 200 (etherscan_ok "42"))
    | _ => Normal (error_response 500)
    end).

Definition flaky_trace : list event :=
  [Fetch etherscan_url;
   ConsoleError (AttemptFailed "etherscan" "0xabc" 2 (Error "socket hang up"));
   ConsoleLog (WaitingBeforeRetry 4000); Sleep 4000;
   Fetch etherscan_url;
   ConsoleError (AttemptFailed "etherscan" "0xabc" 1 (Error "socket hang up"));
   ConsoleLog (WaitingBeforeRetry 8000); Sleep 8000;
   Fetch etherscan_url;
   ConsoleLog (CheckingUsdt ERC20 "0xabc");
   Fetch "https://aggregratorserver.onrender.com/balance/usdt/erc/0xabc"].

Lemma backoff_timing_witness :
  getBalance (deployed ∅) "ethereum" "0xabc" flaky 0
    = (Normal {| native := BigIntAmount 42; result_tokens := None |}, 4, flaky_trace)
  ∧ sleeps flaky_trace = [4000; 8000]%Z
  ∧ total_sleep flaky_trace = 12000%Z
  ∧ failure_entries flaky_trace = 2.
Proof.
  destruct (backoff_timing (deployed ∅) "ethereum" "0xabc" etherscan flaky 0) as [_ Hscenario].
  destruct (Hscenario (Error "socket hang up") 1 [Fetch etherscan_url]
              (Error "socket hang up") 2 [Fetch etherscan_url]
              {| native := BigIntAmount 42; result_tokens := None |} 4
              [Fetch etherscan_url; ConsoleLog (CheckingUsdt ERC20 "0xabc");
               Fetch "https://aggregratorserver.onrender.com/balance/usdt/erc/0xabc"])
    as (_ & Hsleeps & Htotal & Hfailures & Hget);
    [by vm_compute..|].
  split; [|split; [exact Hsleeps | split; [exact Htotal | exact Hfailures]]].
  apply Hget; [discriminate | by exists []].
Defined.

(** ** An account with no TRX and some USDT *)

Definition usdt_only : world :=
  rest_world (λ n _,
    match n with
    | 0 => Normal (json_response 200 (JObj [("data", JArr [JObj [("balance", JNum 0)]])]))
    | _ => Normal (json_response 200 (JObj [("balance", JNum 5)]))
    end).

Definition usdt_only_trace : list event :=
  [Fetch trongrid_url;
   ConsoleLog (TronNativeBalance "TXyz" (BigIntAmount 0));
   ConsoleLog (TronCheckingToken "usdt");
   ConsoleLog (CheckingUsdt TRC20 "TXyz");
   Fetch "https://aggregratorserver.onrender.com/balance/usdt/trc/TXyz";
   ConsoleLog (TrcUsdtResult "TXyz" (JObj [("balance", JNum 5)]) 5000000)].

(** C4 fails on the script.  The native balance resolves to 0, the USDT
    sub-lookup is performed nevertheless, and its balance is returned. *)
Lemma tokens_looked_up_without_native_balance :
  ∃ toks,
    getBalance (deployed ∅) "tron" "TXyz" usdt_only 0
      = (Normal {| native := BigIntAmount 0; result_tokens := Some toks |}, 2, usdt_only_trace)
    ∧ toks !! "usdt" = Some 5000000%Z
    ∧ Fetch "https://aggregratorserver.onrender.com/balance/usdt/trc/TXyz" ∈ usdt_only_trace.
Proof.
  eexists. split; [by vm_compute|]. split; [by vm_compute|].
  apply list_elem_of_In. simpl. tauto.
Qed.

Definition tron_usdt : list (string * token_config) :=
  [("usdt", {| token_address := "TXLAQ63Xg1NAzckPwKHvzw7CSEmLMEqcdj"; token_decimals := 6 |})].

Definition tron_network : network_config :=
  {| path := "m/44'/195'/0'/0/0"; decimals := 6; tokens := Some tron_usdt |}.

Lemma token_aggregation_witness :
  ∃ result,
    attempt (deployed ∅) "tron" "TXyz" (Some tron_network) trongrid usdt_only 0
      = (Normal result, 2, usdt_only_trace)
    ∧ native result = BigIntAmount 0
    ∧ (∀ s z, (∃ tb, result_tokens result = Some tb ∧ tb !! s = Some z)
              ↔ (s, z) ∈ [("usdt", 5000000%Z)] ∧ (0 < z)%Z)
    ∧ (result_tokens result = None ↔ ∀ s z, (s, z) ∈ [("usdt", 5000000%Z)] → (z ≤ 0)%Z)
    ∧ result_tokens result ≠ Some ∅.
Proof.
  destruct (token_aggregation (deployed ∅) "tron" "TXyz" tron_network trongrid usdt_only 0)
    as [Hlooked_up _].
  apply (Hlooked_up tron_usdt (BigIntAmount 0) 1 [Fetch trongrid_url]
           [("usdt", 5000000%Z)] 2
           [ConsoleLog (TronCheckingToken "usdt");
            ConsoleLog (CheckingUsdt TRC20 "TXyz");
            Fetch "https://aggregratorserver.onrender.com/balance/usdt/trc/TXyz";
            ConsoleLog (TrcUsdtResult "TXyz" (JObj [("balance", JNum 5)]) 5000000)]).
  - reflexivity.
  - apply NoDup_singleton.
  - by vm_compute.
  - by vm_compute.
Defined.

(** ** A large USDT balance *)

(** 9007199254.765625 USDT: a binary64 value, and 9007199254765625
    smallest units exactly. *)
Definition large_usdt : float := 9007199254.765625%float.

Definition whale : world :=
  rest_world (λ n _,
    match n with
    | 0 => Normal (json_response 200 (JObj [("data", JArr [JObj [("balance", JNum 1000000)]])]))
    | _ => Normal (json_response 200 (JObj [("balance", JNum large_usdt)]))
    end).


(** ** The aggregator answers for bitcoin *)

Definition half_bitcoin : world :=
  rest_world (λ _ _, Normal (json_response 200 (JObj [("balance", JNum 0.5)]))).






(** ** The body of the specification's example *)





(** ** The feed is down; the feed answers for bitcoin only *)

Definition stale : gmap string json := {[ "bitcoin" := JNum 1; "ethereum" := JNum 2 ]}.

Lemma rates_refresh_witness :
  (∃ cache', (updateAllExchangeRates stale down 0).1.1 = Normal cache'
             ∧ getExchangeRate cache' "bitcoin" = JNum 60000)
  ∧ (∃ cache', (updateAllExchangeRates stale
                  (rest_world (λ _ _, Normal (json_response 200
                     (JObj [("BTC", JObj [("USD", JNum 65000)])])))) 0).1.1 = Normal cache'
               ∧ cache' !! "ethereum" = stale !! "ethereum").
Proof.
  split.
  - destruct (rates_refresh stale down 0) as (cache' & Hrun & Hfailed & _).
    exists cache'. split; [done|]. by apply Hfailed.
  - match goal with |- context [updateAllExchangeRates _ ?w _] =>
      destruct (rates_refresh stale w 0) as (cache' & Hrun & _ & Hsucceeded) end.
    exists cache'. split; [done|].
    apply (Hsucceeded (JObj [("BTC", JObj [("USD", JNum 65000)])])).
    + eexists. by repeat split.
    + intros symbol Hin. apply list_elem_of_In in Hin. simpl in Hin.
      by destruct Hin as [<-|[]].
Defined.

(** ** Derivation with the chain libraries replaced *)

#[local] Instance test_libraries : ChainLibraries unit unit :=
  {| p2pkh_address := λ _ path, Normal ("p2pkh " ++ path);
     solana_address := λ _, Normal "solana";
     ton_address := λ phrase, Normal ("ton " ++ phrase);
     tron_address := λ _ path, Normal ("tron " ++ path);
     ethers_wallet_address := λ phrase, Normal ("0x " ++ phrase) |}.

Definition keys : keyMaterial := {| seed := tt; root := tt; mnemonic := "abandon" |}.

Lemma deriveAddress_supported_witness :
  deriveAddress "dogecoin" keys
    = Throw (Error "Unsupported currency for derivation: dogecoin")
  ∧ deriveAddress "ethereum" keys
    = Throw (Error "Unsupported currency for derivation: ethereum")
  ∧ scanAddress "ethereum" keys = Normal "0x abandon".
Proof.
  destruct (deriveAddress_supported "dogecoin" keys) as (_ & Hthrow & Hethereum & _ & _ & Hscan).
  split; [|split; [exact Hethereum | exact Hscan]].
  apply Hthrow. intros Hin. apply list_elem_of_In in Hin. simpl in Hin.
  by repeat (destruct Hin as [?|Hin]; [discriminate|]).
Defined.

(** ** Three providers in rotation *)

Definition named (n : string) : provider :=
  {| name := n; baseURL := "https://" ++ n ++ ".example/{address}"; apiKey := None;
     responsePath := Some "balance"; method := None; isText := false |}.

Definition registered : ProviderRotation.state :=
  ProviderRotation.registerProviders ProviderRotation.initial "tron"
    [named "a"; named "b"; named "c"].

(** Nothing has been returned yet, the index counts from 0: the rotation
    starts at the second provider. *)
Lemma rotation_fairness_witness :
  (ProviderRotation.getNextProviders registered "tron" [10; 20; 30]%Z).1
    = [Normal (Some (named "b")); Normal (Some (named "c")); Normal (Some (named "a"))]
  ∧ [named "b"; named "c"; named "a"] ≡ₚ [named "a"; named "b"; named "c"].
Proof.
  apply (RotationProofs.rotation_fairness registered "tron"
           [named "a"; named "b"; named "c"] [10; 20; 30]%Z).
  - reflexivity.
  - reflexivity.
  - intros now p Hnow _. apply list_elem_of_In in Hnow. simpl in Hnow.
    unfold RotationProofs.eligible, ProviderRotation.cooldownUntil. simpl.
    rewrite lookup_empty. simpl. lia.
Defined.

Definition later_calls : list ProviderRotation.call :=
  [ProviderRotation.GetNextProvider "tron" 2000;
   ProviderRotation.SetCooldown "ethereum" "etherscan" 5 3000].

Lemma cooldown_respected_witness :
  ∃ q,
    (ProviderRotation.getNextProvider
       (ProviderRotation.run
          (ProviderRotation.setCooldown registered "tron" "a" 60000 1000) later_calls)
       "tron" 30000).1 = Normal (Some q)
    ∧ name q ≠ "a".
Proof.
  destruct (RotationProofs.cooldown_respected registered "tron" "a" 60000 1000
              later_calls 30000) as [_ Hreturns].
  - repeat constructor. simpl. discriminate.
  - lia.
  - destruct Hreturns as (q & Hq & Hname & _).
    + exists (named "b"). split; [|by vm_compute].
      apply list_elem_of_In. vm_compute. tauto.
    + by exists q.
Defined.

(** ** The registry with a provider cooling down *)

Definition b_cooling : ProviderRotation.state :=
  ProviderRotation.setCooldown registered "tron" "b" 60000 0.

(** After [a] (index 0, never returned yet) comes [b], which is cooling
    down: [c] is returned, and its index recorded. *)
Lemma getNextProvider_first_eligible_witness :
  ∃ k : nat,
    [named "a"; named "b"; named "c"] !! ((0 + k) `mod` 3) = Some (named "c")
    ∧ ProviderRotation.lastUsedIndex
        (ProviderRotation.getNextProvider b_cooling "tron" 1000).2 !! "tron"
      = Some ((0 + k) `mod` 3).
Proof.
  destruct (RotationProofs.getNextProvider_first_eligible b_cooling "tron" 1000 (named "c")
              (ProviderRotation.getNextProvider b_cooling "tron" 1000).2)
    as (k & _ & Hq & _ & _ & Hindex & _).
  { by vm_compute. }
  exists k. split; [exact Hq | exact Hindex].
Defined.

Lemma cooldown_expires_witness :
  (ProviderRotation.getNextProvider cooling "ethereum" 59999).1 = Normal None
  ∧ (ProviderRotation.getNextProvider cooling "ethereum" 60000).1 = Normal (Some etherscan).
Proof.
  split.
  - apply (RotationProofs.cooldown_expires
             (ProviderRotation.registerProviders ProviderRotation.initial "ethereum" [etherscan])
             "ethereum" etherscan 60000 0 59999).
    reflexivity.
  - apply (RotationProofs.cooldown_expires
             (ProviderRotation.registerProviders ProviderRotation.initial "ethereum" [etherscan])
             "ethereum" etherscan 60000 0 60000).
    reflexivity.
Defined.

(** The currency [a-b] with the provider [c], and the currency [a] with
    the provider [b-c]. *)
Lemma cooldown_keys_collide_witness :
  ProviderRotation.cooldownKey "a-b" "c" = ProviderRotation.cooldownKey "a" "b-c"
  ∧ ProviderRotation.cooldownUntil
      (ProviderRotation.setCooldown ProviderRotation.initial "a-b" "c" 60000 0)
      "a" (named "b-c") = 60000%Z.
Proof.
  split; [reflexivity|].
  destruct (RotationProofs.cooldown_keys_collide ProviderRotation.initial "a-b" "c" "a"
              (named "b-c") 60000 0 1000) as [Huntil _].
  - reflexivity.
  - lia.
  - exact Huntil.
Defined.

(** The registry after two providers were returned ([b], then [c]). *)
Definition rotated : ProviderRotation.state :=
  (ProviderRotation.getNextProviders registered "tron" [10; 20]%Z).2.

Lemma registerProviders_keeps_rotation_witness :
  (ProviderRotation.getNextProvider
     (ProviderRotation.registerProviders rotated "tron" [named "x"; named "y"]) "tron" 30).1
    = Normal (Some (named "y")).
Proof.
  destruct (RotationProofs.registerProviders_keeps_rotation rotated "tron"
              [named "x"; named "y"] 30) as (p & Hp & Hrun).
  - simpl. lia.
  - intros p _. unfold RotationProofs.eligible, ProviderRotation.cooldownUntil.
    assert (ProviderRotation.cooldowns rotated = ∅) as -> by by vm_compute.
    rewrite lookup_empty. simpl. lia.
  - rewrite Hrun. vm_compute in Hp. injection Hp as <-. reflexivity.
Defined.

Definition two_currencies : ProviderRotation.state :=
  ProviderRotation.registerProviders registered "ethereum" [etherscan].

Lemma rotation_per_currency_witness :
  (ProviderRotation.getNextProvider
     (ProviderRotation.getNextProvider two_currencies "ethereum" 5).2 "tron" 10).1
    = (ProviderRotation.getNextProvider two_currencies "tron" 10).1.
Proof.
  destruct (RotationProofs.rotation_per_currency two_currencies "tron" "ethereum" 10 5)
    as [_ Hsame]; [discriminate | exact Hsame].
Defined.

(** ** A second index *)

Definition matrix : json :=
  JObj [("m", JArr [JArr [JNum 1; JNum 2]; JArr [JNum 3; JNum 4]])].

Lemma indexed_segment_suffix_ignored_witness :
  getNestedValue (Some matrix) (segment_string (Indexed "m" 1) ++ "[0]")
    = getNestedValue (Some matrix) (segment_string (Indexed "m" 1))
  ∧ getNestedValue (Some matrix) "m[1][0]" = Normal (Some (JArr [JNum 3; JNum 4])).
Proof.
  split; [|by vm_compute].
  apply (indexed_segment_suffix_ignored (Some matrix) "m" 1 "[0]");
    [split; [discriminate | reflexivity] | reflexivity].
Defined.

(** ** An account that does not exist on tron *)

Definition no_account : world :=
  rest_world (λ _ _, Normal (json_response 200 (JObj [("data", JArr [])]))).

Lemma tron_empty_account_witness :
  getBalance (deployed ∅) "tron" "TXyz" no_account 0
    = (Normal {| native := BigIntAmount 0; result_tokens := Some ∅ |}, 1,
       [Fetch trongrid_url]).
Proof.
  apply (tron_empty_account (deployed ∅) "TXyz" trongrid [] no_account 0
           (json_response 200 (JObj [("data", JArr [])])) (JObj [("data", JArr [])]));
    (reflexivity || discriminate).
Defined.

(** ** The aggregator is down *)

Definition trx_only : world :=
  rest_world (λ n _,
    match n with
    | 0 => Normal (json_response 200 (JObj [("data", JArr [JObj [("balance", JNum 7)]])]))
    | _ => Throw (Error "aggregator down")
    end).

Lemma tron_token_errors_swallowed_witness :
  ∃ toks n2 t2,
    attempt (deployed ∅) "tron" "TXyz" (Some tron_network) trongrid trx_only 0
      = (Normal {| native := BigIntAmount 7; result_tokens := toks |}, n2,
         ([Fetch trongrid_url] ++ ConsoleLog (TronNativeBalance "TXyz" (BigIntAmount 7)) :: t2)%list).
Proof.
  apply (tron_token_errors_swallowed (deployed ∅) "TXyz" tron_network trongrid trx_only 0
           (BigIntAmount 7) 1 [Fetch trongrid_url]).
  by vm_compute.
Defined.

Definition ethereum_usdt : token_config :=
  {| token_address := "0xdac17f958d2ee523a2206206994597c13d831ec7"; token_decimals := 6 |}.

Definition ethereum_network : network_config :=
  {| path := "m/44'/60'/0'/0/0"; decimals := 18; tokens := Some [("usdt", ethereum_usdt)] |}.

Definition eth_only : world :=
  rest_world (λ n _,
    match n with
    | 0 => Normal (json_response 200 (etherscan_ok "42"))
    | _ => Throw (Error "aggregator down")
    end).

Lemma ethereum_token_failure_fails_attempt_witness :
  attempt (deployed ∅) "ethereum" "0xabc" (Some ethereum_network) etherscan eth_only 0
    = (Throw (Error "aggregator down"), 2,
       ([Fetch etherscan_url]
        ++ [ConsoleLog (CheckingUsdt ERC20 "0xabc");
            Fetch (AGGREGATOR ++ "usdt/erc/" ++ "0xabc")])%list).
Proof.
  destruct (ethereum_token_failure_fails_attempt (deployed ∅) "0xabc" ethereum_network
              ethereum_usdt [] etherscan eth_only 0 (BigIntAmount 42) 1 [Fetch etherscan_url]
              (Error "aggregator down")) as [Hattempt _].
  - reflexivity.
  - by vm_compute.
  - reflexivity.
  - exact Hattempt.
Defined.

(** In the run with two failures, 12 seconds were slept for the one
    provider of ethereum. *)
Lemma getBalance_sleep_bound_witness :
  sleeps (getBalance (deployed ∅) "ethereum" "0xabc" flaky 0).2 = [4000; 8000]%Z
  ∧ sleeps_within (length (default [] (cfg_apiProviders (deployed ∅) !! "ethereum")))
      (getBalance (deployed ∅) "ethereum" "0xabc" flaky 0).2.
Proof.
  split; [vm_compute; reflexivity|].
  unfold sleeps_within.
  apply (getBalance_sleep_bound (deployed ∅) "ethereum" "0xabc" flaky 0).
  intros Hin. apply list_elem_of_In in Hin. simpl in Hin. intuition discriminate.
Defined.

(** ** Etherscan with a key *)

Definition etherscan_keyed : provider :=
  {| name := "etherscan";
     baseURL := "https://api.etherscan.io/v2/api?chainid=1&module=account&action=balance&address={address}&tag=latest";
     apiKey := Some "KEY"; responsePath := Some "result"; method := None; isText := false |}.

Lemma address_substituted_once_witness :
  request_url "0xabc" etherscan_keyed
    = ("https://api.etherscan.io/v2/api?chainid=1&module=account&action=balance&address="
       ++ "0xabc" ++ "&tag=latest") ++ "&apikey=KEY".
Proof.
  apply (address_substituted_once "0xabc" etherscan_keyed
           "https://api.etherscan.io/v2/api?chainid=1&module=account&action=balance&address="
           "&tag=latest"); reflexivity.
Defined.

(** ** The tokens of a result *)

Lemma getBalance_tokens_witness :
  tokens_of (cfg_networks (deployed ∅) !! "tron") {[ "usdt" := 5000000%Z ]}.
Proof.
  destruct (getBalance_tokens (deployed ∅) "tron" "TXyz" usdt_only 0
              {| native := BigIntAmount 0; result_tokens := Some {[ "usdt" := 5000000%Z ]} |}
              2 usdt_only_trace {[ "usdt" := 5000000%Z ]}) as (_ & _ & Htokens).
  - intros Hin. apply list_elem_of_In in Hin. simpl in Hin. intuition discriminate.
  - by vm_compute.
  - reflexivity.
  - exact Htokens.
Defined.

(** ** Tron has no rate *)

Definition quotes : json :=
  JObj [("BTC", JObj [("USD", JNum 65000)]); ("ETH", JObj [("USD", JNum 0)])].

Definition feed : world := rest_world (λ _ _, Normal (json_response 200 quotes)).

Lemma untracked_currency_never_rated_witness :
  getExchangeRate (refreshes [(down, 0); (feed, 0)] ∅) "tron" = JNum 0
  ∧ "tron" ∈ currenciesToCheck.
Proof.
  split.
  - apply (untracked_currency_never_rated [(down, 0); (feed, 0)] "tron");
      intros Hin; apply list_elem_of_In in Hin; simpl in Hin; intuition discriminate.
  - apply list_elem_of_In. simpl. tauto.
Defined.

(** The feed quotes bitcoin at 65000 and ethereum at 0: the first is
    stored, the second leaves the entry as it was. *)
Lemma refresh_stores_quotes_witness :
  (∃ cache', (updateAllExchangeRates stale feed 0).1.1 = Normal cache'
             ∧ cache' !! "bitcoin" = Some (JNum 65000))
  ∧ (∃ cache', (updateAllExchangeRates stale feed 0).1.1 = Normal cache'
               ∧ cache' !! "ethereum" = stale !! "ethereum").
Proof.
  assert (Hfeed : refresh_succeeded (fetch_outcome feed 0 RATES_URL) quotes).
  { eexists. by repeat split. }
  split.
  - destruct (refresh_stores_quotes stale feed 0 quotes "bitcoin" "BTC" Hfeed)
      as (cache' & Hrun & Hstored & _).
    { apply list_elem_of_In. simpl. tauto. }
    exists cache'. split; [exact Hrun|]. rewrite Hstored. reflexivity.
  - destruct (refresh_stores_quotes stale feed 0 quotes "ethereum" "ETH" Hfeed)
      as (cache' & Hrun & Hstored & _).
    { apply list_elem_of_In. simpl. tauto. }
    exists cache'. split; [exact Hrun|]. rewrite Hstored. reflexivity.
Defined.

(** ** A task of the scan cycle *)

(** The formatting replaced, as the chain libraries are. *)
#[local] Instance test_formatting : StartBot.Formatting :=
  {| StartBot.formatUnits := λ _ _, Normal "42.0";
     StartBot.parseFloat := λ _, 42%float;
     StartBot.toFixed2 := λ _, "0.00" |}.

Definition surroundings_of (w : world) (database : completion unit) : StartBot.surroundings :=
  {| StartBot.outside := w;
     StartBot.exchangeRateCache := λ _, ∅;
     StartBot.insertOne_outcome := λ _ _, database;
     StartBot.Date_now := λ _, 1700000000000%Z |}.

Definition found_42 : StartBot.found :=
  {| StartBot.found_mnemonic := "abandon";
     StartBot.found_currency := "ethereum";
     StartBot.found_address := "0x abandon";
     StartBot.found_token := None;
     StartBot.found_balance := "42";
     StartBot.found_balanceInUSD := "0.00";
     StartBot.found_timestamp := 1700000000000%Z |}.

Lemma saved_documents_witness :
  StartBot.checkCurrency ∅ keys "ethereum" (surroundings_of healthy (Normal tt)) 0
    = (Normal tt, 3,
       StartBot.Checking "ethereum" "0x abandon"
       :: (StartBot.Lookup <$>
             [Fetch "https://api.etherscan.io/v2/api?chainid=1&module=account&action=balance&address=0x abandon&tag=latest";
              ConsoleLog (CheckingUsdt ERC20 "0x abandon");
              Fetch "https://aggregratorserver.onrender.com/balance/usdt/erc/0x abandon"])
       ++ [StartBot.InsertOne found_42; StartBot.FoundAndSaved found_42])
  ∧ StartBot.found_mnemonic found_42 = mnemonic keys
  ∧ scanAddress "ethereum" keys = Normal (StartBot.found_address found_42).
Proof.
  split; [by vm_compute|].
  destruct (StartBotProofs.saved_documents ∅ keys "ethereum"
              (surroundings_of healthy (Normal tt)) 0 found_42) as (Hmnemonic & _ & Haddress & _).
  - apply list_elem_of_In. vm_compute. tauto.
  - split; [exact Hmnemonic | exact Haddress].
Defined.

Lemma nothing_found_nothing_saved_witness :
  ∃ n1 t1,
    StartBot.checkCurrency ∅ keys "ethereum" (surroundings_of down (Normal tt)) 0
      = (Normal tt, n1, StartBot.Checking "ethereum" "0x abandon" :: (StartBot.Lookup <$> t1)).
Proof.
  destruct (StartBotProofs.nothing_found_nothing_saved ∅ keys "ethereum" "0x abandon"
              (surroundings_of down (Normal tt)) 0) as [_ Hdown].
  - reflexivity.
  - discriminate.
  - apply Hdown, down_unreachable.
Defined.

Lemma database_down_aborts_witness :
  let '(r, _, t) :=
    StartBot.checkCurrency ∅ keys "ethereum"
      (surroundings_of healthy (Throw (Error "MongoNetworkError"))) 0 in
  StartBotProofs.reported t = []
  ∧ (length (StartBotProofs.inserted t) ≤ 1)%nat
  ∧ (StartBotProofs.inserted t ≠ [] → is_normal r = false).
Proof.
  apply (StartBotProofs.database_down_aborts ∅ keys "ethereum"
           (surroundings_of healthy (Throw (Error "MongoNetworkError"))) 0).
  intros k doc. reflexivity.
Defined.

(** ** The command-line checker *)

Definition argv_of (arguments : list string) : list string :=
  "/usr/bin/node" :: "check_balance.js" :: arguments.

Definition answers (a : CheckBalance.answer) : CheckBalance.blockcypher :=
  {| CheckBalance.getAddrBal_outcome := λ _ _ _, a |}.

Definition five : CheckBalance.blockcypher :=
  answers (CheckBalance.Calls None (Some (JObj [("balance", JNum 5)]))).

Lemma main_usage_witness :
  CheckBalance.main (argv_of ["btc"]) five 0
    = (Normal tt, 0,
       [CheckBalance.ConsoleLog CheckBalance.Usage;
        CheckBalance.ConsoleLog CheckBalance.Supported]).
Proof.
  apply (CheckBalanceProofs.main_usage (argv_of ["btc"]) five 0).
  right. right. by left.
Defined.


Lemma main_inherited_witness :
  CheckBalance.main (argv_of ["Constructor"; "1abc"]) five 0
    = (Normal tt, 0,
       [CheckBalance.ConsoleLog (CheckBalance.Checking "Constructor" "1abc");
        CheckBalance.ConsoleError (CheckBalance.ErrorChecking (CheckBalance.Raised TypeError));
        CheckBalance.ConsoleLog (CheckBalance.Balance (Some (JNum 0)))]).
Proof.
  apply (CheckBalanceProofs.main_inherited (argv_of ["Constructor"; "1abc"])
           "Constructor" "1abc" five 0).
  - reflexivity.
  - reflexivity.
  - discriminate.
  - apply list_elem_of_In. simpl. tauto.
Defined.

(** ** The stand-in is not consulted

    Under any conversions between numbers and their notation the runs of
    the scenarios are the ones computed with the stand-in. *)
Lemma scenarios_whatever_the_conversions (conversions : NumberNotation) :
  @getBalance conversions (deployed ∅) "ethereum" "0xabc" healthy 0
    = getBalance (deployed ∅) "ethereum" "0xabc" healthy 0
  ∧ @getBalance conversions (deployed ∅) "tron" "TXyz" usdt_only 0
    = getBalance (deployed ∅) "tron" "TXyz" usdt_only 0
  ∧ @getBalance conversions (deployed ∅) "tron" "TXyz" whale 0
    = getBalance (deployed ∅) "tron" "TXyz" whale 0
  ∧ @getBalance conversions (deployed ∅) "bitcoin" "1abc" half_bitcoin 0
    = getBalance (deployed ∅) "bitcoin" "1abc" half_bitcoin 0
  ∧ @smallest_units conversions (Some (JNum large_usdt)) (Number_pow 10 6)
    = smallest_units (Some (JNum large_usdt)) (Number_pow 10 6).
Proof. repeat split; by vm_compute. Qed.

End Scenarios.
